(** * Foto organization tool: the organizer pipeline, embedded and verified

    Shallow embedding of [foto_organization_tool.py]: the path classifier
    ([filter_files_with_regex]), the destination resolver
    ([create_dst_path_for_file]), the two movers
    ([extract_exif_from_image_and_move_to_dest_folder], [move_other_files]),
    the empty-directory pruner ([delete_empty_folders]) and the duplicate
    reconciler ([delete_copy_pictures_from_destination]).

    Python [str] values are lists of characters.  The filesystem is a finite
    map from the path strings the program builds to file sizes, plus a finite
    set of directory paths.  Exceptions are values of an error type, and the
    two unbounded [while] loops take a fuel argument. *)

From Stdlib Require Import ZArith Ascii String.
From stdpp Require Import base option list gmap sets strings pretty sorting.

Local Open Scope char_scope.
Local Open Scope list_scope.

(** ** Python values *)

Abbreviation str := (list ascii).

(** A string literal of the source, as a list of characters. *)
Definition py (s : string) : str := list_ascii_of_string s.

(** Outcome of running a piece of the program. *)
Inductive exn :=
  | IndexError | UnboundLocalError | AssertionError
  | FileNotFoundError | FileExistsError | NotADirectoryError | PermissionError
  | OSError.

Inductive Result (A : Type) :=
  | Return (a : A)
  | Raise (e : exn)
  | OutOfFuel.
Arguments Return {A} a.
Arguments Raise {A} e.
Arguments OutOfFuel {A}.

#[global] Instance Result_ret : MRet Result := fun A a => Return a.
#[global] Instance Result_bind : MBind Result := fun A B k m =>
  match m with
  | Return a => k a
  | Raise e => Raise e
  | OutOfFuel => OutOfFuel
  end.

#[global] Instance exn_eq_dec : EqDecision exn.
Proof. solve_decision. Defined.

(** Reading the outcome of a run off a computed check: the run returns the
    expected values, in a world with the property [Q]. *)
Lemma returns_checked {W A} `{EqDecision A} (r : Result (W * A)) (a : A)
    (Q : W -> Prop) `{∀ w, Decision (Q w)} :
  match r with
  | Return (w, a') => bool_decide (a' = a) && bool_decide (Q w)
  | _ => false
  end = true ->
  ∃ w', r = Return (w', a) ∧ Q w'.
Proof.
  destruct r as [[w a']| |]; [|done|done].
  intros [->%bool_decide_eq_true HQ%bool_decide_eq_true]%andb_prop. eauto.
Qed.

Lemma returns_checked3 {W A B} `{EqDecision A, EqDecision B}
    (r : Result (W * A * B)) (a : A) (b : B) (Q : W -> Prop) `{∀ w, Decision (Q w)} :
  match r with
  | Return (w, a', b') => bool_decide (a' = a ∧ b' = b) && bool_decide (Q w)
  | _ => false
  end = true ->
  ∃ w', r = Return (w', a, b) ∧ Q w'.
Proof.
  destruct r as [[[w a'] b']| |]; [|done|done].
  intros [[-> ->]%bool_decide_eq_true HQ%bool_decide_eq_true]%andb_prop. eauto.
Qed.

Lemma returns_checked4 {W A B C} `{EqDecision A, EqDecision B, EqDecision C}
    (r : Result (W * A * B * C)) (a : A) (b : B) (c : C)
    (Q : W -> Prop) `{∀ w, Decision (Q w)} :
  match r with
  | Return (w, a', b', c') =>
      bool_decide (a' = a ∧ b' = b ∧ c' = c) && bool_decide (Q w)
  | _ => false
  end = true ->
  ∃ w', r = Return (w', a, b, c) ∧ Q w'.
Proof.
  destruct r as [[[[w a'] b'] c']| |]; [|done|done].
  intros [(-> & -> & ->)%bool_decide_eq_true HQ%bool_decide_eq_true]%andb_prop. eauto.
Qed.

(** A [for] loop over a list that the body does not change; the body may
    raise. *)
Fixpoint for_each {S A} (body : S -> A -> Result S) (st : S) (l : list A) : Result S :=
  match l with
  | [] => Return st
  | x :: rest => st1 ← body st x; for_each body st1 rest
  end.

Module PyStr.

(** [str.lower()], character by character.  A character is a code point
    below 256: the upper-case letters are A-Z and the Latin-1 range
    U+00C0-U+00DE without the multiplication sign U+00D7. *)
Definition ascii_lower (c : ascii) : ascii :=
  let n := N_of_ascii c in
  if ((65 <=? n) && (n <=? 90) ||
      (192 <=? n) && (n <=? 222) && negb (n =? 215))%N
  then ascii_of_N (n + 32) else c.

Definition lower (s : str) : str := map ascii_lower s.

(** [s.startswith(p)] *)
Fixpoint startswith (p s : str) : bool :=
  match p, s with
  | [], _ => true
  | _ :: _, [] => false
  | a :: p', b :: s' => if decide (a = b) then startswith p' s' else false
  end.

(** [s.endswith(p)] *)
Definition endswith (p s : str) : bool := startswith (rev p) (rev s).

(** [sub in s] *)
Fixpoint contains (sub s : str) : bool :=
  startswith sub s ||
  match s with
  | [] => false
  | _ :: s' => contains sub s'
  end.

(** [s.split(sep)] for a non-empty separator: the pieces between the
    leftmost non-overlapping occurrences of [sep].  [skip] counts the
    characters of an occurrence still to be passed over; the head of the
    result is the piece under construction. *)
Fixpoint split_go (sep : str) (skip : nat) (s : str) : list str :=
  match s with
  | [] => [[]]
  | c :: s' =>
      match skip with
      | S k => split_go sep k s'
      | O =>
          if startswith sep s then [] :: split_go sep (length sep - 1) s'
          else match split_go sep 0 s' with
               | piece :: rest => (c :: piece) :: rest
               | [] => [[c]]
               end
      end
  end.

Definition split (sep s : str) : list str := split_go sep 0 s.

(** [l[i]] for [i >= 0] *)
Definition index {A} (l : list A) (i : nat) : Result A :=
  match l !! i with
  | Some x => Return x
  | None => Raise IndexError
  end.

(** [l[-1]] *)
Definition index_last {A} (l : list A) : Result A :=
  match last l with
  | Some x => Return x
  | None => Raise IndexError
  end.

(** [s[:-1]] *)
Definition drop_last (s : str) : str := take (length s - 1) s.

(** [str(n)] and the f-string rendering [{n}] of a non-negative int. *)
Definition of_nat (n : nat) : str := py (pretty n).

End PyStr.

(** ** posixpath *)

Module OsPath.

Definition sep : ascii := "/".

(** [p.rfind('/') + 1] as a cut of [p]: the part up to and including the
    last separator, and the part after it; [None] when [p] has none. *)
Fixpoint cut_last_sep (p : str) : option (str * str) :=
  match p with
  | [] => None
  | c :: p' =>
      match cut_last_sep p' with
      | Some (h, t) => Some (c :: h, t)
      | None => if decide (c = sep) then Some ([c], p') else None
      end
  end.

(** [head.rstrip('/')] *)
Fixpoint lstrip_sep (h : str) : str :=
  match h with
  | c :: h' => if decide (c = sep) then lstrip_sep h' else h
  | [] => []
  end.

Definition rstrip_sep (h : str) : str := rev (lstrip_sep (rev h)).

(** [os.path.split(p)] *)
Definition split (p : str) : str * str :=
  match cut_last_sep p with
  | None => ([], p)
  | Some (h, t) =>
      (if forallb (fun c => bool_decide (c = sep)) h then h else rstrip_sep h, t)
  end.

(** [os.path.join(a, b)] *)
Definition join (a b : str) : str :=
  if PyStr.startswith [sep] b then b
  else if bool_decide (a = []) || PyStr.endswith [sep] a then a ++ b
  else a ++ sep :: b.

(** [os.path.join(a, b, c)] *)
Definition join3 (a b c : str) : str := join (join a b) c.

End OsPath.

(** ** PathClassifier: [filter_files_with_regex] *)

Module Classifier.

(** The alternation of the [extension] group, in the source's order. *)
Definition extensions : list str :=
  map py ["JPG"; "jpg"; "jpeg"; "PNG"; "png"; "tiff"; "tif"; "TIF"; "BMP"; "bmp"]%string.

(** The first alternative that matches at the start of [s]. *)
Definition match_extension (s : str) : option str :=
  find (fun e => PyStr.startswith e s) extensions.

Definition newline : ascii := "010".

(** One anchored attempt of the source's pattern at the start of [s]: the
    group [filename], any run of characters ("dot star"), then a literal
    dot, then the group [extension].  The run is greedy and does not cross
    a newline: it first takes the next character and only gives it back
    when the rest of the pattern fails further right.  The result is the
    two groups. *)
Fixpoint match_here (s : str) : option (str * str) :=
  match s with
  | [] => None
  | c :: s' =>
      let stop_here :=
        if decide (c = ".") then
          match match_extension s' with
          | Some e => Some ([], e)
          | None => None
          end
        else None in
      if decide (c = newline) then stop_here
      else match match_here s' with
           | Some (f, e) => Some (c :: f, e)
           | None => stop_here
           end
  end.

(** [re.finditer(regex, s)]: the non-overlapping matches, left to right.
    After a match the scan resumes behind it; [skip] counts the characters
    of the last match still to be passed over. *)
Fixpoint finditer_go (skip : nat) (s : str) : list (str * str) :=
  match skip with
  | S k =>
      match s with
      | [] => []
      | _ :: s' => finditer_go k s'
      end
  | O =>
      match match_here s with
      | Some (f, e) =>
          (f, e) ::
          match s with
          | [] => []
          | _ :: s' => finditer_go (length f + length e) s'
          end
      | None =>
          match s with
          | [] => []
          | _ :: s' => finditer_go 0 s'
          end
      end
  end.

Definition finditer (s : str) : list (str * str) := finditer_go 0 s.

(** Python truthiness of an optional string: [None] and [""] are falsy. *)
Definition truthy (o : option str) : bool :=
  match o with
  | Some (_ :: _) => true
  | _ => false
  end.

(** The loop body's decision: the groups of the last match, if any, must
    both be non-empty. *)
Definition is_image (file : str) : bool :=
  let image := snd (OsPath.split file) in
  let '(filename, extension) :=
    fold_left (fun _ m => (Some (fst m), Some (snd m))) (finditer image) (None, None) in
  negb (negb (truthy filename) || negb (truthy extension)).

(** The loop of [filter_files_with_regex], threading [imgs] and [others]. *)
Fixpoint classify_loop (files_list imgs others : list str) : list str * list str :=
  match files_list with
  | [] => (imgs, others)
  | file :: rest =>
      if is_image file then classify_loop rest (imgs ++ [file]) others
      else classify_loop rest imgs (others ++ [file])
  end.

Definition filter_files_with_regex (files_list : list str) : Result (list str * list str) :=
  let '(imgs, others) := classify_loop files_list [] [] in
  if decide (length files_list = length imgs + length others)
  then Return (imgs, others)
  else Raise AssertionError.

End Classifier.

(** ** Facts about the Python string primitives *)

Section PyStrFacts.

Lemma startswith_prefix (p s : str) :
  PyStr.startswith p s = true <-> ∃ r, s = p ++ r.
Proof.
  revert s. induction p as [|a p IH]; intros s; simpl.
  - split; eauto.
  - destruct s as [|b s].
    + split; [done | intros [r Hr]; discriminate].
    + case_decide as Hab.
      * subst b. rewrite IH. split; intros [r Hr]; exists r; simpl in *; congruence.
      * split; [done | intros [r Hr]; simpl in Hr; congruence].
Qed.

Lemma startswith_app (p r : str) : PyStr.startswith p (p ++ r) = true.
Proof. apply startswith_prefix. eauto. Qed.

Lemma startswith_length (p s : str) :
  PyStr.startswith p s = true -> length p <= length s.
Proof.
  intros [r ->]%startswith_prefix. rewrite length_app. lia.
Qed.

(** A pattern that does not contain [c] cannot tell what follows a [c]. *)
Lemma startswith_cut (c : ascii) (p t u : str) :
  c ∉ p -> PyStr.startswith p (t ++ c :: u) = PyStr.startswith p t.
Proof.
  revert t. induction p as [|a p IH]; intros t Hc; simpl; [done|].
  apply not_elem_of_cons in Hc as [Hca Hcp].
  destruct t as [|b t]; simpl.
  - case_decide; [congruence | done].
  - case_decide; [by apply IH | done].
Qed.

Lemma contains_spec (sub s : str) :
  PyStr.contains sub s = true <-> ∃ pre post, s = pre ++ sub ++ post.
Proof.
  induction s as [|c s IH]; simpl.
  - rewrite orb_false_r, startswith_prefix. split.
    + intros [r Hr]. by exists [], r.
    + intros (pre & post & H). symmetry in H.
      apply app_eq_nil in H as [-> H]. exists post. done.
  - rewrite orb_true_iff, startswith_prefix, IH. split.
    + intros [[r Hr] | (pre & post & Hs)].
      * by exists [], r.
      * exists (c :: pre), post. by rewrite Hs.
    + intros (pre & post & Hs). destruct pre as [|a pre]; simpl in Hs.
      * left. eauto.
      * right. exists pre, post. congruence.
Qed.

End PyStrFacts.

(** ** The classifier's regular expression *)

Module ClassifierFacts.
Import Classifier.

(** An occurrence at offset [k]: a dot directly followed by one of the ten
    spellings of the alternation. *)
Definition occ (s : str) (k : nat) : Prop :=
  ∃ r, drop k s = "." :: r ∧ is_Some (match_extension r).

(** The last occurrence of [s]. *)
Definition last_occ (s : str) (k : nat) : Prop :=
  occ s k ∧ ∀ j, k < j -> ¬ occ s j.

(** The part of [s] behind its first line break, if it has one. *)
Fixpoint next_line (s : str) : option str :=
  match s with
  | [] => None
  | c :: s' => if decide (c = newline) then Some s' else next_line s'
  end.

(** Offsets in the first line of [s]. *)
Definition in_first_line (s : str) (k : nat) : Prop := newline ∉ take k s.

Lemma extensions_shape :
  Forall (fun e => (newline ∉ e) ∧ ("." ∉ e) ∧ e ≠ []) extensions.
Proof.
  unfold extensions. simpl.
  repeat (apply List.Forall_cons; [split_and!; [ | | done] |]).
  all: try apply List.Forall_nil.
  all: rewrite list_elem_of_In; unfold newline; simpl; intuition discriminate.
Qed.

Lemma match_extension_Some (s e : str) :
  match_extension s = Some e ->
  e ∈ extensions ∧ PyStr.startswith e s = true.
Proof.
  unfold match_extension. intros [H1 H2]%find_some.
  split; [by apply list_elem_of_In | done].
Qed.

Lemma match_extension_shape (s e : str) :
  match_extension s = Some e -> (newline ∉ e) ∧ ("." ∉ e) ∧ e ≠ [].
Proof.
  intros [He _]%match_extension_Some.
  pose proof extensions_shape as HF. rewrite Forall_forall in HF. by apply HF.
Qed.

(** What follows the line break does not influence the alternation. *)
Lemma match_extension_cut (t u : str) :
  match_extension (t ++ newline :: u) = match_extension t.
Proof.
  unfold match_extension.
  pose proof extensions_shape as HF. revert HF.
  generalize extensions as l. induction l as [|e l IH]; intros HF; simpl; [done|].
  apply Forall_cons in HF as [(Hnl & _ & _) HF].
  rewrite startswith_cut by done.
  destruct (PyStr.startswith e t); [done | by apply IH].
Qed.

Lemma match_extension_dot (u : str) : match_extension ("." :: u) = None.
Proof.
  destruct (match_extension ("." :: u)) as [e|] eqn:He; [|done].
  pose proof (match_extension_shape _ _ He) as (_ & Hdot & Hne).
  apply match_extension_Some in He as [_ Hs].
  destruct e as [|a e]; [done|]. simpl in Hs. case_decide; [|done].
  subst a. exfalso. apply Hdot. left.
Qed.

Lemma occ_cons (c : ascii) (s : str) (k : nat) : occ (c :: s) (S k) <-> occ s k.
Proof. done. Qed.

Lemma occ_zero (c : ascii) (s : str) :
  occ (c :: s) 0 <-> c = "." ∧ is_Some (match_extension s).
Proof.
  unfold occ. simpl. split.
  - intros (r & [= -> ->] & H). done.
  - intros [-> H]. eauto.
Qed.

Lemma occ_lt (s : str) (k : nat) : occ s k -> S k < length s.
Proof.
  intros (r & Hd & [e He]).
  pose proof (match_extension_shape _ _ He) as (_ & _ & Hne).
  apply match_extension_Some in He as [_ Hs%startswith_length].
  assert (length (drop k s) = S (length r)) as Hl by (by rewrite Hd).
  rewrite length_drop in Hl. destruct e; [done|]. simpl in Hs. lia.
Qed.

Lemma match_here_None (s : str) :
  match_here s = None -> ∀ k, in_first_line s k -> ¬ occ s k.
Proof.
  induction s as [|c s IH]; simpl; intros Hn k Hline.
  { intros (r & Hd & _). by rewrite drop_nil in Hd. }
  destruct k as [|k].
  - rewrite occ_zero. intros [-> [e He]].
    rewrite He in Hn. repeat case_decide; try done.
    by destruct (match_here s) as [[]|].
  - unfold in_first_line in Hline. simpl in Hline.
    apply not_elem_of_cons in Hline as [Hc Hline].
    rewrite (decide_False (P := c = newline)) in Hn by done.
    destruct (match_here s) as [[]|] eqn:E; [done|].
    rewrite occ_cons. by apply IH.
Qed.

(** [match_here] finds the rightmost occurrence of the first line. *)
Lemma match_here_Some (s f e : str) :
  match_here s = Some (f, e) ->
  (newline ∉ f) ∧
  (∃ r, s = f ++ "." :: r ∧ match_extension r = Some e) ∧
  (∀ k, length f < k -> in_first_line s k -> ¬ occ s k).
Proof.
  revert f e. induction s as [|c s IH]; intros f e; simpl; [done|].
  set (stop := if decide (c = ".") then _ else _).
  assert (Hstop : ∀ f' e', stop = Some (f', e') ->
            f' = [] ∧ c = "." ∧ match_extension s = Some e').
  { intros f' e'. unfold stop. case_decide; [|done].
    destruct (match_extension s) eqn:E; [|done]. by intros [= <- <-]. }
  assert (Hrest : match_here s = None ∨ c = newline ->
            ∀ k, 0 < k -> in_first_line (c :: s) k -> ¬ occ (c :: s) k).
  { intros Hn k Hk Hline. destruct k as [|k]; [lia|].
    unfold in_first_line in Hline. simpl in Hline.
    apply not_elem_of_cons in Hline as [Hc Hline].
    destruct Hn as [Hn | ->]; [|done].
    rewrite occ_cons. by apply match_here_None. }
  clearbody stop.
  case_decide as Hnl.
  - intros (-> & -> & He)%Hstop. split_and!.
    + apply not_elem_of_nil.
    + eauto.
    + intros k Hk. apply Hrest; [by right | done].
  - destruct (match_here s) as [[f0 e0]|] eqn:E.
    + intros [= <- <-]. destruct (IH _ _ eq_refl) as (Hf & (r & -> & He) & Hmax).
      split_and!.
      * by apply not_elem_of_cons.
      * exists r. done.
      * intros k Hk Hline. destruct k as [|k]; [simpl in Hk; lia|].
        rewrite occ_cons. apply Hmax; [simpl in Hk; lia|].
        unfold in_first_line in *. simpl in Hline.
        by apply not_elem_of_cons in Hline as [_ ?].
    + intros (-> & -> & He)%Hstop. split_and!.
      * apply not_elem_of_nil.
      * eauto.
      * intros k Hk. apply Hrest; [by left | done].
Qed.

Lemma match_here_Some_occ (s f e : str) :
  match_here s = Some (f, e) ->
  occ s (length f) ∧ in_first_line s (length f) ∧ e ≠ [].
Proof.
  intros (Hf & (r & -> & He) & _)%match_here_Some. split_and!.
  - exists r. by rewrite drop_app_length, He.
  - unfold in_first_line. by rewrite take_app_length.
  - by apply match_extension_shape in He as (_ & _ & ?).
Qed.

Lemma finditer_go_drop (k : nat) (s : str) :
  finditer_go k s = finditer_go 0 (drop k s).
Proof.
  revert s. induction k as [|k IH]; intros s; [by rewrite drop_0|].
  destruct s as [|c s]; simpl; [done|]. apply IH.
Qed.

Lemma finditer_unfold (s : str) :
  finditer_go 0 s =
    match match_here s with
    | Some (f, e) => (f, e) :: finditer_go 0 (drop (S (length f + length e)) s)
    | None => finditer_go 0 (drop 1 s)
    end.
Proof.
  destruct s as [|c s]; [done|].
  change (finditer_go 0 (c :: s)) with
    (match match_here (c :: s) with
     | Some (f, e) => (f, e) :: finditer_go (length f + length e) s
     | None => finditer_go 0 s
     end).
  destruct (match_here (c :: s)) as [[f e]|]; [|done].
  by rewrite finditer_go_drop.
Qed.

Lemma next_line_app (p t : str) :
  newline ∉ p -> next_line (p ++ t) = next_line t.
Proof.
  induction p as [|c p IH]; simpl; [done|].
  intros [Hc Hp]%not_elem_of_cons. rewrite decide_False by done. by apply IH.
Qed.

Lemma first_line_split (s : str) :
  match next_line s with
  | None => newline ∉ s
  | Some s2 => ∃ l, s = l ++ newline :: s2 ∧ newline ∉ l
  end.
Proof.
  induction s as [|c s IH]; simpl; [apply not_elem_of_nil|].
  case_decide as Hc.
  - subst c. exists []. split; [done | apply not_elem_of_nil].
  - destruct (next_line s) as [s2|].
    + destruct IH as (l & -> & Hl). exists (c :: l). split; [done|].
      apply not_elem_of_cons. auto.
    + apply not_elem_of_cons. auto.
Qed.

Lemma in_first_line_all (s : str) (k : nat) : newline ∉ s -> in_first_line s k.
Proof.
  intros Hs Hin. apply Hs. apply elem_of_take in Hin as (i & Hi & _).
  by eapply list_elem_of_lookup_2.
Qed.

Lemma in_first_line_iff (l s2 : str) (k : nat) :
  newline ∉ l ->
  in_first_line (l ++ newline :: s2) k <-> k <= length l.
Proof.
  intros Hl. unfold in_first_line. split.
  - intros Hk. destruct (decide (k <= length l)) as [|Hgt]; [done|].
    exfalso. apply Hk. apply elem_of_take. exists (length l). split; [|lia].
    by rewrite lookup_app_r, Nat.sub_diag.
  - intros Hk. rewrite take_app_le by done.
    intros Hin. apply Hl. apply elem_of_take in Hin as (i & Hi & _).
    by eapply list_elem_of_lookup_2.
Qed.

(** Where the first line has no occurrence, the scan reaches the next
    line without a match. *)
Lemma finditer_quiet (t : str) :
  (∀ k, in_first_line t k -> ¬ occ t k) ->
  finditer_go 0 t = from_option (finditer_go 0) [] (next_line t).
Proof.
  induction t as [|c t IH]; intros Hq; [done|].
  rewrite finditer_unfold.
  destruct (match_here (c :: t)) as [[f e]|] eqn:E.
  { apply match_here_Some_occ in E as (Hocc & Hl & _). by apply Hq in Hocc. }
  simpl. rewrite drop_0. case_decide as Hc; [done|].
  apply IH. intros k Hk. rewrite <-(occ_cons c). apply Hq.
  unfold in_first_line in *. simpl. apply not_elem_of_cons. auto.
Qed.

(** Each line contributes at most one match, found from its start. *)
Lemma finditer_line (s : str) :
  finditer_go 0 s =
    option_list (match_here s) ++ from_option (finditer_go 0) [] (next_line s).
Proof.
  rewrite finditer_unfold.
  destruct (match_here s) as [[f e]|] eqn:E; simpl.
  - f_equal.
    destruct (match_here_Some _ _ _ E) as (Hf & (r & -> & He) & Hmax).
    pose proof (match_extension_shape _ _ He) as (Hnl & _ & _).
    apply match_extension_Some in He as [_ [r' ->]%startswith_prefix].
    assert (Hdrop : ∀ j, drop (S (length f + length e) + j) (f ++ "." :: e ++ r')
                          = drop j r').
    { intros j. change (f ++ "." :: e ++ r') with (f ++ ("." :: e) ++ r').
      rewrite app_assoc. apply drop_app_add'.
      rewrite length_app. simpl. lia. }
    pose proof (Hdrop 0) as Hd0. rewrite Nat.add_0_r, drop_0 in Hd0. rewrite Hd0.
    rewrite finditer_quiet.
    + f_equal. rewrite next_line_app by done. simpl.
      by rewrite next_line_app.
    + intros j Hj (r2 & Hr2 & Hext).
      apply (Hmax (S (length f + length e) + j)); [lia| |].
      * unfold in_first_line in *.
        replace (f ++ "." :: e ++ r') with ((f ++ "." :: e) ++ r')
          by (by rewrite <-app_assoc).
        rewrite take_app_ge by (rewrite length_app; simpl; lia).
        rewrite length_app. simpl.
        replace (S (length f + length e + j) - (length f + S (length e))) with j by lia.
        rewrite !not_elem_of_app, not_elem_of_cons. done.
      * exists r2. by rewrite Hdrop.
  - destruct s as [|c s]; [done|]. simpl. rewrite drop_0.
    pose proof (match_here_None _ E) as Hq.
    case_decide as Hc; [done|].
    rewrite finditer_quiet; [done|].
    intros k Hk. rewrite <-(occ_cons c). apply Hq.
    unfold in_first_line in *. simpl. apply not_elem_of_cons. auto.
Qed.

Lemma occ_lookup (s : str) (k : nat) : occ s k -> s !! k = Some ".".
Proof.
  intros (r & Hd & _). rewrite <-(Nat.add_0_r k), <-lookup_drop. by rewrite Hd.
Qed.

Lemma occ_next_line (l s2 : str) (j : nat) :
  occ (l ++ newline :: s2) (S (length l) + j) <-> occ s2 j.
Proof.
  unfold occ. change (l ++ newline :: s2) with (l ++ [newline] ++ s2).
  rewrite app_assoc, drop_app_add'; [done|].
  rewrite length_app. simpl. lia.
Qed.

Lemma last_occ_unique (s : str) (j k : nat) : last_occ s j -> last_occ s k -> j = k.
Proof.
  intros [Hj Hjmax] [Hk Hkmax].
  destruct (Nat.lt_trichotomy j k) as [Hlt | [-> | Hlt]]; [|done|].
  - by apply Hjmax in Hlt.
  - by apply Hkmax in Hlt.
Qed.

(** The match of the first line, when no later line has an occurrence. *)
Lemma first_line_last (s : str) :
  (∀ k, ¬ in_first_line s k -> ¬ occ s k) ->
  match match_here s with
  | None => ∀ k, ¬ occ s k
  | Some (f, e) =>
      e ≠ [] ∧ last_occ s (length f) ∧
      (f = [] <-> length f = 0 ∨ s !! (length f - 1) = Some newline)
  end.
Proof.
  intros Hlater. destruct (match_here s) as [[f e]|] eqn:E.
  - destruct (match_here_Some_occ _ _ _ E) as (Hocc & Hline & He).
    destruct (match_here_Some _ _ _ E) as (Hf & (r & Hs & _) & Hmax).
    split_and!; [done | split; [done|] |].
    + intros j Hj. destruct (decide (in_first_line s j)); auto.
    + split; [intros ->; by left|].
      intros [Hz | Hnl]; [by apply nil_length_inv|].
      destruct f as [|a f]; [done|]. exfalso. apply Hf.
      apply list_elem_of_lookup_2 with (length (a :: f) - 1).
      rewrite Hs, lookup_app_l in Hnl; [done | simpl; lia].
  - intros k. destruct (decide (in_first_line s k)); [|by auto].
    by apply match_here_None.
Qed.

(** The groups bound by the loop over [re.finditer]: those of the match
    that holds the last occurrence. *)
Lemma last_match_spec (s : str) :
  match last (finditer s) with
  | None => ∀ k, ¬ occ s k
  | Some (f, e) =>
      e ≠ [] ∧
      ∃ K, last_occ s K ∧ (f = [] <-> K = 0 ∨ s !! (K - 1) = Some newline)
  end.
Proof.
  remember (length s) as n eqn:Hn. revert s Hn.
  induction n as [n IH] using lt_wf_ind. intros s ->.
  unfold finditer. rewrite finditer_line, last_app.
  pose proof (first_line_split s) as Hsplit.
  destruct (next_line s) as [s2|] eqn:Hnext; simpl.
  - destruct Hsplit as (l & -> & Hl).
    assert (Hlen : length s2 < length (l ++ newline :: s2))
      by (rewrite length_app; simpl; lia).
    specialize (IH _ Hlen s2 eq_refl). unfold finditer in IH.
    destruct (last (finditer_go 0 s2)) as [[f2 e2]|].
    + destruct IH as (He2 & K2 & [Hocc Hmax] & Hempty). split; [done|].
      exists (S (length l) + K2). split; [split|].
      * by apply occ_next_line.
      * intros j Hj. replace j with (S (length l) + (j - S (length l))) by lia.
        rewrite occ_next_line. apply Hmax. lia.
      * rewrite Hempty. replace (S (length l) + K2 - 1) with (length l + K2) by lia.
        rewrite lookup_app_r by lia.
        replace (length l + K2 - length l) with K2 by lia.
        destruct K2 as [|K2]; simpl; [split; intros _; [by right | by left]|].
        rewrite Nat.sub_0_r. split; (intros [?|?]; [lia | by right]).
    + assert (Hlater : ∀ k, ¬ in_first_line (l ++ newline :: s2) k ->
                             ¬ occ (l ++ newline :: s2) k).
      { intros k Hk. rewrite in_first_line_iff in Hk by done.
        replace k with (S (length l) + (k - S (length l))) by lia.
        rewrite occ_next_line. apply IH. }
      pose proof (first_line_last _ Hlater) as Hfirst.
      destruct (match_here (l ++ newline :: s2)) as [[f e]|]; simpl; [|done].
      destruct Hfirst as (He & Hlast & Hempty). split; [done|]. eauto.
  - assert (Hlater : ∀ k, ¬ in_first_line s k -> ¬ occ s k).
    { intros k Hk. destruct Hk. by apply in_first_line_all. }
    pose proof (first_line_last _ Hlater) as Hfirst.
    destruct (match_here s) as [[f e]|]; simpl; [|done].
    destruct Hfirst as (He & Hlast & Hempty). split; [done|]. eauto.
Qed.

Lemma fold_last_groups (l : list (str * str)) (a : option str * option str) :
  fold_left (fun _ m => (Some (fst m), Some (snd m))) l a =
    match last l with
    | Some m => (Some (fst m), Some (snd m))
    | None => a
    end.
Proof.
  revert a. induction l as [|m l IH]; intros a; simpl; [done|].
  rewrite IH, last_cons. by destruct (last l).
Qed.

(** The file name the pattern is run on. *)
Definition basename (file : str) : str := snd (OsPath.split file).

(** The classifier's criterion: the last dot of the file name that is
    directly followed by one of the ten spellings is directly preceded by
    a character other than a line break. *)
Definition image_criterion (file : str) : Prop :=
  ∃ K, last_occ (basename file) (S K) ∧ basename file !! K ≠ Some newline.

Lemma is_image_iff (file : str) :
  is_image file = true <-> image_criterion file.
Proof.
  unfold is_image, image_criterion. fold (basename file).
  rewrite fold_last_groups.
  pose proof (last_match_spec (basename file)) as Hspec.
  destruct (last (finditer (basename file))) as [[f e]|]; simpl.
  - destruct Hspec as (He & K & Hlast & Hempty).
    destruct e as [|b e]; [done|]. simpl. rewrite orb_false_r, negb_involutive.
    split.
    + intros Hf. destruct f as [|a f]; [done|].
      destruct K as [|K]; [by pose proof (proj2 Hempty (or_introl eq_refl))|].
      exists K. split; [done|]. intros Hnl.
      assert (a :: f = []) as Habs; [|done].
      apply Hempty. right. simpl. by rewrite Nat.sub_0_r.
    + intros (K' & Hlast' & Hnl).
      pose proof (last_occ_unique _ _ _ Hlast Hlast') as ->.
      destruct f as [|a f]; [|done]. exfalso.
      destruct (proj1 Hempty eq_refl) as [|Hnl']; [lia|].
      simpl in Hnl'. by rewrite Nat.sub_0_r in Hnl'.
  - split; [done|]. intros (K & [Hocc _] & _). by apply Hspec in Hocc.
Qed.

Lemma classify_loop_filter (files imgs others : list str) :
  classify_loop files imgs others =
    (imgs ++ List.filter is_image files,
     others ++ List.filter (fun f => negb (is_image f)) files).
Proof.
  revert imgs others. induction files as [|f files IH]; intros imgs others; simpl.
  - by rewrite !app_nil_r.
  - destruct (is_image f); simpl; rewrite IH, <-app_assoc; done.
Qed.

Lemma filter_partition_length {A} (p : A -> bool) (l : list A) :
  length (List.filter p l) + length (List.filter (fun x => negb (p x)) l) = length l.
Proof.
  induction l as [|x l IH]; simpl; [done|].
  destruct (p x); simpl; lia.
Qed.

(** The length assertion of [filter_files_with_regex] never fails. *)
Lemma filter_files_with_regex_returns (files : list str) :
  filter_files_with_regex files =
    Return (List.filter is_image files,
            List.filter (fun f => negb (is_image f)) files).
Proof.
  unfold filter_files_with_regex. rewrite classify_loop_filter. simpl.
  rewrite decide_True; [done|]. by rewrite filter_partition_length.
Qed.

Lemma classifier_partition_aux (files : list str) :
  (∀ f, f ∈ List.filter is_image files <-> f ∈ files ∧ image_criterion f) ∧
  (∀ f, f ∈ List.filter (fun f => negb (is_image f)) files
        <-> f ∈ files ∧ ¬ image_criterion f).
Proof.
  split; intros f.
  - rewrite !list_elem_of_In, filter_In, is_image_iff. done.
  - rewrite !list_elem_of_In, filter_In, <-is_image_iff.
    destruct (is_image f); simpl; intuition congruence.
Qed.

(** *** The criterion as the specification words it *)

(** The string after the final dot of a file name, if it has a dot. *)
Definition final_extension (name : str) : option str :=
  if PyStr.contains ["."] name then last (PyStr.split ["."] name) else None.

Definition spec_image_extensions : list str :=
  map py ["jpg"; "jpeg"; "png"; "tiff"; "tif"; "bmp"]%string.

(** "The string after the final dot of its filename, compared
    case-insensitively, is in the fixed set." *)
Definition spec_is_image (file : str) : bool :=
  match final_extension (basename file) with
  | Some e => bool_decide (PyStr.lower e ∈ spec_image_extensions)
  | None => false
  end.

End ClassifierFacts.

Module ClassifierTheorems.
Import Classifier ClassifierFacts.

(** C2: the classifier departs from the claim.  The final extensions of
    [photo.JPEG] and [scan.Jpg] are in the set when compared
    case-insensitively, yet both files are classified as others: the
    pattern spells out some upper-case and lower-case forms and misses
    these.  The final extensions of [notes.jpg.txt] and [draft.pngx] are
    not in the set, yet both files are classified as images: the pattern
    does not ask for the extension to end the name. *)
Lemma classifier_extension_counterexample :
  spec_is_image (py "photo.JPEG") = true ∧
  spec_is_image (py "scan.Jpg") = true ∧
  spec_is_image (py "notes.jpg.txt") = false ∧
  spec_is_image (py "draft.pngx") = false ∧
  filter_files_with_regex
    [py "photo.JPEG"; py "scan.Jpg"; py "notes.jpg.txt"; py "draft.pngx"] =
  Return ([py "notes.jpg.txt"; py "draft.pngx"], [py "photo.JPEG"; py "scan.Jpg"]).
Proof. by vm_compute. Qed.

(** What the classifier does, in full: for every input list it returns
    [(images, others)], both in input order, with
    [len(images) + len(others) == len(input)]; a path is placed in images
    exactly when, in its file name, the last dot that is directly followed
    by one of the ten literal spellings JPG, jpg, jpeg, PNG, png, tiff, tif,
    TIF, BMP, bmp is directly preceded by a character other than a line
    break, and in others otherwise; a file name without a dot goes to
    others. *)
Theorem classifier_partition (files : list str) :
  ∃ imgs others,
    filter_files_with_regex files = Return (imgs, others) ∧
    length imgs + length others = length files ∧
    imgs = List.filter is_image files ∧
    others = List.filter (fun f => negb (is_image f)) files ∧
    (∀ f, f ∈ imgs <-> f ∈ files ∧ image_criterion f) ∧
    (∀ f, f ∈ others <-> f ∈ files ∧ ¬ image_criterion f) ∧
    (∀ f, f ∈ files -> "." ∉ basename f -> f ∈ others).
Proof.
  eexists _, _. split; [apply filter_files_with_regex_returns|].
  destruct (classifier_partition_aux files) as (Himg & Hoth).
  split_and!; try done.
  - apply filter_partition_length.
  - intros f Hf Hdot. apply Hoth. split; [done|].
    intros (K & [Hocc%occ_lookup _] & _). apply Hdot.
    by eapply list_elem_of_lookup_2.
Qed.

(** C10: a file whose name is a dot followed by a dot-free extension (a
    dotfile such as [.jpg]) is classified as other, whatever the
    extension. *)
Theorem dotfile_is_other (files : list str) (f e : str) :
  f ∈ files ->
  basename f = "." :: e ->
  "." ∉ e ->
  ∃ imgs others,
    filter_files_with_regex files = Return (imgs, others) ∧
    f ∈ others ∧ f ∉ imgs.
Proof.
  intros Hf Hname Hdot.
  destruct (classifier_partition_aux files) as (Himg & Hoth).
  eexists _, _. split; [apply filter_files_with_regex_returns|].
  assert (Hno : ¬ image_criterion f).
  { intros (K & [Hocc%occ_lookup _] & _). rewrite Hname in Hocc. simpl in Hocc.
    apply Hdot. by eapply list_elem_of_lookup_2. }
  split; [by apply Hoth | by intros [_ ?]%Himg].
Qed.

Lemma dotfile_is_other_witness :
  ∃ imgs others,
    filter_files_with_regex [py "dcim/.jpg"] = Return (imgs, others) ∧
    py "dcim/.jpg" ∈ others ∧ py "dcim/.jpg" ∉ imgs.
Proof.
  apply (dotfile_is_other [py "dcim/.jpg"] (py "dcim/.jpg") (py "jpg")).
  - by left.
  - reflexivity.
  - apply (bool_decide_unpack _). by vm_compute.
Defined.

End ClassifierTheorems.

(** ** The filesystem and the metadata collaborator *)

(** A value of the EXIF mapping returned by [image._getexif()]: text, bytes
    (with the outcome of [bytes.decode()], [None] when the bytes are not
    valid UTF-8) or anything else. *)
Inductive ExifValue :=
  | ExifStr (s : str)
  | ExifBytes (decoded : option str)
  | ExifOther.

(** What [Image.open] yields for a file it can read: the EXIF mapping by tag
    id ([None] when the image carries none) and the detected format. *)
Record Picture := {
  exif : option (list (N * ExifValue));
  format : str;
}.

(** Paths are the strings the program builds; two spellings of one path are
    two keys. *)
Record World := {
  files : gmap str Z;            (* regular files and their sizes in bytes *)
  dirs : gset str;               (* directories *)
  dir_size : Z;                  (* the size [stat] reports for a directory *)
  pictures : gmap str Picture;   (* the files [Image.open] can read *)
  locked : gset str;             (* files that cannot be moved or removed *)
  sticky : gset str;             (* files still listed after [os.remove] returned *)
}.

Definition set_files (w : World) (f : gmap str Z) : World :=
  {| files := f; dirs := dirs w; dir_size := dir_size w;
     pictures := pictures w; locked := locked w; sticky := sticky w |}.

Definition set_dirs (w : World) (d : gset str) : World :=
  {| files := files w; dirs := d; dir_size := dir_size w;
     pictures := pictures w; locked := locked w; sticky := sticky w |}.

Definition set_pictures (w : World) (p : gmap str Picture) : World :=
  {| files := files w; dirs := dirs w; dir_size := dir_size w;
     pictures := p; locked := locked w; sticky := sticky w |}.

Module Os.

(** [os.path.isfile(p)] *)
Definition path_isfile (w : World) (p : str) : bool :=
  bool_decide (is_Some (files w !! p)).

(** [os.path.isdir(p)] *)
Definition path_isdir (w : World) (p : str) : bool :=
  bool_decide (p ∈ dirs w).

(** [os.path.exists(p)] *)
Definition path_exists (w : World) (p : str) : bool :=
  path_isfile w p || path_isdir w p.

(** [os.path.getsize(p)] *)
Definition path_getsize (w : World) (p : str) : Result Z :=
  match files w !! p with
  | Some size => Return size
  | None => if path_isdir w p then Return (dir_size w) else Raise FileNotFoundError
  end.

(** The parent directories of [p]: its prefixes that are followed by a
    separator, are not empty and do not end in a separator themselves. *)
Fixpoint ancestors_go (pre p : str) : list str :=
  match p with
  | [] => []
  | c :: p' =>
      (if bool_decide (c = OsPath.sep) && bool_decide (pre ≠ [])
          && negb (PyStr.endswith [OsPath.sep] pre)
       then [pre] else [])
      ++ ancestors_go (pre ++ [c]) p'
  end.

Definition ancestors (p : str) : list str := ancestors_go [] p.

(** [os.makedirs(p)]: the leaf directory and every missing parent are
    created; the call fails for the empty path, when the leaf exists or
    when a parent is a regular file. *)
Definition makedirs (w : World) (p : str) : Result World :=
  if bool_decide (p = []) then Raise FileNotFoundError
  else if path_exists w p then Raise FileExistsError
  else if existsb (path_isfile w) (ancestors p) then Raise NotADirectoryError
  else Return (set_dirs w (dirs w ∪ {[p]} ∪ list_to_set (ancestors p))).

(** [os.remove(p)] *)
Definition remove (w : World) (p : str) : Result World :=
  if bool_decide (p ∈ locked w) then Raise PermissionError
  else if negb (path_isfile w p) then Raise FileNotFoundError
  else if bool_decide (p ∈ sticky w) then Return w
  else Return (set_files w (delete p (files w))).

End Os.

(** ** DestinationResolver: [create_dst_path_for_file] *)

Module Resolver.

(** [f"{filename}.{extension.lower()}"] *)
Definition plain_name (filename extension : str) : str :=
  filename ++ py "." ++ PyStr.lower extension.

(** [f"{filename}_Kopie({index}).{extension.lower()}"] *)
Definition kopie_name (filename extension : str) (index : nat) : str :=
  filename ++ py "_Kopie(" ++ PyStr.of_nat index ++ py ")." ++ PyStr.lower extension.

(** The [while good_to_go == False] loop; [index] is the value of the
    variable on entry to an iteration. *)
Fixpoint kopie_loop (fuel : nat) (w : World) (base_path filename extension : str)
    (index : nat) : Result str :=
  match fuel with
  | O => OutOfFuel
  | S fuel' =>
      let index := index + 1 in
      let created_filename := kopie_name filename extension index in
      let dst_path := OsPath.join base_path created_filename in
      if negb (Os.path_exists w dst_path) then Return dst_path
      else kopie_loop fuel' w base_path filename extension index
  end.

(** The first two lines: create [base_path] if it does not exist. *)
Definition ensure_base (w : World) (base_path : str) : Result World :=
  if negb (Os.path_exists w base_path) then Os.makedirs w base_path else Return w.

Definition create_dst_path_for_file (fuel : nat) (w : World)
    (base_path filename extension : str) : Result (World * str) :=
  w1 ← ensure_base w base_path;
  let created_filename := plain_name filename extension in
  let dst_path := OsPath.join base_path created_filename in
  if Os.path_exists w1 dst_path then
    dst_path ← kopie_loop fuel w1 base_path filename extension 0;
    Return (w1, dst_path)
  else Return (w1, dst_path).

End Resolver.

Module ResolverFacts.
Import Resolver.










(** More fuel does not change a result. *)
Lemma kopie_loop_fuel_mono (w : World) (base_path filename extension : str)
    (fuel fuel' index : nat) (p : str) :
  fuel <= fuel' ->
  kopie_loop fuel w base_path filename extension index = Return p ->
  kopie_loop fuel' w base_path filename extension index = Return p.
Proof.
  revert fuel' index. induction fuel as [|fuel IH]; intros fuel' index Hle; [done|].
  destruct fuel' as [|fuel']; [lia|]. simpl.
  destruct (negb _); [done|]. apply IH. lia.
Qed.

End ResolverFacts.

Module ResolverTheorems.
Import Resolver ResolverFacts.

(** [os.makedirs] can create [base_path]: none of its parents is a
    regular file. *)
Definition creatable (w : World) (base_path : str) : Prop :=
  existsb (Os.path_isfile w) (Os.ancestors base_path) = false.

Lemma ensure_base_returns (w : World) (base_path : str) :
  Os.path_exists w base_path = true ∨ (base_path ≠ [] ∧ creatable w base_path) ->
  ∃ w1, ensure_base w base_path = Return w1 ∧
        files w1 = files w ∧
        dirs w1 = (if Os.path_exists w base_path then dirs w
                   else dirs w ∪ {[base_path]} ∪ list_to_set (Os.ancestors base_path)) ∧
        Os.path_exists w1 base_path = true.
Proof.
  intros Hc. unfold ensure_base. destruct (Os.path_exists w base_path) eqn:E; simpl.
  - exists w. by rewrite E.
  - destruct Hc as [|[Hne Hc]]; [done|]. unfold Os.makedirs.
    rewrite bool_decide_eq_false_2, E, Hc by done.
    eexists. split; [done|]. simpl. split_and!; [done|done|].
    unfold Os.path_exists, Os.path_isdir. simpl.
    rewrite orb_true_iff, !bool_decide_eq_true. right. set_solver.
Qed.



(** Two earlier copies are present: the third file gets index 3. *)
Definition collision_world : World :=
  {| files := list_to_map [(py "out/a.jpg", 10%Z); (py "out/a_Kopie(1).jpg", 10%Z);
                           (py "out/a_Kopie(2).jpg", 11%Z)];
     dirs := {[py "out"]}; dir_size := 4096;
     pictures := ∅; locked := ∅; sticky := ∅ |}.

(** Nothing is there but [out]: the month directory is created with its
    parent. *)
Definition fresh_world : World :=
  {| files := list_to_map [(py "src/a.jpg", 10%Z)];
     dirs := {[py "src"; py "out"]}; dir_size := 4096;
     pictures := ∅; locked := ∅; sticky := ∅ |}.



Example resolver_third_copy :
  ∃ w1, create_dst_path_for_file 5 collision_world (py "out") (py "a") (py "JPG")
          = Return (w1, py "out/a_Kopie(3).jpg") ∧ True.
Proof. apply (returns_checked _ _ (fun _ => True)). vm_compute. reflexivity. Qed.

(** The month directory and the year directory above it are created. *)
Example resolver_creates_base :
  ∃ w1, create_dst_path_for_file 5 fresh_world (py "out/2021/2021_05") (py "a") (py "JPG")
          = Return (w1, py "out/2021/2021_05/a.jpg") ∧
        dirs w1 = {[py "src"; py "out"; py "out/2021"; py "out/2021/2021_05"]}.
Proof. apply (returns_checked _ _ _). vm_compute. reflexivity. Qed.

(** The empty base path cannot be created: the call fails. *)
Example resolver_empty_base :
  create_dst_path_for_file 5 fresh_world [] (py "a") (py "JPG") = Raise FileNotFoundError.
Proof. vm_compute. reflexivity. Qed.

End ResolverTheorems.

(** ** datetime: [strptime] and [strftime] for the EXIF timestamp *)

Module Datetime.

Record datetime := {
  year : nat; month : nat; day : nat;
  hour : nat; minute : nat; second : nat;
}.

(** One character matched by [[lo-hi]]. *)
Definition digit_in (lo hi : nat) (s : str) : option (nat * str) :=
  match s with
  | c :: r =>
      match Ascii.is_nat c with
      | Some d => if bool_decide (lo <= d <= hi) then Some (d, r) else None
      | None => None
      end
  | [] => None
  end.

(** Two characters matched by [[lo1-hi1][lo2-hi2]]. *)
Definition digits2 (lo1 hi1 lo2 hi2 : nat) (s : str) : option (nat * str) :=
  '(a, s1) ← digit_in lo1 hi1 s;
  '(b, s2) ← digit_in lo2 hi2 s1;
  Some (10 * a + b, s2).

(** A literal character of the format. *)
Definition literal (c : ascii) (s : str) : option str :=
  match s with
  | c' :: r => if decide (c = c') then Some r else None
  | [] => None
  end.

(** An alternation: the first alternative that matches. *)
Fixpoint first_of (alts : list (str -> option (nat * str))) (s : str) : option (nat * str) :=
  match alts with
  | [] => None
  | alt :: rest =>
      match alt s with
      | Some r => Some r
      | None => first_of rest s
      end
  end.

(** The directive patterns of [_strptime], alternatives in source order. *)
Definition re_Y (s : str) : option (nat * str) :=
  '(a, s1) ← digit_in 0 9 s;
  '(b, s2) ← digit_in 0 9 s1;
  '(c, s3) ← digit_in 0 9 s2;
  '(d, s4) ← digit_in 0 9 s3;
  Some (1000 * a + 100 * b + 10 * c + d, s4).

Definition re_m : str -> option (nat * str) :=
  first_of [digits2 1 1 0 2; digits2 0 0 1 9; digit_in 1 9].

Definition re_d : str -> option (nat * str) :=
  first_of [digits2 3 3 0 1; digits2 1 2 0 9; digits2 0 0 1 9; digit_in 1 9;
            fun s => s1 ← literal " " s; digit_in 1 9 s1].

Definition re_H : str -> option (nat * str) :=
  first_of [digits2 2 2 0 3; digits2 0 1 0 9; digit_in 0 9].

Definition re_M : str -> option (nat * str) :=
  first_of [digits2 0 5 0 9; digit_in 0 9].

Definition re_S : str -> option (nat * str) :=
  first_of [digits2 6 6 0 1; digits2 0 5 0 9; digit_in 0 9].

(** White space as the regular expression class sees it on code points
    below 256. *)
Definition is_space (c : ascii) : bool :=
  let n := N_of_ascii c in
  ((9 <=? n) && (n <=? 13) || (28 <=? n) && (n <=? 32) || (n =? 133) || (n =? 160))%N.

Fixpoint skip_spaces (s : str) : str :=
  match s with
  | c :: r => if is_space c then skip_spaces r else s
  | [] => []
  end.

(** A blank of the format: one or more white space characters. *)
Definition spaces (s : str) : option str :=
  match s with
  | c :: r => if is_space c then Some (skip_spaces r) else None
  | [] => None
  end.

Definition is_leap (y : nat) : bool :=
  ((y mod 4 =? 0) && (negb (y mod 100 =? 0) || (y mod 400 =? 0)))%nat.

Definition days_in_month (y m : nat) : nat :=
  match m with
  | 2 => if is_leap y then 29 else 28
  | 4 | 6 | 9 | 11 => 30
  | _ => 31
  end.

(** [datetime.strptime(s, "%Y:%m:%d %H:%M:%S")]; [None] stands for the
    [ValueError]. *)
Definition strptime (s : str) : option datetime :=
  '(year, s) ← re_Y s; s ← literal ":" s;
  '(month, s) ← re_m s; s ← literal ":" s;
  '(day, s) ← re_d s; s ← spaces s;
  '(hour, s) ← re_H s; s ← literal ":" s;
  '(minute, s) ← re_M s; s ← literal ":" s;
  '(second, s) ← re_S s;
  if bool_decide (s = []) && bool_decide (1 <= year) &&
     bool_decide (day <= days_in_month year month) && bool_decide (second <= 59)
  then Some {| year := year; month := month; day := day;
               hour := hour; minute := minute; second := second |}
  else None.

(** A number rendered with at least [width] digits, zero-padded. *)
Definition padded (width n : nat) : str :=
  let digits := PyStr.of_nat n in
  replicate (width - length digits) "0" ++ digits.

(** [strftime("%Y")], [strftime("%Y_%m")], [strftime("%Y%m%d")] and
    [strftime("%H%M%S")].  The directives go to the C library, which writes
    the year as a plain decimal number, 999 for the year 999, and the other
    fields with two digits. *)
Definition strftime_Y (t : datetime) : str := PyStr.of_nat (year t).
Definition strftime_Y_m (t : datetime) : str :=
  PyStr.of_nat (year t) ++ py "_" ++ padded 2 (month t).
Definition strftime_Ymd (t : datetime) : str :=
  PyStr.of_nat (year t) ++ padded 2 (month t) ++ padded 2 (day t).
Definition strftime_HMS (t : datetime) : str :=
  padded 2 (hour t) ++ padded 2 (minute t) ++ padded 2 (second t).

End Datetime.

(** ** Mover and OrganizerPipeline *)

(** The configuration dictionary; every value is kept as [str(value)]
    renders it. *)
Record Config := {
  source_path : str;
  destination_path : str;
  include_year_in_destination_folder_level : str;
  delete_empty_source : str;
  delete_copy_pictures : str;
}.

Module Organizer.

(** [str(value).lower() in ["true"]] *)
Definition flag (value : str) : bool := bool_decide (PyStr.lower value = py "true").

(** [shutil.move(src, dst)] of a regular file, as the callers use it. *)
Definition shutil_move (w : World) (src dst : str) : Result World :=
  match files w !! src with
  | None => Raise FileNotFoundError
  | Some size =>
      if bool_decide (src ∈ locked w) then Raise PermissionError
      else
        let real_dst :=
          if Os.path_isdir w dst then OsPath.join dst (snd (OsPath.split src)) else dst in
        if Os.path_isdir w dst && Os.path_exists w real_dst then Raise OSError
        else
          let parent := fst (OsPath.split real_dst) in
          if bool_decide (parent ≠ []) && negb (Os.path_isdir w parent)
          then Raise FileNotFoundError
          else
            Return (set_pictures
                      (set_files w (<[real_dst := size]> (delete src (files w))))
                      (match pictures w !! src with
                       | Some pic => <[real_dst := pic]> (delete src (pictures w))
                       | None => delete real_dst (pictures w)
                       end))
  end.

(** The id that [PIL.ExifTags.TAGS] names ["DateTime"]. *)
Definition DateTime_tag : N := 306.

(** The loop that fills [exif_dict], keyed by tag; the entry is the text
    stored under the tag, [None] for a value that is no text.  The whole
    result is [None] when a [bytes.decode()] raises. *)
Fixpoint fill_exif_dict (exifdata : list (N * ExifValue))
    (exif_dict : gmap N (option str)) : option (gmap N (option str)) :=
  match exifdata with
  | [] => Some exif_dict
  | (tag_id, data) :: rest =>
      match data with
      | ExifStr s => fill_exif_dict rest (<[tag_id := Some s]> exif_dict)
      | ExifBytes (Some s) => fill_exif_dict rest (<[tag_id := Some s]> exif_dict)
      | ExifBytes None => None
      | ExifOther => fill_exif_dict rest (<[tag_id := None]> exif_dict)
      end
  end.

(** What the [try] block binds when it runs to its end. *)
Record ExifNames := {
  year_str : str;
  year_month_str : str;
  exif_filename : str;
  exif_extension : str;
}.

(** The [try] block of the image loop on an opened image; [None] when any
    of its statements raises. *)
Definition read_exif (image : Picture) : option ExifNames :=
  exifdata ← exif image;
  exif_dict ← fill_exif_dict exifdata ∅;
  value ← exif_dict !! DateTime_tag;
  text ← value;
  image_time ← Datetime.strptime text;
  Some {| year_str := Datetime.strftime_Y image_time;
          year_month_str := Datetime.strftime_Y_m image_time;
          exif_filename :=
            py "IMG_" ++ Datetime.strftime_Ymd image_time ++ py "_"
              ++ Datetime.strftime_HMS image_time;
          exif_extension := PyStr.lower (format image) |}.

(** The variables the image loop carries from one file to the next. *)
Record ImageLoop := {
  world : World;
  image_bound : bool;            (* the local [image] has been assigned *)
  success_list : list str;
  copy_list : list str;
  problem_list : list str;
}.

(** The statements from [try] to the computation of [base_path]: the
    directory, stem and extension handed to the resolver, and whether
    [image] is bound afterwards. *)
Definition image_target (output_folder : str) (include_year : bool)
    (w : World) (bound : bool) (image_path : str) : Result (str * str * str * bool) :=
  let opened := pictures w !! image_path in
  let bound := bound || bool_decide (is_Some opened) in
  match opened ≫= read_exif with
  | Some names =>
      let base_path :=
        if include_year
        then OsPath.join3 output_folder (year_str names) (year_month_str names)
        else OsPath.join output_folder (year_month_str names) in
      Return (base_path, exif_filename names, exif_extension names, bound)
  | None =>
      (* the bare [except]: starts with [image.close()] *)
      if negb bound then Raise UnboundLocalError
      else
        let filename_full := snd (OsPath.split image_path) in
        filename ← PyStr.index (PyStr.split (py ".") filename_full) 0;
        extension ← PyStr.index (PyStr.split (py ".") filename_full) 1;
        Return (OsPath.join output_folder (py "No_exif_data"), filename, extension, bound)
  end.

(** One iteration of the image loop. *)
Definition image_step (fuel : nat) (output_folder : str) (include_year : bool)
    (st : ImageLoop) (image_path : str) : Result ImageLoop :=
  '(base_path, filename, extension, bound) ←
    image_target output_folder include_year (world st) (image_bound st) image_path;
  '(w1, dst_path) ←
    Resolver.create_dst_path_for_file fuel (world st) base_path filename extension;
  match shutil_move w1 image_path dst_path with
  | Return w2 =>
      Return {| world := w2; image_bound := bound;
                success_list := success_list st ++ [dst_path];
                copy_list := if PyStr.contains (py "Kopie") dst_path
                             then copy_list st ++ [dst_path] else copy_list st;
                problem_list := problem_list st |}
  | Raise _ =>
      Return {| world := w1; image_bound := bound;
                success_list := success_list st;
                copy_list := copy_list st;
                problem_list := problem_list st ++ [image_path] |}
  | OutOfFuel => OutOfFuel
  end.

Definition extract_exif_from_image_and_move_to_dest_folder (fuel : nat)
    (w : World) (imgs : list str) (config : Config)
    : Result (World * list str * list str * list str) :=
  let output_folder := destination_path config in
  let include_year := flag (include_year_in_destination_folder_level config) in
  st ← for_each (image_step fuel output_folder include_year)
         {| world := w; image_bound := false;
            success_list := []; copy_list := []; problem_list := [] |} imgs;
  if decide (length imgs = length (success_list st) + length (problem_list st))
  then Return (world st, success_list st, copy_list st, problem_list st)
  else Raise AssertionError.

(** The variables of the loop of [move_other_files]. *)
Record OtherLoop := {
  o_world : World;
  success_files : list str;
  problem_files : list str;
}.

(** The statements before the resolver call: directory, stem, extension. *)
Definition other_target (config : Config) (file : str) : Result (str * str * str) :=
  let filename_full := snd (OsPath.split file) in
  filename ← PyStr.index (PyStr.split (py ".") filename_full) 0;
  extension ← PyStr.index (PyStr.split (py ".") filename_full) 1;
  Return (OsPath.join3 (destination_path config) (py "Other Files")
            (extension ++ py "_Files"),
          filename, extension).

Definition other_step (fuel : nat) (config : Config) (st : OtherLoop) (file : str)
    : Result OtherLoop :=
  '(base_path, filename, extension) ← other_target config file;
  w0 ← Resolver.ensure_base (o_world st) base_path;
  '(w1, dst_path) ← Resolver.create_dst_path_for_file fuel w0 base_path filename extension;
  match shutil_move w1 file dst_path with
  | Return w2 =>
      Return {| o_world := w2; success_files := success_files st ++ [file];
                problem_files := problem_files st |}
  | Raise _ =>
      Return {| o_world := w1; success_files := success_files st;
                problem_files := problem_files st ++ [file] |}
  | OutOfFuel => OutOfFuel
  end.

Definition move_other_files (fuel : nat) (w : World) (files : list str) (config : Config)
    : Result (World * list str * list str) :=
  st ← for_each (other_step fuel config)
         {| o_world := w; success_files := []; problem_files := [] |} files;
  Return (o_world st, success_files st, problem_files st).

End Organizer.

Module OrganizerFacts.
Import Organizer.

Lemma split_go_nonempty (sep : str) (k : nat) (s : str) : PyStr.split_go sep k s ≠ [].
Proof.
  revert k. induction s as [|c s IH]; intros k; simpl; [done|].
  destruct k as [|k]; [|apply IH].
  destruct (PyStr.startswith sep (c :: s)); [done|].
  by destruct (PyStr.split_go sep 0 s).
Qed.

Lemma split_char_cons (c a : ascii) (s : str) :
  PyStr.split [c] (a :: s) =
    if decide (c = a) then [] :: PyStr.split [c] s
    else match PyStr.split [c] s with
         | piece :: rest => (a :: piece) :: rest
         | [] => [[a]]
         end.
Proof. unfold PyStr.split. simpl. by case_decide. Qed.

(** A string without the separator is one piece. *)
Lemma split_char_notin (c : ascii) (p : str) : c ∉ p -> PyStr.split [c] p = [p].
Proof.
  induction p as [|a p IH]; [done|].
  intros [Hca Hp]%not_elem_of_cons. rewrite split_char_cons, decide_False by done.
  by rewrite IH.
Qed.

(** The first piece ends at the first separator. *)
Lemma split_char_app (c : ascii) (p r : str) :
  c ∉ p -> PyStr.split [c] (p ++ c :: r) = p :: PyStr.split [c] r.
Proof.
  induction p as [|a p IH]; simpl.
  - intros _. by rewrite split_char_cons, decide_True.
  - intros [Hca Hp]%not_elem_of_cons. rewrite split_char_cons, decide_False by done.
    by rewrite IH.
Qed.

(** The first two pieces of a name [stem.ext] or [stem.ext.more]. *)
Lemma split_dot_two (stem ext tail : str) :
  "." ∉ stem -> "." ∉ ext -> tail = [] ∨ (∃ t, tail = "." :: t) ->
  ∃ rest, PyStr.split (py ".") (stem ++ "." :: ext ++ tail) = stem :: ext :: rest.
Proof.
  intros Hstem Hext Htail. change (py ".") with ["."].
  rewrite split_char_app by done.
  destruct Htail as [-> | [t ->]].
  - rewrite app_nil_r, split_char_notin by done. by exists [].
  - rewrite split_char_app by done. eauto.
Qed.

Lemma ascii_lower_idemp (c : ascii) :
  PyStr.ascii_lower (PyStr.ascii_lower c) = PyStr.ascii_lower c.
Proof. by destruct c as [[] [] [] [] [] [] [] []]. Qed.

Lemma lower_idemp (s : str) : PyStr.lower (PyStr.lower s) = PyStr.lower s.
Proof.
  unfold PyStr.lower. rewrite map_map. apply map_ext. intros c. apply ascii_lower_idemp.
Qed.

(** Without a collision the resolver returns the plain path. *)
Lemma create_dst_plain (fuel : nat) (w w1 : World) (base_path filename extension : str) :
  Resolver.ensure_base w base_path = Return w1 ->
  Os.path_exists w1 (OsPath.join base_path (Resolver.plain_name filename extension)) = false ->
  Resolver.create_dst_path_for_file fuel w base_path filename extension
    = Return (w1, OsPath.join base_path (Resolver.plain_name filename extension)).
Proof.
  intros Hbase Hfree. unfold Resolver.create_dst_path_for_file.
  rewrite Hbase. simpl. by rewrite Hfree.
Qed.

End OrganizerFacts.

Module OrganizerTheorems.
Import Organizer OrganizerFacts.

Definition sample_config : Config :=
  {| source_path := py "src"; destination_path := py "out";
     include_year_in_destination_folder_level := py "True";
     delete_empty_source := py "True"; delete_copy_pictures := py "True" |}.

(** [photo.jpg] is a JPEG whose EXIF DateTime is 2021:05:03 10:15:00;
    [scan.jpg] cannot be opened as an image; [archive.tar.gz] and [README]
    are no images. *)
Definition photo : Picture :=
  {| exif := Some [(271%N, ExifStr (py "Canon")); (306%N, ExifStr (py "2021:05:03 10:15:00"))];
     format := py "JPEG" |}.

Definition source_world : World :=
  {| files := list_to_map [(py "src/photo.jpg", 10%Z); (py "src/scan.jpg", 7%Z);
                           (py "src/archive.tar.gz", 5%Z); (py "src/README", 1%Z)];
     dirs := {[py "src"]}; dir_size := 4096;
     pictures := {[py "src/photo.jpg" := photo]};
     locked := ∅; sticky := ∅ |}.

(** *** Per-file failures (C3) *)

(** C3 fails on the code: when the first image of the batch cannot be
    opened, the [except] block calls [image.close()] on a variable that was
    never assigned; the [UnboundLocalError] leaves the loop and the
    function, and no list is returned. *)
Theorem unreadable_first_image_aborts (fuel : nat) (w : World) (config : Config)
    (image_path : str) (rest : list str) :
  pictures w !! image_path = None ->
  extract_exif_from_image_and_move_to_dest_folder fuel w (image_path :: rest) config
    = Raise UnboundLocalError.
Proof.
  intros Hopen. unfold extract_exif_from_image_and_move_to_dest_folder. simpl.
  unfold image_step, image_target. simpl. rewrite Hopen. done.
Qed.

Lemma unreadable_first_image_aborts_witness :
  extract_exif_from_image_and_move_to_dest_folder 1 source_world
    [py "src/scan.jpg"; py "src/photo.jpg"] sample_config
    = Raise UnboundLocalError.
Proof.
  apply (unreadable_first_image_aborts 1 source_world sample_config (py "src/scan.jpg")).
  reflexivity.
Defined.

(** The same unreadable file behind a readable one is caught and handled. *)
Example unreadable_later_image_is_caught :
  ∃ w', extract_exif_from_image_and_move_to_dest_folder 1 source_world
          [py "src/photo.jpg"; py "src/scan.jpg"] sample_config
        = Return (w', [py "out/2021/2021_05/IMG_20210503_101500.jpeg";
                       py "out/No_exif_data/scan.jpg"], [], []) ∧ True.
Proof. apply (returns_checked4 _ _ _ _ (fun _ => True)). vm_compute. reflexivity. Qed.

(** A file without a dot stops [move_other_files] with an [IndexError]. *)
Example other_file_without_dot_aborts :
  move_other_files 1 source_world [py "src/README"; py "src/archive.tar.gz"] sample_config
    = Raise IndexError.
Proof. by vm_compute. Qed.

(** *** Images with a capture date (C6) *)

(** C6, as stated, fails: [photo.jpg] is a JPEG, the detected format is
    [JPEG], and the file lands at [IMG_20210503_101500.jpeg]; nothing is
    created at [IMG_20210503_101500.jpg]. *)
Lemma exif_extension_counterexample :
  ∃ w',
    extract_exif_from_image_and_move_to_dest_folder 1 source_world
      [py "src/photo.jpg"] sample_config
    = Return (w', [py "out/2021/2021_05/IMG_20210503_101500.jpeg"], [], []) ∧
    files w' !! py "out/2021/2021_05/IMG_20210503_101500.jpeg" = Some 10%Z ∧
    files w' !! py "out/2021/2021_05/IMG_20210503_101500.jpg" = None.
Proof.
  apply (returns_checked4 _ _ _ _
           (fun w' => files w' !! py "out/2021/2021_05/IMG_20210503_101500.jpeg" = Some 10%Z ∧
                      files w' !! py "out/2021/2021_05/IMG_20210503_101500.jpg" = None)).
  vm_compute. reflexivity.
Qed.

(** A readable timestamp does not help when another tag holds bytes that
    are not valid UTF-8: the file goes to [No_exif_data] under its own
    name. *)
Example undecodable_tag_drops_date :
  let raw := {| exif := Some [(306%N, ExifStr (py "2021:05:03 10:15:00"));
                              (37500%N, ExifBytes None)];
                format := py "JPEG" |} in
  let w := set_pictures source_world {[py "src/photo.jpg" := raw]} in
  ∃ w', extract_exif_from_image_and_move_to_dest_folder 1 w [py "src/photo.jpg"] sample_config
        = Return (w', [py "out/No_exif_data/photo.jpg"], [], []) ∧ True.
Proof. cbv zeta. apply (returns_checked4 _ _ _ _ (fun _ => True)). vm_compute. reflexivity. Qed.

(** The directory and the path an image with a capture date is moved to. *)
Definition exif_base (output_folder : str) (t : Datetime.datetime) : str :=
  OsPath.join3 output_folder (Datetime.strftime_Y t) (Datetime.strftime_Y_m t).

Definition exif_dst (output_folder : str) (t : Datetime.datetime) (image : Picture) : str :=
  OsPath.join (exif_base output_folder t)
    ((py "IMG_" ++ Datetime.strftime_Ymd t ++ py "_" ++ Datetime.strftime_HMS t)
     ++ py "." ++ PyStr.lower (format image)).

(** The image's metadata is read to the end: the EXIF mapping is present,
    every bytes value decodes, and the DateTime entry is a text that
    [strptime] parses to [t]. *)
Definition capture_time (image : Picture) (t : Datetime.datetime) : Prop :=
  ∃ exifdata exif_dict text,
    exif image = Some exifdata ∧
    fill_exif_dict exifdata ∅ = Some exif_dict ∧
    exif_dict !! DateTime_tag = Some (Some text) ∧
    Datetime.strptime text = Some t.

(** C6 (amended): for every image that opens, whose metadata is read to the
    end and whose DateTime parses, with [include_year] true the directory
    [destination/{year}/{year_month}] is created if needed and, absent a
    collision, [shutil.move] is called with the destination
    [destination/{year}/{year_month}/IMG_YYYYMMDD_HHMMSS.<format>], the
    extension being the detected format lower-cased (so [jpeg] for a JPEG);
    on success that path is appended to the success list, on failure the
    source path to the problem list. *)
Theorem exif_image_destination (fuel : nat) (output_folder : str) (st : ImageLoop)
    (image_path : str) (image : Picture) (t : Datetime.datetime) :
  pictures (world st) !! image_path = Some image ->
  capture_time image t ->
  Os.path_exists (world st) (exif_base output_folder t) = true
    ∨ ResolverTheorems.creatable (world st) (exif_base output_folder t) ->
  ∃ w1,
    Resolver.ensure_base (world st) (exif_base output_folder t) = Return w1 ∧
    (Os.path_exists w1 (exif_dst output_folder t image) = false ->
     image_step fuel output_folder true st image_path =
       match shutil_move w1 image_path (exif_dst output_folder t image) with
       | Return w2 =>
           Return {| world := w2; image_bound := true;
                     success_list := success_list st ++ [exif_dst output_folder t image];
                     copy_list :=
                       if PyStr.contains (py "Kopie") (exif_dst output_folder t image)
                       then copy_list st ++ [exif_dst output_folder t image]
                       else copy_list st;
                     problem_list := problem_list st |}
       | Raise _ =>
           Return {| world := w1; image_bound := true;
                     success_list := success_list st;
                     copy_list := copy_list st;
                     problem_list := problem_list st ++ [image_path] |}
       | OutOfFuel => OutOfFuel
       end).
Proof.
  intros Hopen (exifdata & exif_dict & text & Hexif & Hdict & Htag & Htime) Hbase.
  assert (exif_base output_folder t ≠ []) as Hne.
  { unfold exif_base, OsPath.join3, Datetime.strftime_Y_m.
    generalize (OsPath.join output_folder (Datetime.strftime_Y t)). intros a.
    destruct (PyStr.of_nat (Datetime.year t)) as [|c r]; unfold OsPath.join; simpl;
      repeat case_match; try done; by destruct a. }
  destruct (ResolverTheorems.ensure_base_returns (world st) (exif_base output_folder t))
    as (w1 & Hw1 & _); [destruct Hbase; auto|].
  exists w1. split; [done|]. intros Hfree.
  unfold image_step, image_target. rewrite Hopen. simpl.
  unfold read_exif. rewrite Hexif. simpl. rewrite Hdict. simpl.
  rewrite Htag. simpl. rewrite Htime. simpl.
  fold (exif_base output_folder t).
  unfold exif_dst, Resolver.plain_name in *.
  rewrite <-(lower_idemp (format image)) in Hfree.
  rewrite (create_dst_plain _ _ w1) by done.
  unfold Resolver.plain_name. rewrite lower_idemp, orb_true_r. simpl.
  by destruct (shutil_move _ _ _).
Qed.

Definition photo_time : Datetime.datetime :=
  {| Datetime.year := 2021; Datetime.month := 5; Datetime.day := 3;
     Datetime.hour := 10; Datetime.minute := 15; Datetime.second := 0 |}.

Definition fresh_loop : ImageLoop :=
  {| world := source_world; image_bound := false;
     success_list := []; copy_list := []; problem_list := [] |}.

Lemma exif_image_destination_witness :
  ∃ w1,
    Resolver.ensure_base source_world (exif_base (py "out") photo_time) = Return w1 ∧
    (Os.path_exists w1 (exif_dst (py "out") photo_time photo) = false ->
     image_step 1 (py "out") true fresh_loop (py "src/photo.jpg") =
       match shutil_move w1 (py "src/photo.jpg") (exif_dst (py "out") photo_time photo) with
       | Return w2 =>
           Return {| world := w2; image_bound := true;
                     success_list := [] ++ [exif_dst (py "out") photo_time photo];
                     copy_list :=
                       if PyStr.contains (py "Kopie") (exif_dst (py "out") photo_time photo)
                       then [] ++ [exif_dst (py "out") photo_time photo]
                       else [];
                     problem_list := [] |}
       | Raise _ =>
           Return {| world := w1; image_bound := true;
                     success_list := []; copy_list := [];
                     problem_list := [] ++ [py "src/photo.jpg"] |}
       | OutOfFuel => OutOfFuel
       end).
Proof.
  apply (exif_image_destination 1 (py "out") fresh_loop (py "src/photo.jpg") photo photo_time).
  - reflexivity.
  - exists [(271%N, ExifStr (py "Canon")); (306%N, ExifStr (py "2021:05:03 10:15:00"))].
    eexists. exists (py "2021:05:03 10:15:00").
    split; [reflexivity|]. split; [reflexivity|]. split; by vm_compute.
  - right. by vm_compute.
Defined.

Example photo_destination :
  exif_dst (py "out") photo_time photo = py "out/2021/2021_05/IMG_20210503_101500.jpeg".
Proof. by vm_compute. Qed.

(** *** Files that are no images (C7) *)

(** "The substring after the first dot of the original filename." *)
Fixpoint after_first_dot (name : str) : str :=
  match name with
  | [] => []
  | c :: rest => if decide (c = ".") then rest else after_first_dot rest
  end.

(** For [archive.tar.gz] the substring after the first dot is [tar.gz], but
    the code takes the extension [tar]; the file lands at
    [Other Files/tar_Files/archive.tar] and the [gz] is dropped. *)
Lemma other_extension_counterexample :
  after_first_dot (py "archive.tar.gz") = py "tar.gz" ∧
  other_target sample_config (py "src/archive.tar.gz")
    = Return (py "out/Other Files/tar_Files", py "archive", py "tar") ∧
  ∃ w',
    move_other_files 1 source_world [py "src/archive.tar.gz"] sample_config
      = Return (w', [py "src/archive.tar.gz"], []) ∧
    files w' !! py "out/Other Files/tar_Files/archive.tar" = Some 5%Z ∧
    files w' !! py "out/Other Files/tar.gz_Files/archive.tar.gz" = None.
Proof.
  split; [vm_compute; reflexivity|]. split; [vm_compute; reflexivity|].
  apply (returns_checked3 _ _ _
           (fun w' => files w' !! py "out/Other Files/tar_Files/archive.tar" = Some 5%Z ∧
                      files w' !! py "out/Other Files/tar.gz_Files/archive.tar.gz" = None)).
  vm_compute. reflexivity.
Qed.

(** What the loop does with a file whose name contains a dot: the
    destination stem is the part of the name before the first dot and the
    destination extension is the part between the first dot and the second
    dot, or the end of the name when there is no second dot; the directory
    [destination/Other Files/{extension}_Files] is created if needed, the
    resolver is asked for a path there, and [shutil.move] is called with
    it. *)
Theorem other_file_destination (fuel : nat) (config : Config) (st : OtherLoop)
    (file stem ext tail : str) :
  snd (OsPath.split file) = stem ++ "." :: ext ++ tail ->
  "." ∉ stem ->
  "." ∉ ext ->
  tail = [] ∨ (∃ t, tail = "." :: t) ->
  let base_path :=
    OsPath.join3 (destination_path config) (py "Other Files") (ext ++ py "_Files") in
  other_target config file = Return (base_path, stem, ext) ∧
  other_step fuel config st file =
    (w0 ← Resolver.ensure_base (o_world st) base_path;
     '(w1, dst_path) ← Resolver.create_dst_path_for_file fuel w0 base_path stem ext;
     match shutil_move w1 file dst_path with
     | Return w2 =>
         Return {| o_world := w2; success_files := success_files st ++ [file];
                   problem_files := problem_files st |}
     | Raise _ =>
         Return {| o_world := w1; success_files := success_files st;
                   problem_files := problem_files st ++ [file] |}
     | OutOfFuel => OutOfFuel
     end).
Proof.
  intros Hname Hstem Hext Htail base_path.
  assert (other_target config file = Return (base_path, stem, ext)) as Htarget.
  { unfold other_target. rewrite Hname.
    destruct (split_dot_two stem ext tail Hstem Hext Htail) as [rest ->]. done. }
  split; [done|]. unfold other_step. by rewrite Htarget.
Qed.

Lemma other_file_destination_witness :
  let base_path := OsPath.join3 (py "out") (py "Other Files") (py "tar" ++ py "_Files") in
  other_target sample_config (py "src/archive.tar.gz")
    = Return (base_path, py "archive", py "tar") ∧
  other_step 1 sample_config
      {| o_world := source_world; success_files := []; problem_files := [] |}
      (py "src/archive.tar.gz") =
    (w0 ← Resolver.ensure_base source_world base_path;
     '(w1, dst_path) ← Resolver.create_dst_path_for_file 1 w0 base_path (py "archive") (py "tar");
     match shutil_move w1 (py "src/archive.tar.gz") dst_path with
     | Return w2 =>
         Return {| o_world := w2; success_files := [] ++ [py "src/archive.tar.gz"];
                   problem_files := [] |}
     | Raise _ =>
         Return {| o_world := w1; success_files := [];
                   problem_files := [] ++ [py "src/archive.tar.gz"] |}
     | OutOfFuel => OutOfFuel
     end).
Proof.
  apply (other_file_destination 1 sample_config
           {| o_world := source_world; success_files := []; problem_files := [] |}
           (py "src/archive.tar.gz") (py "archive") (py "tar") (py ".gz")).
  - reflexivity.
  - apply (bool_decide_unpack _). by vm_compute.
  - apply (bool_decide_unpack _). by vm_compute.
  - right. by exists (py "gz").
Defined.

Lemma after_first_dot_app (stem r : str) :
  "." ∉ stem -> after_first_dot (stem ++ "." :: r) = r.
Proof.
  induction stem as [|c stem IH]; intros Hstem; simpl.
  - by destruct (decide ("."%char = "."%char)).
  - destruct (decide (c = "."%char)) as [-> | _]; [exfalso; apply Hstem; left|].
    apply IH. intros Hin. apply Hstem. by right.
Qed.

(** C7: the code departs from the claim on every name with more than one
    dot.  For a name [stem.ext.rest] the substring after the first dot is
    [ext.rest], but the loop takes [ext] alone as extension: the directory
    is [destination/Other Files/{ext}_Files], and the resolver is asked for
    a path with the stem [stem] and the extension [ext], so the file is
    moved to [stem.ext] and [.rest] is dropped from its name. *)
Theorem other_extension_dropped (fuel : nat) (config : Config) (st : OtherLoop)
    (file stem ext rest : str) :
  snd (OsPath.split file) = stem ++ "." :: ext ++ "." :: rest ->
  "." ∉ stem ->
  "." ∉ ext ->
  let base_path :=
    OsPath.join3 (destination_path config) (py "Other Files") (ext ++ py "_Files") in
  after_first_dot (snd (OsPath.split file)) = ext ++ "." :: rest ∧
  ext ≠ ext ++ "." :: rest ∧
  other_target config file = Return (base_path, stem, ext) ∧
  other_step fuel config st file =
    (w0 ← Resolver.ensure_base (o_world st) base_path;
     '(w1, dst_path) ← Resolver.create_dst_path_for_file fuel w0 base_path stem ext;
     match shutil_move w1 file dst_path with
     | Return w2 =>
         Return {| o_world := w2; success_files := success_files st ++ [file];
                   problem_files := problem_files st |}
     | Raise _ =>
         Return {| o_world := w1; success_files := success_files st;
                   problem_files := problem_files st ++ [file] |}
     | OutOfFuel => OutOfFuel
     end).
Proof.
  intros Hname Hstem Hext base_path.
  split; [rewrite Hname; by apply after_first_dot_app|].
  split.
  { intros Heq. apply (f_equal length) in Heq. rewrite length_app in Heq.
    simpl in Heq. lia. }
  assert (other_target config file = Return (base_path, stem, ext)) as Htarget.
  { unfold other_target. rewrite Hname.
    destruct (split_dot_two stem ext ("." :: rest) Hstem Hext) as [pieces ->]; [eauto|].
    done. }
  split; [done|]. unfold other_step. by rewrite Htarget.
Qed.

Lemma other_extension_dropped_witness :
  let base_path := OsPath.join3 (py "out") (py "Other Files") (py "tar" ++ py "_Files") in
  after_first_dot (snd (OsPath.split (py "src/archive.tar.gz"))) = py "tar" ++ "." :: py "gz" ∧
  py "tar" ≠ py "tar" ++ "." :: py "gz" ∧
  other_target sample_config (py "src/archive.tar.gz")
    = Return (base_path, py "archive", py "tar") ∧
  other_step 1 sample_config
      {| o_world := source_world; success_files := []; problem_files := [] |}
      (py "src/archive.tar.gz") =
    (w0 ← Resolver.ensure_base source_world base_path;
     '(w1, dst_path) ← Resolver.create_dst_path_for_file 1 w0 base_path (py "archive") (py "tar");
     match shutil_move w1 (py "src/archive.tar.gz") dst_path with
     | Return w2 =>
         Return {| o_world := w2; success_files := [] ++ [py "src/archive.tar.gz"];
                   problem_files := [] |}
     | Raise _ =>
         Return {| o_world := w1; success_files := [];
                   problem_files := [] ++ [py "src/archive.tar.gz"] |}
     | OutOfFuel => OutOfFuel
     end).
Proof.
  apply (other_extension_dropped 1 sample_config
           {| o_world := source_world; success_files := []; problem_files := [] |}
           (py "src/archive.tar.gz") (py "archive") (py "tar") (py "gz")).
  - reflexivity.
  - apply (bool_decide_unpack _). by vm_compute.
  - apply (bool_decide_unpack _). by vm_compute.
Defined.

(** The specification's scenario: [document.pdf] goes to
    [Other Files/pdf_Files/document.pdf]. *)
Example document_pdf :
  let w := set_files source_world {[py "src/document.pdf" := 3%Z]} in
  ∃ w', move_other_files 1 w [py "src/document.pdf"] sample_config
          = Return (w', [py "src/document.pdf"], []) ∧
        map_to_list (files w') = [(py "out/Other Files/pdf_Files/document.pdf", 3%Z)].
Proof.
  cbv zeta.
  apply (returns_checked3 _ _ _
           (fun w' => map_to_list (files w')
                      = [(py "out/Other Files/pdf_Files/document.pdf", 3%Z)])).
  vm_compute. reflexivity.
Qed.

End OrganizerTheorems.

(** ** EmptyDirPruner: [delete_empty_folders] *)

Module Pruner.

(** The tree [os.walk] sees below [directory]: the file names of a
    directory and its subdirectories by name. *)
#[local] Unset Elimination Schemes.
Inductive Dir :=
  | MkDir (filenames : list str) (subdirs : list (str * Dir)).
#[local] Set Elimination Schemes.

Definition is_nil {A} (l : list A) : bool :=
  match l with
  | [] => true
  | _ => false
  end.

(** [os.walk(directory, topdown=False)] together with the loop body, on the
    directory [dirpath].  The walk lists the directory on entry
    ([dirnames], [filenames]), walks the subdirectories, and only then
    yields the triple with that listing; the body then runs.  [os.rmdir]
    raises [OSError] unless the directory is empty at that moment.  The
    result is the directory as it is left, [None] when it was removed. *)
Fixpoint visit (directory dirpath : str) (d : Dir) {struct d} : Result (option Dir) :=
  match d with
  | MkDir filenames subdirs =>
      let dirnames := map fst subdirs in
      left_subdirs ←
        (fix walk_subdirs (l : list (str * Dir)) : Result (list (str * Dir)) :=
           match l with
           | [] => Return []
           | (name, sub) :: rest =>
               r ← visit directory (OsPath.join dirpath name) sub;
               rest' ← walk_subdirs rest;
               Return (match r with
                       | Some sub' => (name, sub') :: rest'
                       | None => rest'
                       end)
           end) subdirs;
      if is_nil dirnames && is_nil filenames && negb (bool_decide (dirpath = directory))
      then
        if is_nil filenames && is_nil left_subdirs then Return None else Raise OSError
      else Return (Some (MkDir filenames left_subdirs))
  end.

(** [for i in range(0, levels)]: one walk per pass.  Walking a directory
    that is gone yields nothing. *)
Fixpoint delete_empty_folders (directory : str) (levels : nat) (t : option Dir)
    : Result (option Dir) :=
  match levels with
  | O => Return t
  | S n =>
      t1 ← match t with
           | Some d => visit directory directory d
           | None => Return None
           end;
      delete_empty_folders directory n t1
  end.

End Pruner.

Module PrunerFacts.
Import Pruner.

(** Induction over a directory tree with the hypothesis for every
    subdirectory. *)
Lemma Dir_tree_ind (P : Dir -> Prop) :
  (∀ filenames subdirs, Forall (fun p => P (snd p)) subdirs -> P (MkDir filenames subdirs)) ->
  ∀ d, P d.
Proof.
  intros step. fix IH 1. intros [filenames subdirs]. apply step.
  induction subdirs as [|[name sub] rest IHrest]; constructor; [apply IH | apply IHrest].
Qed.

(** A directory without files and subdirectories. *)
Definition is_empty_dir (d : Dir) : bool :=
  match d with
  | MkDir [] [] => true
  | _ => false
  end.

(** One pass, as a function on the tree: below the root every directory
    that is empty is dropped, the others keep their pruned subdirectories. *)
Fixpoint prune (d : Dir) : Dir :=
  match d with
  | MkDir filenames subdirs =>
      MkDir filenames
        ((fix prune_subdirs (l : list (str * Dir)) : list (str * Dir) :=
            match l with
            | [] => []
            | (name, sub) :: rest =>
                if is_empty_dir sub then prune_subdirs rest
                else (name, prune sub) :: prune_subdirs rest
            end) subdirs)
  end.

Fixpoint prune_subdirs (l : list (str * Dir)) : list (str * Dir) :=
  match l with
  | [] => []
  | (name, sub) :: rest =>
      if is_empty_dir sub then prune_subdirs rest
      else (name, prune sub) :: prune_subdirs rest
  end.

Lemma prune_unfold (filenames : list str) (subdirs : list (str * Dir)) :
  prune (MkDir filenames subdirs) = MkDir filenames (prune_subdirs subdirs).
Proof.
  reflexivity.
Qed.

(** The walk over the subdirectories inside [visit]. *)
Fixpoint walk_subdirs (directory dirpath : str) (l : list (str * Dir))
    : Result (list (str * Dir)) :=
  match l with
  | [] => Return []
  | (name, sub) :: rest =>
      r ← visit directory (OsPath.join dirpath name) sub;
      rest' ← walk_subdirs directory dirpath rest;
      Return (match r with
              | Some sub' => (name, sub') :: rest'
              | None => rest'
              end)
  end.

Lemma visit_unfold (directory dirpath : str) (filenames : list str)
    (subdirs : list (str * Dir)) :
  visit directory dirpath (MkDir filenames subdirs) =
    (left_subdirs ← walk_subdirs directory dirpath subdirs;
     if is_nil (map fst subdirs) && is_nil filenames
        && negb (bool_decide (dirpath = directory))
     then
       if is_nil filenames && is_nil left_subdirs then Return None else Raise OSError
     else Return (Some (MkDir filenames left_subdirs))).
Proof.
  simpl. f_equal.
  induction subdirs as [|[name sub] rest IH]; simpl; [done|].
  destruct (visit directory _ sub) as [r| |]; simpl; [|done|done].
  by rewrite IH.
Qed.

(** No [os.rmdir] fails: a directory is only removed when it is empty, and
    the directory the walk started from is never removed. *)
Lemma visit_returns (directory : str) (d : Dir) :
  ∀ dirpath, ∃ r,
    visit directory dirpath d = Return r ∧
    (r = None -> d = MkDir [] [] ∧ dirpath ≠ directory).
Proof.
  induction d as [filenames subdirs IH] using Dir_tree_ind. intros dirpath.
  rewrite visit_unfold.
  assert (∃ left_subdirs, walk_subdirs directory dirpath subdirs = Return left_subdirs)
    as [left_subdirs Hwalk].
  { induction IH as [|[name sub] rest Hsub _ IHrest]; simpl; [by eexists|].
    simpl in Hsub. destruct (Hsub (OsPath.join dirpath name)) as (r & -> & _).
    destruct IHrest as [rest' ->]. simpl. by eexists. }
  rewrite Hwalk. simpl.
  destruct subdirs as [|entry subdirs]; simpl.
  - simpl in Hwalk. injection Hwalk as <-.
    destruct filenames as [|file filenames]; simpl.
    + case_bool_decide as Hroot; simpl.
      * eexists. split; [done|]. done.
      * eexists. split; [done|]. done.
    + eexists. split; [done|]. done.
  - eexists. split; [done|]. done.
Qed.

(** Names as a filesystem has them: not empty, not starting with the
    separator. *)
Definition name_ok (name : str) : Prop :=
  name ≠ [] ∧ PyStr.startswith [OsPath.sep] name = false.

Fixpoint well_named (d : Dir) : Prop :=
  match d with
  | MkDir _ subdirs =>
      (fix all_ok (l : list (str * Dir)) : Prop :=
         match l with
         | [] => True
         | (name, sub) :: rest => name_ok name ∧ well_named sub ∧ all_ok rest
         end) subdirs
  end.

Lemma well_named_unfold (filenames : list str) (subdirs : list (str * Dir)) :
  well_named (MkDir filenames subdirs) <->
  Forall (fun p => name_ok (fst p) ∧ well_named (snd p)) subdirs.
Proof.
  simpl. induction subdirs as [|[name sub] rest IH]; simpl.
  - split; [constructor | done].
  - rewrite Forall_cons, <-IH. simpl. tauto.
Qed.

Lemma join_longer (p name : str) : name_ok name -> length p < length (OsPath.join p name).
Proof.
  intros [Hne Hsep]. unfold OsPath.join. rewrite Hsep.
  destruct name as [|c name]; [done|].
  destruct (_ || _); rewrite length_app; simpl; lia.
Qed.

(** Below the start directory one visit is one [prune]. *)
Lemma visit_prune_below (directory : str) (d : Dir) :
  well_named d ->
  ∀ dirpath, length directory < length dirpath ->
    visit directory dirpath d = Return (if is_empty_dir d then None else Some (prune d)).
Proof.
  induction d as [filenames subdirs IH] using Dir_tree_ind.
  intros Hwf%well_named_unfold dirpath Hlen.
  rewrite visit_unfold, prune_unfold.
  assert (walk_subdirs directory dirpath subdirs = Return (prune_subdirs subdirs)) as ->.
  { induction IH as [|[name sub] rest Hsub _ IHrest]; simpl; [done|].
    apply Forall_cons in Hwf as [[Hname Hsubwf] Hwf]. simpl in *.
    rewrite Hsub; [|done|]; last first.
    { pose proof (join_longer dirpath name Hname). lia. }
    simpl. rewrite IHrest by done. simpl. by destruct (is_empty_dir sub). }
  simpl. rewrite bool_decide_eq_false_2 by (intros ->; lia).
  destruct subdirs as [|entry subdirs]; simpl.
  - destruct filenames; simpl; done.
  - destruct filenames; simpl; done.
Qed.

Lemma visit_prune_root (directory : str) (d : Dir) :
  well_named d -> visit directory directory d = Return (Some (prune d)).
Proof.
  destruct d as [filenames subdirs]. intros Hwf%well_named_unfold.
  rewrite visit_unfold, prune_unfold.
  assert (walk_subdirs directory directory subdirs = Return (prune_subdirs subdirs)) as ->.
  { induction subdirs as [|[name sub] rest IHrest]; simpl; [done|].
    apply Forall_cons in Hwf as [[Hname Hsubwf] Hwf]. simpl in *.
    rewrite visit_prune_below; [|done|by apply join_longer].
    simpl. rewrite IHrest by done. simpl. by destruct (is_empty_dir sub). }
  simpl. rewrite bool_decide_eq_true_2 by done.
  by rewrite !andb_false_r.
Qed.

Lemma prune_well_named (d : Dir) : well_named d -> well_named (prune d).
Proof.
  induction d as [filenames subdirs IH] using Dir_tree_ind.
  rewrite prune_unfold, !well_named_unfold. intros Hwf.
  induction IH as [|[name sub] rest Hsub _ IHrest]; simpl; [constructor|].
  apply Forall_cons in Hwf as [[Hname Hsubwf] Hwf]. simpl in *.
  destruct (is_empty_dir sub); [by apply IHrest|].
  constructor; [split; [done | by apply Hsub] | by apply IHrest].
Qed.

(** [levels] passes are [levels] prunes, and the start directory stays. *)
Lemma delete_empty_folders_prune (directory : str) (levels : nat) (d : Dir) :
  well_named d ->
  delete_empty_folders directory levels (Some d) = Return (Some (Nat.iter levels prune d)).
Proof.
  revert d. induction levels as [|n IH]; intros d Hwf; simpl; [done|].
  rewrite visit_prune_root by done. simpl.
  rewrite IH by (by apply prune_well_named).
  by rewrite <-Nat.iter_succ_r.
Qed.

Lemma delete_empty_folders_keeps_root (directory : str) (levels : nat) (d : Dir) :
  ∃ d', delete_empty_folders directory levels (Some d) = Return (Some d').
Proof.
  revert d. induction levels as [|n IH]; intros d; simpl; [by eexists|].
  destruct (visit_returns directory d directory) as (r & -> & Hr). simpl.
  destruct r as [d1|]; [apply IH|]. by destruct Hr.
Qed.

(** *** What [levels] passes remove *)

(** No file anywhere below [d]. *)
Fixpoint hollow (d : Dir) : bool :=
  match d with
  | MkDir filenames subdirs =>
      is_nil filenames &&
      (fix all_hollow (l : list (str * Dir)) : bool :=
         match l with
         | [] => true
         | (_, sub) :: rest => hollow sub && all_hollow rest
         end) subdirs
  end.

Fixpoint all_hollow (l : list (str * Dir)) : bool :=
  match l with
  | [] => true
  | (_, sub) :: rest => hollow sub && all_hollow rest
  end.

(** The number of directory levels below [d]. *)
Fixpoint height (d : Dir) : nat :=
  match d with
  | MkDir _ subdirs =>
      (fix max_height (l : list (str * Dir)) : nat :=
         match l with
         | [] => 0
         | (_, sub) :: rest => max (S (height sub)) (max_height rest)
         end) subdirs
  end.

Fixpoint max_height (l : list (str * Dir)) : nat :=
  match l with
  | [] => 0
  | (_, sub) :: rest => max (S (height sub)) (max_height rest)
  end.

(** A subdirectory that [n] passes remove: nothing but directories below
    it, fewer than [n] levels of them. *)
Definition removed_within (n : nat) (sub : Dir) : bool :=
  hollow sub && (height sub <? n)%nat.

(** The tree without the subdirectories that [n] passes remove. *)
Fixpoint purge (n : nat) (d : Dir) : Dir :=
  match d with
  | MkDir filenames subdirs =>
      MkDir filenames
        ((fix purge_subdirs (l : list (str * Dir)) : list (str * Dir) :=
            match l with
            | [] => []
            | (name, sub) :: rest =>
                if removed_within n sub then purge_subdirs rest
                else (name, purge n sub) :: purge_subdirs rest
            end) subdirs)
  end.

Fixpoint purge_subdirs (n : nat) (l : list (str * Dir)) : list (str * Dir) :=
  match l with
  | [] => []
  | (name, sub) :: rest =>
      if removed_within n sub then purge_subdirs n rest
      else (name, purge n sub) :: purge_subdirs n rest
  end.

Lemma hollow_unfold (filenames : list str) (subdirs : list (str * Dir)) :
  hollow (MkDir filenames subdirs) = is_nil filenames && all_hollow subdirs.
Proof. reflexivity. Qed.

Lemma height_unfold (filenames : list str) (subdirs : list (str * Dir)) :
  height (MkDir filenames subdirs) = max_height subdirs.
Proof. reflexivity. Qed.

Lemma purge_unfold (n : nat) (filenames : list str) (subdirs : list (str * Dir)) :
  purge n (MkDir filenames subdirs) = MkDir filenames (purge_subdirs n subdirs).
Proof.
  simpl. f_equal. induction subdirs as [|[name sub] rest IH]; simpl; [done|].
  by rewrite IH.
Qed.

Lemma is_empty_dir_hollow (d : Dir) :
  is_empty_dir d = hollow d && (height d =? 0)%nat.
Proof.
  destruct d as [[|file filenames] [|[name sub] rest]]; try done.
  rewrite hollow_unfold, height_unfold. simpl.
  destruct (Nat.max_spec (S (height sub)) (max_height rest)) as [[Hlt ->] | [_ ->]].
  - destruct (max_height rest) eqn:E; [lia|]. by rewrite andb_false_r.
  - by rewrite andb_false_r.
Qed.

Lemma purge_zero (d : Dir) : purge 0 d = d.
Proof.
  induction d as [filenames subdirs IH] using Dir_tree_ind.
  rewrite purge_unfold. f_equal.
  induction IH as [|[name sub] rest Hsub _ IHrest]; simpl; [done|].
  unfold removed_within. rewrite andb_false_r. simpl in Hsub. by rewrite Hsub, IHrest.
Qed.

(** Purging keeps a file-free tree file-free and shortens it by [n]. *)
Lemma purge_hollow (n : nat) (d : Dir) :
  hollow d = true ->
  hollow (purge n d) = true ∧ height (purge n d) = height d - n.
Proof.
  induction d as [filenames subdirs IH] using Dir_tree_ind.
  rewrite purge_unfold, !hollow_unfold, !height_unfold.
  intros [Hfiles Hsubs]%andb_prop. rewrite Hfiles. simpl.
  induction IH as [|[name sub] rest Hsub _ IHrest]; simpl; [done|].
  simpl in Hsub, Hsubs. apply andb_prop in Hsubs as [Hh Hrest].
  destruct (IHrest Hrest) as [IHh IHm]. destruct (Hsub Hh) as [Hsh Hsm].
  unfold removed_within. rewrite Hh. simpl.
  destruct (Nat.ltb_spec (height sub) n) as [Hlt|Hge].
  - split; [done|]. rewrite IHm. lia.
  - simpl. rewrite Hsh, IHh, Hsm, IHm. split; [done|]. lia.
Qed.

(** Purging never removes a file. *)
Lemma purge_not_hollow (n : nat) (d : Dir) :
  hollow d = false -> hollow (purge n d) = false.
Proof.
  induction d as [filenames subdirs IH] using Dir_tree_ind.
  rewrite purge_unfold, !hollow_unfold.
  destruct (is_nil filenames); simpl; [|done].
  induction IH as [|[name sub] rest Hsub _ IHrest]; simpl; [done|].
  simpl in Hsub. unfold removed_within.
  destruct (hollow sub) eqn:Hh; simpl.
  - intros Hrest. destruct (height sub <? n)%nat; simpl; [by apply IHrest|].
    rewrite IHrest by done. by rewrite andb_false_r.
  - intros _. by rewrite Hsub.
Qed.

(** One more pass removes what has become empty. *)
Lemma prune_purge (n : nat) (d : Dir) : prune (purge n d) = purge (S n) d.
Proof.
  induction d as [filenames subdirs IH] using Dir_tree_ind.
  rewrite !purge_unfold, prune_unfold. f_equal.
  induction IH as [|[name sub] rest Hsub _ IHrest]; simpl; [done|].
  simpl in Hsub. unfold removed_within.
  destruct (hollow sub) eqn:Hh; simpl.
  - destruct (purge_hollow n sub Hh) as [Hph Hpm].
    destruct (Nat.ltb_spec (height sub) n) as [Hlt|Hge].
    + rewrite (proj2 (Nat.ltb_lt _ _)) by lia. done.
    + simpl. rewrite is_empty_dir_hollow, Hph, Hpm. simpl.
      destruct (Nat.eqb_spec (height sub - n) 0) as [Hz|Hnz].
      * rewrite (proj2 (Nat.ltb_lt _ _)) by lia. done.
      * rewrite (proj2 (Nat.ltb_ge _ _)) by lia. by rewrite Hsub, IHrest.
  - rewrite is_empty_dir_hollow, purge_not_hollow by done. simpl.
    by rewrite Hsub, IHrest.
Qed.

Lemma iter_prune_purge (n : nat) (d : Dir) : Nat.iter n prune d = purge n d.
Proof.
  induction n as [|n IH]; simpl; [by rewrite purge_zero|].
  by rewrite IH, prune_purge.
Qed.

End PrunerFacts.

Module PrunerTheorems.
Import Pruner PrunerFacts.

(** [src] holds a file and the chain [a/b/c] of otherwise empty
    directories, and [keep] with one file. *)
Definition nested_tree : Dir :=
  MkDir [py "notes.txt"]
    [(py "a", MkDir [] [(py "b", MkDir [] [(py "c", MkDir [] [])])]);
     (py "keep", MkDir [py "x.jpg"] [])].

(** C8: in every pass a directory is removed only when it has no files and
    no subdirectories at the moment it is visited, so that no [os.rmdir]
    fails; the directory the pruner was started on is never removed,
    whatever it contains; and the [levels] passes are [levels] repetitions
    of the single bottom-up pass, which together remove exactly the
    subdirectories with no file below them and fewer than [levels] levels of
    directories below them: a parent emptied by one pass goes in the
    next. *)
Theorem pruner_removes_only_empty (directory : str) (levels : nat) (t : Dir) :
  well_named t ->
  (∀ dirpath d, ∃ r,
      visit directory dirpath d = Return r ∧
      (r = None -> d = MkDir [] [] ∧ dirpath ≠ directory)) ∧
  (∀ t0, ∃ t', delete_empty_folders directory levels (Some t0) = Return (Some t')) ∧
  delete_empty_folders directory levels (Some t) = Return (Some (Nat.iter levels prune t)) ∧
  Nat.iter levels prune t = purge levels t.
Proof.
  intros Hwf. split_and!.
  - intros dirpath d. apply visit_returns.
  - intros t0. apply delete_empty_folders_keeps_root.
  - by apply delete_empty_folders_prune.
  - apply iter_prune_purge.
Qed.

Lemma pruner_removes_only_empty_witness :
  (∀ dirpath d, ∃ r,
      visit (py "src") dirpath d = Return r ∧
      (r = None -> d = MkDir [] [] ∧ dirpath ≠ py "src")) ∧
  (∀ t0, ∃ t', delete_empty_folders (py "src") 2 (Some t0) = Return (Some t')) ∧
  delete_empty_folders (py "src") 2 (Some nested_tree)
    = Return (Some (Nat.iter 2 prune nested_tree)) ∧
  Nat.iter 2 prune nested_tree = purge 2 nested_tree.
Proof.
  apply (pruner_removes_only_empty (py "src") 2 nested_tree).
  simpl. unfold name_ok. repeat split; done.
Defined.

(** One pass removes [c] only; the second removes [b]; [a] needs a third. *)
Example nested_one_pass :
  delete_empty_folders (py "src") 1 (Some nested_tree)
    = Return (Some (MkDir [py "notes.txt"]
                      [(py "a", MkDir [] [(py "b", MkDir [] [])]);
                       (py "keep", MkDir [py "x.jpg"] [])])).
Proof. by vm_compute. Qed.

Example nested_two_passes :
  delete_empty_folders (py "src") 2 (Some nested_tree)
    = Return (Some (MkDir [py "notes.txt"]
                      [(py "a", MkDir [] []); (py "keep", MkDir [py "x.jpg"] [])])).
Proof. by vm_compute. Qed.

Example nested_default_levels :
  delete_empty_folders (py "src") 10 (Some nested_tree)
    = Return (Some (MkDir [py "notes.txt"] [(py "keep", MkDir [py "x.jpg"] [])])).
Proof. by vm_compute. Qed.

(** An empty start directory stays. *)
Example empty_root_stays :
  delete_empty_folders (py "src") 10 (Some (MkDir [] [(py "a", MkDir [] [])]))
    = Return (Some (MkDir [] [])).
Proof. by vm_compute. Qed.

End PrunerTheorems.

(** ** DuplicateReconciler: [delete_copy_pictures_from_destination] *)

Module Reconciler.

(** What [os.path.join(top, name)] puts in front of an entry name. *)
Definition child_prefix (top : str) : str :=
  if bool_decide (top = []) || PyStr.endswith [OsPath.sep] top then top
  else top ++ [OsPath.sep].

(** The name under which [p] is listed in [top], if it is an entry of it. *)
Definition entry_name (top p : str) : option str :=
  if PyStr.startswith (child_prefix top) p then
    let name := drop (length (child_prefix top)) p in
    if bool_decide (name ≠ []) && bool_decide (OsPath.sep ∉ name) then Some name else None
  else None.

(** [os.scandir(top)], split into directories and other entries. *)
Definition scandir (w : World) (top : str) : list str * list str :=
  (omap (entry_name top) (elements (dirs w)),
   omap (entry_name top) (elements (dom (files w)))).

(** [os.walk(top, topdown=False)] on a filesystem that does not change
    during the walk.  A chain of nested directories is never longer than
    the number of directories, which bounds the recursion. *)
Fixpoint walk (depth : nat) (w : World) (top : str) : list (str * list str * list str) :=
  match depth with
  | O => []
  | S depth' =>
      if Os.path_isdir w top then
        let '(dirnames, filenames) := scandir w top in
        flat_map (fun name => walk depth' w (OsPath.join top name)) dirnames
        ++ [(top, dirnames, filenames)]
      else []
  end.

Definition os_walk (w : World) (top : str) : list (str * list str * list str) :=
  walk (S (size (dirs w))) w top.

Definition get_all_files_from_source (w : World) (src_path : str) : list str :=
  let all_files_walk :=
    flat_map (fun '(root, dirnames, filenames) =>
                map (OsPath.join root) filenames ++ map (OsPath.join root) dirnames)
             (os_walk w src_path) in
  List.filter (Os.path_isfile w) all_files_walk.

(** [file.split("Kopie")[0][:-1] + "." + file.split(".")[-1]] *)
Definition org_file (file : str) : Result str :=
  before ← PyStr.index (PyStr.split (py "Kopie") file) 0;
  extension ← PyStr.index_last (PyStr.split (py ".") file);
  Return (PyStr.drop_last before ++ py "." ++ extension).

(** The list [quene]. *)
Definition candidates (w : World) (all_files : list str) : list str :=
  List.filter (fun file => PyStr.contains (py "Kopie") file && Os.path_isfile w file)
              all_files.

(** The body of the comparison loop; the state is [deleted_files] and
    [problem_files]. *)
Definition compare_step (w : World) (st : list str * list (str * str)) (file : str)
    : Result (list str * list (str * str)) :=
  let '(deleted_files, problem_files) := st in
  if Os.path_isfile w file then
    org ← org_file file;
    size_org_file ← Os.path_getsize w org;
    size_file ← Os.path_getsize w file;
    if decide (size_file = size_org_file)
    then Return (deleted_files ++ [file], problem_files)
    else Return (deleted_files, problem_files ++ [(file, py "Size does not match")])
  else Return (deleted_files, problem_files ++ [(file, py "No file")]).

(** [l.remove(x)]: the first occurrence goes. *)
Fixpoint list_remove_first (x : str) (l : list str) : list str :=
  match l with
  | [] => []
  | y :: rest => if decide (x = y) then rest else y :: list_remove_first x rest
  end.

(** [for file in del_files] with the list changing under the iterator: the
    iterator holds an index [i], reads [del_files[i]] and advances, until
    the index is past the end of the list as it then is.  [steps] bounds the
    number of iterations; the length of the list on entry is enough. *)
Fixpoint for_del (steps : nat) (w : World) (del_files : list str) (i : nat)
    : Result (World * list str) :=
  match del_files !! i with
  | None => Return (w, del_files)
  | Some file =>
      match steps with
      | O => OutOfFuel
      | S steps' =>
          if Os.path_exists w file then
            w1 ← Os.remove w file;
            for_del steps' w1 del_files (S i)
          else for_del steps' w (list_remove_first file del_files) (S i)
      end
  end.

(** [while len(del_files) > 0 or counter < 10]; the result carries the
    final [counter]. *)
Fixpoint delete_loop (fuel : nat) (w : World) (del_files : list str) (counter : nat)
    : Result (World * list str * nat) :=
  if (0 <? length del_files)%nat || (counter <? 10)%nat then
    match fuel with
    | O => OutOfFuel
    | S fuel' =>
        let counter := counter + 1 in
        '(w1, del_files1) ← for_del (length del_files) w del_files 0;
        delete_loop fuel' w1 del_files1 counter
    end
  else Return (w, del_files, counter).

Definition delete_copy_pictures_from_destination (fuel : nat) (w : World)
    (config : Config) : Result (World * list str * list (str * str)) :=
  let path := destination_path config in
  let all_files := get_all_files_from_source w path in
  let quene := candidates w all_files in
  '(deleted_files, problem_files) ← for_each (compare_step w) ([], []) quene;
  '(w1, del_files, counter) ← delete_loop fuel w deleted_files 0;
  let problem_files :=
    if (0 <? length del_files)%nat
    then problem_files ++ map (fun file => (file, py "Could not be deleted")) del_files
    else problem_files in
  if decide (length quene = length deleted_files + length problem_files)
  then Return (w1, deleted_files, problem_files)
  else Raise AssertionError.

End Reconciler.

Module ReconcilerFacts.
Import Reconciler.

(** [s.split(sep)[0]] is what precedes the first occurrence of [sep]. *)
Lemma split_first_occurrence (sep pre post : str) :
  sep ≠ [] ->
  (∀ pre' post', pre ++ sep ++ post = pre' ++ sep ++ post' -> length pre <= length pre') ->
  ∃ rest, PyStr.split sep (pre ++ sep ++ post) = pre :: rest.
Proof.
  intros Hsep. unfold PyStr.split. induction pre as [|a pre IH]; intros Hfirst.
  - destruct sep as [|c sep]; [done|]. simpl.
    rewrite decide_True by done. rewrite startswith_app. eauto.
  - simpl.
    destruct (PyStr.startswith sep (a :: pre ++ sep ++ post)) eqn:Hstart.
    + apply startswith_prefix in Hstart as [r Hr].
      specialize (Hfirst [] r). simpl in Hfirst. specialize (Hfirst Hr). lia.
    + destruct IH as [rest Hrest].
      { intros pre' post' Heq. specialize (Hfirst (a :: pre') post').
        simpl in Hfirst. rewrite Heq in Hfirst. specialize (Hfirst eq_refl). lia. }
      rewrite Hrest. eauto.
Qed.

(** [s.split(".")[-1]] is what follows the last dot. *)
Lemma split_last_piece (c : ascii) (stem ext : str) :
  c ∉ ext ->
  ∃ l, l ≠ [] ∧ PyStr.split [c] (stem ++ c :: ext) = l ++ [ext].
Proof.
  intros Hext. induction stem as [|a stem (l & Hl & IH)]; simpl.
  - exists [[]]. split; [done|].
    by rewrite OrganizerFacts.split_char_cons, decide_True,
      OrganizerFacts.split_char_notin.
  - rewrite OrganizerFacts.split_char_cons, IH. case_decide.
    + exists ([] :: l). done.
    + destruct l as [|piece l]; [done|]. exists ((a :: piece) :: l). done.
Qed.

Lemma org_file_spec (file pre post stem ext : str) :
  file = pre ++ py "Kopie" ++ post ->
  (∀ pre' post', file = pre' ++ py "Kopie" ++ post' -> length pre <= length pre') ->
  file = stem ++ "." :: ext ->
  "." ∉ ext ->
  org_file file = Return (PyStr.drop_last pre ++ py "." ++ ext).
Proof.
  intros Hkopie Hfirst Hdot Hext. unfold org_file.
  destruct (split_first_occurrence (py "Kopie") pre post) as [rest Hsplit]; [done| |].
  { intros pre' post'. rewrite <-Hkopie. apply Hfirst. }
  rewrite <-Hkopie in Hsplit. rewrite Hsplit. simpl.
  destruct (split_last_piece "." stem ext Hext) as (l & _ & Hlast).
  rewrite <-Hdot in Hlast. change (py ".") with ["."]. rewrite Hlast.
  unfold PyStr.index_last. by rewrite last_snoc.
Qed.

(** A path without a dot is its own "extension". *)
Lemma org_file_no_dot (file pre post : str) :
  file = pre ++ py "Kopie" ++ post ->
  (∀ pre' post', file = pre' ++ py "Kopie" ++ post' -> length pre <= length pre') ->
  "." ∉ file ->
  org_file file = Return (PyStr.drop_last pre ++ py "." ++ file).
Proof.
  intros Hkopie Hfirst Hdot. unfold org_file.
  destruct (split_first_occurrence (py "Kopie") pre post) as [rest Hsplit]; [done| |].
  { intros pre' post'. rewrite <-Hkopie. apply Hfirst. }
  rewrite <-Hkopie in Hsplit. rewrite Hsplit. simpl.
  change (py ".") with ["."]. by rewrite OrganizerFacts.split_char_notin.
Qed.

Lemma all_files_are_files (w : World) (src_path file : str) :
  file ∈ get_all_files_from_source w src_path -> Os.path_isfile w file = true.
Proof.
  unfold get_all_files_from_source. rewrite list_elem_of_In, filter_In. tauto.
Qed.

Lemma candidates_spec (w : World) (all_files : list str) (file : str) :
  file ∈ candidates w all_files <->
  file ∈ all_files ∧ Os.path_isfile w file = true ∧
  ∃ pre post, file = pre ++ py "Kopie" ++ post.
Proof.
  unfold candidates.
  rewrite !list_elem_of_In, filter_In, andb_true_iff, contains_spec. tauto.
Qed.

(** *** The two loops *)

(** Every candidate ends in exactly one of the two lists. *)
Lemma compare_loop_lengths (w : World) (quene : list str)
    (deleted deleted' : list str) (problems problems' : list (str * str)) :
  for_each (compare_step w) (deleted, problems) quene = Return (deleted', problems') ->
  length deleted' + length problems' = length deleted + length problems + length quene.
Proof.
  revert deleted problems. induction quene as [|file quene IH]; intros deleted problems.
  - simpl. intros [= <- <-]. lia.
  - simpl. unfold compare_step at 1.
    destruct (Os.path_isfile w file).
    + destruct (org_file file) as [org| |]; simpl; [|done|done].
      destruct (Os.path_getsize w org) as [size_org| |]; simpl; [|done|done].
      destruct (Os.path_getsize w file) as [size_file| |]; simpl; [|done|done].
      case_decide; simpl; intros Hrun%IH; rewrite Hrun, length_app; simpl; lia.
    + simpl. intros Hrun%IH. rewrite Hrun, length_app. simpl. lia.
Qed.

(** The only way out of the [while] loop: the list is empty and the
    counter has reached 10. *)
Lemma delete_loop_exit (fuel : nat) (w w' : World) (del_files del_files' : list str)
    (counter counter' : nat) :
  delete_loop fuel w del_files counter = Return (w', del_files', counter') ->
  del_files' = [] ∧ 10 <= counter'.
Proof.
  revert w del_files counter. induction fuel as [|fuel IH]; intros w del_files counter.
  - simpl. destruct (_ || _) eqn:Hcond; [done|]. intros [= <- <- <-].
    apply orb_false_elim in Hcond as [Hlen%Nat.ltb_ge Hcount%Nat.ltb_ge].
    split; [|done]. destruct del_files; [done | simpl in Hlen; lia].
  - simpl. destruct (_ || _) eqn:Hcond.
    + destruct (for_del _ w del_files 0) as [[w1 del_files1]| |]; simpl; [|done|done].
      apply IH.
    + intros [= <- <- <-].
      apply orb_false_elim in Hcond as [Hlen%Nat.ltb_ge Hcount%Nat.ltb_ge].
      split; [|done]. destruct del_files; [done | simpl in Hlen; lia].
Qed.

(** The operations of the reconciler fail with filesystem errors only. *)
Lemma index_raises {A} (l : list A) (i : nat) (e : exn) :
  PyStr.index l i = Raise e -> e ≠ AssertionError.
Proof. unfold PyStr.index. destruct (l !! i); [done|]. by intros [= <-]. Qed.

Lemma index_last_raises {A} (l : list A) (e : exn) :
  PyStr.index_last l = Raise e -> e ≠ AssertionError.
Proof. unfold PyStr.index_last. destruct (last l); [done|]. by intros [= <-]. Qed.

Lemma getsize_raises (w : World) (p : str) (e : exn) :
  Os.path_getsize w p = Raise e -> e ≠ AssertionError.
Proof.
  unfold Os.path_getsize. destruct (files w !! p); [done|].
  destruct (Os.path_isdir w p); [done|]. by intros [= <-].
Qed.

Lemma remove_raises (w : World) (p : str) (e : exn) :
  Os.remove w p = Raise e -> e ≠ AssertionError.
Proof.
  unfold Os.remove. repeat case_match; try done; by intros [= <-].
Qed.

Lemma org_file_raises (file : str) (e : exn) :
  org_file file = Raise e -> e ≠ AssertionError.
Proof.
  unfold org_file.
  destruct (PyStr.index _ 0) eqn:E1; simpl; [|intros [= <-]; by eapply index_raises|done].
  destruct (PyStr.index_last _) eqn:E2; simpl;
    [done|intros [= <-]; by eapply index_last_raises|done].
Qed.

Lemma compare_loop_raises (w : World) (quene : list str)
    (st : list str * list (str * str)) (e : exn) :
  for_each (compare_step w) st quene = Raise e -> e ≠ AssertionError.
Proof.
  revert st. induction quene as [|file quene IH]; intros [deleted problems]; [done|].
  simpl. unfold compare_step at 1.
  destruct (Os.path_isfile w file); [|apply IH].
  destruct (org_file file) as [org| |] eqn:E1; simpl;
    [|intros [= <-]; by eapply org_file_raises|done].
  destruct (Os.path_getsize w org) as [size_org| |] eqn:E2; simpl;
    [|intros [= <-]; by eapply getsize_raises|done].
  destruct (Os.path_getsize w file) as [size_file| |] eqn:E3; simpl;
    [|intros [= <-]; by eapply getsize_raises|done].
  case_decide; apply IH.
Qed.

Lemma for_del_raises (steps : nat) (w : World) (del_files : list str) (i : nat) (e : exn) :
  for_del steps w del_files i = Raise e -> e ≠ AssertionError.
Proof.
  revert w del_files i. induction steps as [|steps IH]; intros w del_files i; simpl.
  - by destruct (del_files !! i).
  - destruct (del_files !! i) as [file|]; [|done].
    destruct (Os.path_exists w file); [|apply IH].
    destruct (Os.remove w file) as [w1| |] eqn:E; simpl;
      [apply IH|intros [= <-]; by eapply remove_raises|done].
Qed.

Lemma delete_loop_raises (fuel : nat) (w : World) (del_files : list str)
    (counter : nat) (e : exn) :
  delete_loop fuel w del_files counter = Raise e -> e ≠ AssertionError.
Proof.
  revert w del_files counter. induction fuel as [|fuel IH]; intros w del_files counter;
    simpl; destruct (_ || _); try done.
  destruct (for_del _ w del_files 0) as [[w1 del_files1]| |] eqn:E; simpl;
    [apply IH|intros [= <-]; by eapply for_del_raises|done].
Qed.

(** A file that stays listed after [os.remove] keeps the loop going, for
    any number of passes. *)
Lemma sticky_never_ends (fuel : nat) (w : World) (file : str) (counter : nat) :
  Os.path_isfile w file = true ->
  file ∉ locked w ->
  file ∈ sticky w ->
  delete_loop fuel w [file] counter = OutOfFuel.
Proof.
  intros Hfile Hlocked Hsticky. revert counter.
  induction fuel as [|fuel IH]; intros counter; [done|].
  simpl. unfold Os.path_exists, Os.remove. rewrite Hfile. simpl.
  rewrite bool_decide_eq_false_2, bool_decide_eq_true_2 by done. simpl.
  apply IH.
Qed.

End ReconcilerFacts.

Module ReconcilerTheorems.
Import Reconciler ReconcilerFacts.

Definition sample_config : Config := OrganizerTheorems.sample_config.

(** A destination after a run that met collisions: a true duplicate, a
    different file under a copy name, a file whose own name contains the
    marker, and a file in a directory whose name contains it. *)
Definition copies_world : World :=
  {| files := list_to_map
       [(py "out/2021/a.jpg", 10%Z); (py "out/2021/a_Kopie(1).jpg", 10%Z);
        (py "out/2021/a_Kopie(2).jpg", 11%Z);
        (py "out/MeineKopie.jpg", 4%Z); (py "out/Mein.jpg", 4%Z);
        (py "out/Kopien/x.png", 6%Z); (py "out.png", 5%Z)];
     dirs := {[py "out"; py "out/2021"; py "out/Kopien"]}; dir_size := 4096;
     pictures := ∅; locked := ∅; sticky := ∅ |}.

(** *** Candidates and presumed originals *)

(** Among the listed files the candidates are exactly those whose full
    path contains [Kopie] somewhere; and for such a path with an extension
    behind a last dot, the presumed original is the part before the first
    occurrence of [Kopie] without its last character, then a dot, then that
    extension. *)
Theorem copy_candidates_by_substring (w : World) (config : Config)
    (file pre post stem ext : str) :
  file = pre ++ py "Kopie" ++ post ->
  (∀ pre' post', file = pre' ++ py "Kopie" ++ post' -> length pre <= length pre') ->
  file = stem ++ "." :: ext ->
  "." ∉ ext ->
  let all_files := get_all_files_from_source w (destination_path config) in
  (∀ f, f ∈ candidates w all_files <->
        f ∈ all_files ∧ ∃ pre post, f = pre ++ py "Kopie" ++ post) ∧
  (file ∈ all_files -> file ∈ candidates w all_files) ∧
  org_file file = Return (PyStr.drop_last pre ++ py "." ++ ext).
Proof.
  intros Hkopie Hfirst Hdot Hext all_files.
  assert (Hcand : ∀ f, f ∈ candidates w all_files <->
                       f ∈ all_files ∧ ∃ pre post, f = pre ++ py "Kopie" ++ post).
  { intros f. rewrite candidates_spec. split; [tauto|].
    intros [Hf Hsub]. split_and!; [done| |done]. by eapply all_files_are_files. }
  split_and!; [done| |by eapply org_file_spec].
  intros Hin. apply Hcand. eauto.
Qed.

Lemma copy_candidates_by_substring_witness :
  let file := py "out/Kopien/x.png" in
  let all_files := get_all_files_from_source copies_world (py "out") in
  (∀ f, f ∈ candidates copies_world all_files <->
        f ∈ all_files ∧ ∃ pre post, f = pre ++ py "Kopie" ++ post) ∧
  (file ∈ all_files -> file ∈ candidates copies_world all_files) ∧
  org_file file = Return (PyStr.drop_last (py "out/") ++ py "." ++ py "png").
Proof.
  apply (copy_candidates_by_substring copies_world sample_config
           (py "out/Kopien/x.png") (py "out/") (py "n/x.png") (py "out/Kopien/x") (py "png")).
  - reflexivity.
  - intros pre' post' Heq.
    destruct pre' as [|c0 [|c1 [|c2 [|c3 pre']]]]; simpl; try lia; by vm_compute in Heq.
  - reflexivity.
  - apply (bool_decide_unpack _). by vm_compute.
Defined.

(** The marker is looked for in the whole path: a file in [Kopien/] and a
    file called [MeineKopie.jpg] are candidates, compared with [out.png] and
    [out/Mein.jpg], and deleted when the sizes happen to agree. *)
Example organic_marker_is_a_candidate :
  candidates copies_world (get_all_files_from_source copies_world (py "out"))
    = [py "out/Kopien/x.png"; py "out/2021/a_Kopie(2).jpg";
       py "out/2021/a_Kopie(1).jpg"; py "out/MeineKopie.jpg"] ∧
  org_file (py "out/Kopien/x.png") = Return (py "out.png") ∧
  org_file (py "out/MeineKopie.jpg") = Return (py "out/Mein.jpg") ∧
  ∃ w', delete_copy_pictures_from_destination 11 copies_world sample_config
          = Return (w', [py "out/2021/a_Kopie(1).jpg"; py "out/MeineKopie.jpg"],
                    [(py "out/Kopien/x.png", py "Size does not match");
                     (py "out/2021/a_Kopie(2).jpg", py "Size does not match")]) ∧ True.
Proof.
  split; [vm_compute; reflexivity|]. split; [vm_compute; reflexivity|].
  split; [vm_compute; reflexivity|].
  apply (returns_checked3 _ _ _ (fun _ => True)). vm_compute. reflexivity.
Qed.

(** *** The counting invariant (C5) *)

(** C5: whenever the reconciler returns, the number of candidates equals
    the number of files recorded as deleted plus the number recorded as
    problems; and its closing assertion of this equation never fails. *)
Theorem reconciler_counts (fuel : nat) (w : World) (config : Config) :
  match delete_copy_pictures_from_destination fuel w config with
  | Return (w', deleted_files, problem_files) =>
      length (candidates w (get_all_files_from_source w (destination_path config)))
        = length deleted_files + length problem_files
  | Raise e => e ≠ AssertionError
  | OutOfFuel => True
  end.
Proof.
  unfold delete_copy_pictures_from_destination.
  set (quene := candidates w _).
  destruct (for_each (compare_step w) ([], []) quene) as [[deleted problems]| |] eqn:Hcmp;
    simpl; [|by eapply compare_loop_raises|done].
  apply compare_loop_lengths in Hcmp. simpl in Hcmp.
  destruct (delete_loop fuel w deleted 0) as [[[w1 del_files] counter]| |] eqn:Hdel;
    simpl; [|by eapply delete_loop_raises|done].
  apply delete_loop_exit in Hdel as [-> _]. simpl.
  rewrite decide_True by lia. lia.
Qed.

(** *** The deletion pass (C4) *)

(** A confirmed duplicate that stays listed after [os.remove] returned: the
    lag the retry loop is meant to ride out. *)
Definition lagging_world : World :=
  {| files := list_to_map [(py "out/a.jpg", 10%Z); (py "out/a_Kopie(1).jpg", 10%Z)];
     dirs := {[py "out"]}; dir_size := 4096;
     pictures := ∅; locked := ∅; sticky := {[py "out/a_Kopie(1).jpg"]} |}.

(** [n] confirmed duplicates of one file, on a filesystem without lag. *)
Definition copy_paths (n : nat) : list str :=
  map (fun i => OsPath.join (py "out") (Resolver.kopie_name (py "a") (py "jpg") i))
      (seq 1 n).

Definition many_copies_world (n : nat) : World :=
  {| files := list_to_map ((py "out/a.jpg", 10%Z) :: map (fun p => (p, 10%Z)) (copy_paths n));
     dirs := {[py "out"]}; dir_size := 4096;
     pictures := ∅; locked := ∅; sticky := ∅ |}.

(** C4 fails on the code: the loop runs while the list is not empty [or]
    the counter is below 10.  With a duplicate that stays listed the pass
    never ends, whatever the number of passes allowed; and with 512
    duplicates on a well-behaved filesystem it needs an eleventh pass, ten
    being not enough, because each pass after the first only drops every
    other entry of the list it iterates over. *)
Theorem deletion_pass_not_bounded :
  (∀ fuel, delete_copy_pictures_from_destination fuel lagging_world sample_config
           = OutOfFuel) ∧
  delete_loop 10 (many_copies_world 512) (copy_paths 512) 0 = OutOfFuel ∧
  ∃ w', delete_loop 11 (many_copies_world 512) (copy_paths 512) 0 = Return (w', [], 11)
        ∧ True.
Proof.
  split; [|split].
  - intros fuel. unfold delete_copy_pictures_from_destination. cbv zeta.
    assert (for_each (compare_step lagging_world) ([], [])
              (candidates lagging_world
                 (get_all_files_from_source lagging_world (destination_path sample_config)))
            = Return ([py "out/a_Kopie(1).jpg"], [])) as -> by (vm_compute; reflexivity).
    simpl. rewrite sticky_never_ends; [done|by vm_compute| |].
    + apply (bool_decide_unpack _). vm_compute. reflexivity.
    + apply (bool_decide_unpack _). vm_compute. reflexivity.
  - vm_compute. reflexivity.
  - apply (returns_checked3 _ _ _ (fun _ => True)). vm_compute. reflexivity.
Qed.

End ReconcilerTheorems.

(** * Further properties of the code *)

Module ClassifierExtras.
Import Classifier ClassifierFacts.

Lemma filter_filter_same {A} (p : A -> bool) (l : list A) :
  List.filter p (List.filter p l) = List.filter p l.
Proof.
  induction l as [|x l IH]; simpl; [done|].
  destruct (p x) eqn:E; simpl; [|done]. by rewrite E, IH.
Qed.

Lemma filter_filter_opposite {A} (p : A -> bool) (l : list A) :
  List.filter (fun x => negb (p x)) (List.filter p l) = [].
Proof.
  induction l as [|x l IH]; simpl; [done|].
  destruct (p x) eqn:E; simpl; [|done]. by rewrite E.
Qed.

Lemma filter_filter_opposite' {A} (p : A -> bool) (l : list A) :
  List.filter p (List.filter (fun x => negb (p x)) l) = [].
Proof.
  induction l as [|x l IH]; simpl; [done|].
  destruct (p x) eqn:E; simpl; [done|]. by rewrite E.
Qed.

Lemma filter_filter_negb {A} (p : A -> bool) (l : list A) :
  List.filter (fun x => negb (p x)) (List.filter (fun x => negb (p x)) l)
  = List.filter (fun x => negb (p x)) l.
Proof. apply (filter_filter_same (fun x => negb (p x))). Qed.

Lemma match_extension_is_Some (e s : str) :
  e ∈ extensions -> PyStr.startswith e s = true -> is_Some (match_extension s).
Proof.
  intros He Hs. unfold match_extension.
  destruct (find _ extensions) eqn:E; [by eexists|].
  apply list_elem_of_In in He. pose proof (find_none _ _ E _ He) as Hno. simpl in Hno.
  congruence.
Qed.

(** A name that contains the separator splits into at least two pieces. *)
Lemma split_char_two (c : ascii) (s : str) :
  c ∈ s -> ∃ a b rest, PyStr.split [c] s = a :: b :: rest.
Proof.
  intros (p & r & -> & Hp)%list_elem_of_split_l.
  rewrite OrganizerFacts.split_char_app by done.
  pose proof (OrganizerFacts.split_go_nonempty [c] 0 r) as Hne.
  unfold PyStr.split. destruct (PyStr.split_go [c] 0 r) as [|b rest]; [done|]. eauto.
Qed.

(** X1: classifying the classifier's own output changes nothing: the images
    are all images again, the others are all others again. *)
Theorem classifier_stable (files_list imgs others : list str) :
  filter_files_with_regex files_list = Return (imgs, others) ->
  filter_files_with_regex imgs = Return (imgs, []) ∧
  filter_files_with_regex others = Return ([], others).
Proof.
  rewrite filter_files_with_regex_returns. intros [= <- <-].
  rewrite !filter_files_with_regex_returns.
  by rewrite filter_filter_same, filter_filter_opposite, filter_filter_opposite',
    filter_filter_negb.
Qed.

Lemma classifier_stable_witness :
  filter_files_with_regex [py "a/x.jpg"; py "b/y.PNG"]
    = Return ([py "a/x.jpg"; py "b/y.PNG"], []) ∧
  filter_files_with_regex [py "a/notes.txt"] = Return ([], [py "a/notes.txt"]).
Proof.
  apply (classifier_stable [py "a/x.jpg"; py "a/notes.txt"; py "b/y.PNG"]
           [py "a/x.jpg"; py "b/y.PNG"] [py "a/notes.txt"]).
  reflexivity.
Defined.

(** X2: every file is classified on its own: classifying two batches one
    after the other gives the two results appended, in input order. *)
Theorem classifier_appends (l1 l2 imgs1 others1 imgs2 others2 : list str) :
  filter_files_with_regex l1 = Return (imgs1, others1) ->
  filter_files_with_regex l2 = Return (imgs2, others2) ->
  filter_files_with_regex (l1 ++ l2) = Return (imgs1 ++ imgs2, others1 ++ others2).
Proof.
  rewrite !filter_files_with_regex_returns. intros [= <- <-] [= <- <-].
  by rewrite !List.filter_app.
Qed.

Lemma classifier_appends_witness :
  filter_files_with_regex ([py "a/x.jpg"; py "a/notes.txt"] ++ [py "README"; py "b/y.PNG"])
    = Return ([py "a/x.jpg"] ++ [py "b/y.PNG"], [py "a/notes.txt"] ++ [py "README"]).
Proof.
  apply (classifier_appends [py "a/x.jpg"; py "a/notes.txt"] [py "README"; py "b/y.PNG"]);
    reflexivity.
Defined.

(** X3: a file whose name ends in a dot and one of the ten spellings of the
    pattern is an image, provided something other than a line break stands
    directly before that dot. *)
Theorem named_like_image_is_image (file stem e : str) (c : ascii) :
  basename file = stem ++ c :: "." :: e ->
  c ≠ newline ->
  e ∈ extensions ->
  is_image file = true.
Proof.
  intros Hname Hc He. apply is_image_iff. exists (length stem).
  pose proof extensions_shape as Hshape. rewrite Forall_forall in Hshape.
  destruct (Hshape e He) as (_ & Hdot & _).
  assert (Hdrop : ∀ j, drop (S (length stem) + j) (basename file) = drop j ("." :: e)).
  { intros j. rewrite Hname. change (stem ++ c :: "." :: e) with (stem ++ [c] ++ "." :: e).
    rewrite app_assoc. apply drop_app_add'. rewrite length_app. simpl. lia. }
  split; [split|].
  - exists e. split.
    + by rewrite <-(Nat.add_0_r (S (length stem))), Hdrop.
    + eapply match_extension_is_Some; [done|].
      apply startswith_prefix. exists []. by rewrite app_nil_r.
  - intros j Hj Hocc. apply occ_lookup in Hocc.
    replace j with (S (length stem) + (j - S (length stem))) in Hocc by lia.
    rewrite <-(Nat.add_0_r (_ + _)), <-lookup_drop, Hdrop, lookup_drop, Nat.add_0_r in Hocc.
    destruct (j - S (length stem)) as [|k] eqn:E; [lia|]. simpl in Hocc.
    apply Hdot. by eapply list_elem_of_lookup_2.
  - rewrite Hname, lookup_app_r, Nat.sub_diag by lia. simpl. congruence.
Qed.

Lemma named_like_image_is_image_witness : is_image (py "dcim/holiday.day1.tiff") = true.
Proof.
  apply (named_like_image_is_image (py "dcim/holiday.day1.tiff") (py "holiday.day") (py "tiff") "1").
  - reflexivity.
  - discriminate.
  - apply (bool_decide_unpack _). vm_compute. reflexivity.
Defined.

(** X4: the fallback naming of the image loop cannot fail on a file the
    classifier accepted: its name has a dot, so both pieces exist.  The only
    way the naming step fails on such a file is the unassigned [image] of
    an unreadable first file. *)
Theorem classified_image_has_fallback_name (output_folder : str) (include_year : bool)
    (w : World) (bound : bool) (image_path : str) :
  is_image image_path = true ->
  (∃ target, Organizer.image_target output_folder include_year w bound image_path
             = Return target) ∨
  (Organizer.image_target output_folder include_year w bound image_path
     = Raise UnboundLocalError ∧ bound = false ∧ pictures w !! image_path = None).
Proof.
  intros (K & [Hocc%occ_lookup _] & _)%is_image_iff.
  apply list_elem_of_lookup_2 in Hocc.
  destruct (split_char_two "." _ Hocc) as (a & b & rest & Hsplit).
  unfold Organizer.image_target.
  destruct (pictures w !! image_path ≫= Organizer.read_exif) as [names|] eqn:Hread;
    [left; by eexists|].
  destruct (pictures w !! image_path) as [image|] eqn:Hopen; simpl.
  - rewrite orb_true_r. simpl. change (py ".") with ["."]. fold (basename image_path).
    rewrite Hsplit. left. by eexists.
  - rewrite orb_false_r. destruct bound; simpl.
    + change (py ".") with ["."]. fold (basename image_path).
      rewrite Hsplit. left. by eexists.
    + by right.
Qed.

Lemma classified_image_has_fallback_name_witness :
  (∃ target, Organizer.image_target (py "out") true OrganizerTheorems.source_world true
               (py "src/scan.jpg") = Return target) ∨
  (Organizer.image_target (py "out") true OrganizerTheorems.source_world true
     (py "src/scan.jpg") = Raise UnboundLocalError ∧ true = false ∧
   pictures OrganizerTheorems.source_world !! py "src/scan.jpg" = None).
Proof.
  apply (classified_image_has_fallback_name (py "out") true OrganizerTheorems.source_world
           true (py "src/scan.jpg")).
  reflexivity.
Defined.

End ClassifierExtras.

Module ResolverExtras.
Import Resolver ResolverFacts.

Lemma kopie_loop_returns (fuel : nat) (w : World) (base_path filename extension : str)
    (index : nat) (p : str) :
  kopie_loop fuel w base_path filename extension index = Return p ->
  Os.path_exists w p = false ∧
  ∃ i, index < i ∧ p = OsPath.join base_path (kopie_name filename extension i).
Proof.
  revert index. induction fuel as [|fuel IH]; intros index; [done|]. simpl.
  destruct (Os.path_exists w
              (OsPath.join base_path (kopie_name filename extension (index + 1)))) eqn:E;
    simpl.
  - intros (Hfree & i & Hi & ->)%IH. split; [done|]. exists i. split; [lia | done].
  - intros [= <-]. split; [done|]. exists (index + 1). split; [lia | done].
Qed.

Lemma ensure_base_effect (w w1 : World) (base_path : str) :
  ensure_base w base_path = Return w1 ->
  files w1 = files w ∧ dirs w ⊆ dirs w1 ∧ Os.path_exists w1 base_path = true.
Proof.
  unfold ensure_base. destruct (Os.path_exists w base_path) eqn:E; simpl.
  - by intros [= <-].
  - unfold Os.makedirs. rewrite E.
    case_bool_decide; [done|].
    destruct (existsb _ _); [done|]. intros [= <-]. simpl.
    split; [done|]. split; [set_solver|].
    unfold Os.path_exists, Os.path_isdir. simpl.
    rewrite orb_true_iff, !bool_decide_eq_true. right. set_solver.
Qed.

(** X5: whatever the inputs, a path the resolver returns does not exist at
    that moment, so a move to it overwrites nothing; the resolver leaves
    every file as it is and only adds directories; and the path is the
    plain one or a [_Kopie(i)] one with [i >= 1]. *)
Theorem resolver_returns_free_path (fuel : nat) (w w1 : World)
    (base_path filename extension dst_path : str) :
  create_dst_path_for_file fuel w base_path filename extension = Return (w1, dst_path) ->
  Os.path_exists w1 dst_path = false ∧
  files w1 = files w ∧
  dirs w ⊆ dirs w1 ∧
  Os.path_exists w1 base_path = true ∧
  (dst_path = OsPath.join base_path (plain_name filename extension) ∨
   ∃ i, 1 <= i ∧ dst_path = OsPath.join base_path (kopie_name filename extension i)).
Proof.
  unfold create_dst_path_for_file.
  destruct (ensure_base w base_path) as [w0| |] eqn:Hbase; simpl; [|done|done].
  apply ensure_base_effect in Hbase as (Hfiles & Hdirs & Hexists).
  destruct (Os.path_exists w0 (OsPath.join base_path (plain_name filename extension)))
    eqn:Hplain.
  - destruct (kopie_loop fuel w0 base_path filename extension 0) as [p| |] eqn:Hloop;
      simpl; [|done|done].
    intros [= <- <-]. apply kopie_loop_returns in Hloop as (Hfree & i & Hi & ->).
    split_and!; try done. right. exists i. split; [lia | done].
  - intros [= <- <-]. split_and!; try done. by left.
Qed.

Lemma resolver_returns_free_path_witness :
  ∃ w1 dst_path,
    Os.path_exists w1 dst_path = false ∧
    files w1 = files ResolverTheorems.collision_world ∧
    dirs ResolverTheorems.collision_world ⊆ dirs w1 ∧
    Os.path_exists w1 (py "out/new") = true ∧
    (dst_path = OsPath.join (py "out/new") (plain_name (py "a") (py "JPG")) ∨
     ∃ i, 1 <= i ∧ dst_path = OsPath.join (py "out/new") (kopie_name (py "a") (py "JPG") i)).
Proof.
  eexists _, _.
  apply (resolver_returns_free_path 1 ResolverTheorems.collision_world _
           (py "out/new") (py "a") (py "JPG") _).
  reflexivity.
Defined.

End ResolverExtras.

Module OrganizerExtras.
Import Organizer OrganizerFacts.

(** What one iteration of the image loop does to the three lists. *)
Lemma image_step_lists (fuel : nat) (output_folder : str) (include_year : bool)
    (st st' : ImageLoop) (image_path : str) :
  image_step fuel output_folder include_year st image_path = Return st' ->
  (∃ dst_path,
      success_list st' = success_list st ++ [dst_path] ∧
      problem_list st' = problem_list st ∧
      (copy_list st' = copy_list st ∨
       copy_list st' = copy_list st ++ [dst_path] ∧
       PyStr.contains (py "Kopie") dst_path = true)) ∨
  (success_list st' = success_list st ∧
   problem_list st' = problem_list st ++ [image_path] ∧
   copy_list st' = copy_list st).
Proof.
  unfold image_step.
  destruct (image_target _ _ _ _ _) as [[[[base_path filename] extension] bound]| |];
    simpl; [|done|done].
  destruct (Resolver.create_dst_path_for_file _ _ _ _ _) as [[w1 dst_path]| |];
    simpl; [|done|done].
  destruct (shutil_move w1 image_path dst_path) as [w2| |]; [| |done].
  - intros [= <-]. simpl. left. exists dst_path. split_and!; [done|done|].
    destruct (PyStr.contains _ dst_path); [right | left]; done.
  - intros [= <-]. simpl. by right.
Qed.

Lemma index_not_assertion {A} (l : list A) (i : nat) (e : exn) :
  PyStr.index l i = Raise e -> e ≠ AssertionError.
Proof. unfold PyStr.index. destruct (l !! i); [done|]. by intros [= <-]. Qed.

Lemma create_dst_not_assertion (fuel : nat) (w : World)
    (base_path filename extension : str) (e : exn) :
  Resolver.create_dst_path_for_file fuel w base_path filename extension = Raise e ->
  e ≠ AssertionError.
Proof.
  unfold Resolver.create_dst_path_for_file, Resolver.ensure_base, Os.makedirs.
  destruct (Os.path_exists w base_path); simpl.
  - destruct (Os.path_exists w _); [|done].
    destruct (Resolver.kopie_loop _ _ _ _ _ _) as [p| |] eqn:E; simpl; [done| |done].
    exfalso. revert E. generalize 0.
    induction fuel as [|fuel IH]; intros index; [done|]. simpl.
    destruct (negb _); [done | apply IH].
  - case_bool_decide; simpl; [by intros [= <-]|].
    destruct (existsb _ _); simpl; [by intros [= <-]|].
    match goal with |- context [Os.path_exists ?w' ?p] => destruct (Os.path_exists w' p) end;
      [|done].
    destruct (Resolver.kopie_loop _ _ _ _ _ _) as [p| |] eqn:E; simpl; [done| |done].
    exfalso. revert E. generalize 0.
    induction fuel as [|fuel IH]; intros index; [done|]. simpl.
    destruct (negb _); [done | apply IH].
Qed.

Lemma image_step_not_assertion (fuel : nat) (output_folder : str) (include_year : bool)
    (st : ImageLoop) (image_path : str) (e : exn) :
  image_step fuel output_folder include_year st image_path = Raise e -> e ≠ AssertionError.
Proof.
  unfold image_step.
  destruct (image_target _ _ _ _ _) as [[[[base_path filename] extension] bound]| |] eqn:Ht;
    simpl; [| |done].
  - destruct (Resolver.create_dst_path_for_file _ _ _ _ _) as [[w1 dst_path]| |] eqn:Hc;
      simpl; [|intros [= <-]; by eapply create_dst_not_assertion|done].
    by destruct (shutil_move w1 image_path dst_path).
  - intros [= <-]. revert Ht. unfold image_target.
    destruct (_ ≫= read_exif); [done|].
    destruct (negb _); [by intros [= <-]|].
    destruct (PyStr.index _ 0) eqn:E0; simpl;
      [|intros [= <-]; by eapply index_not_assertion|done].
    destruct (PyStr.index _ 1) eqn:E1; simpl;
      [done|intros [= <-]; by eapply index_not_assertion|done].
Qed.

(** X6: when the image loop runs to its end, every input image is either in
    the success list (under its new path) or in the problem list (under its
    old one), so the closing length assertion never fails; the copy list
    holds only successes whose new path contains [Kopie]; and the problem
    list holds only input paths. *)
Theorem image_lists_account (fuel : nat) (w : World) (imgs : list str) (config : Config) :
  match extract_exif_from_image_and_move_to_dest_folder fuel w imgs config with
  | Return (w', success, copies, problems) =>
      length imgs = length success + length problems ∧
      (∀ p, p ∈ copies -> p ∈ success ∧ PyStr.contains (py "Kopie") p = true) ∧
      (∀ p, p ∈ problems -> p ∈ imgs)
  | Raise e => e ≠ AssertionError
  | OutOfFuel => True
  end.
Proof.
  unfold extract_exif_from_image_and_move_to_dest_folder.
  set (step := image_step fuel _ _).
  assert (Hloop : ∀ l st st',
            for_each step st l = Return st' ->
            length (success_list st') + length (problem_list st')
              = length (success_list st) + length (problem_list st) + length l ∧
            (∀ p, p ∈ success_list st -> p ∈ success_list st') ∧
            (∀ p, p ∈ copy_list st' ->
                  p ∈ copy_list st ∨
                  p ∈ success_list st' ∧ PyStr.contains (py "Kopie") p = true) ∧
            (∀ p, p ∈ problem_list st' -> p ∈ problem_list st ∨ p ∈ l)).
  { induction l as [|x l IH]; intros st st'; simpl.
    - intros [= <-]. split_and!; [lia|done|by left|by left].
    - destruct (step st x) as [st1| |] eqn:Hstep; simpl; [|done|done].
      intros (Hlen & Hsucc & Hcopy & Hprob)%IH.
      apply image_step_lists in Hstep
        as [(dst & Hs & Hp & Hc) | (Hs & Hp & Hc)].
      + rewrite Hs, Hp, length_app in *. simpl in *. split_and!; [lia| | |].
        * intros p Hin. apply Hsucc. apply elem_of_app. by left.
        * intros p [Hin|Hin]%Hcopy; [|by right].
          destruct Hc as [Hc | [Hc Hk]]; rewrite Hc in Hin; [by left|].
          apply elem_of_app in Hin as [Hin | ->%list_elem_of_singleton]; [by left|].
          right. split; [|done]. apply Hsucc, elem_of_app. right. by left.
        * intros p [Hin|Hin]%Hprob; [by left|]. right. by right.
      + rewrite Hs, Hp, length_app in *. simpl in *. split_and!; [lia|done| |].
        * intros p [Hin|Hin]%Hcopy; [|by right]. rewrite Hc in Hin. by left.
        * intros p [Hin|Hin]%Hprob.
          -- apply elem_of_app in Hin as [Hin | ->%list_elem_of_singleton]; [by left|].
             right. by left.
          -- right. by right. }
  assert (Hraise : ∀ l st e, for_each step st l = Raise e -> e ≠ AssertionError).
  { induction l as [|x l IH]; intros st e; simpl; [done|].
    destruct (step st x) as [st1| |] eqn:Hstep; simpl; [apply IH| |done].
    intros [= <-]. by eapply image_step_not_assertion. }
  destruct (for_each step _ imgs) as [st'| |] eqn:Hrun; simpl;
    [|by eapply Hraise|done].
  apply Hloop in Hrun as (Hlen & _ & Hcopy & Hprob). simpl in *.
  rewrite decide_True by lia. split_and!; [lia| |].
  - intros p [Hin|Hin]%Hcopy; [|done]. by apply elem_of_nil in Hin.
  - intros p [Hin|Hin]%Hprob; [|done]. by apply elem_of_nil in Hin.
Qed.

(** What one iteration of the loop of [move_other_files] does to the two
    lists. *)
Lemma other_step_lists (fuel : nat) (config : Config) (st st' : OtherLoop) (file : str) :
  other_step fuel config st file = Return st' ->
  success_files st' = success_files st ++ [file] ∧ problem_files st' = problem_files st
  ∨ success_files st' = success_files st ∧ problem_files st' = problem_files st ++ [file].
Proof.
  unfold other_step.
  destruct (other_target config file) as [[[base_path filename] extension]| |];
    simpl; [|done|done].
  destruct (Resolver.ensure_base _ _) as [w0| |]; simpl; [|done|done].
  destruct (Resolver.create_dst_path_for_file _ _ _ _ _) as [[w1 dst_path]| |];
    simpl; [|done|done].
  destruct (shutil_move w1 file dst_path) as [w2| |]; [| |done].
  - intros [= <-]. by left.
  - intros [= <-]. by right.
Qed.

(** X7: when [move_other_files] runs to its end, every input file is in
    exactly one of the two lists it returns, under its source path. *)
Theorem other_lists_account (fuel : nat) (w : World) (files_list : list str)
    (config : Config) :
  match move_other_files fuel w files_list config with
  | Return (w', success, problems) =>
      length files_list = length success + length problems ∧
      ∀ f, f ∈ files_list <-> f ∈ success ∨ f ∈ problems
  | _ => True
  end.
Proof.
  unfold move_other_files. set (step := other_step fuel config).
  assert (Hloop : ∀ l st st',
            for_each step st l = Return st' ->
            length (success_files st') + length (problem_files st')
              = length (success_files st) + length (problem_files st) + length l ∧
            ∀ f, f ∈ success_files st' ∨ f ∈ problem_files st'
                 <-> (f ∈ success_files st ∨ f ∈ problem_files st) ∨ f ∈ l).
  { induction l as [|x l IH]; intros st st'; simpl.
    - intros [= <-]. split; [lia|]. intros f. rewrite elem_of_nil. tauto.
    - destruct (step st x) as [st1| |] eqn:Hstep; simpl; [|done|done].
      intros [Hlen Hmem]%IH.
      apply other_step_lists in Hstep as [[Hs Hp] | [Hs Hp]];
        rewrite Hs, Hp, ?length_app in *; simpl in *.
      + split; [lia|]. intros f.
        rewrite Hmem, !elem_of_app, !elem_of_cons, !elem_of_nil. tauto.
      + split; [lia|]. intros f.
        rewrite Hmem, !elem_of_app, !elem_of_cons, !elem_of_nil. tauto. }
  destruct (for_each step _ files_list) as [st'| |] eqn:Hrun; simpl; [|done|done].
  apply Hloop in Hrun as [Hlen Hmem]. simpl in *. split; [lia|].
  intros f. rewrite Hmem, elem_of_nil. tauto.
Qed.

(** X8: an image that opens but yields no capture date (no EXIF data, an
    undecodable tag, no or an unparsable DateTime) is sent to
    [destination/No_exif_data] with the part of its name before the first
    dot as stem and the part between the first and the second dot as
    extension; what follows a second dot is lost. *)
Theorem no_exif_destination (output_folder : str) (include_year : bool) (w : World)
    (bound : bool) (image_path : str) (image : Picture) (stem ext tail : str) :
  pictures w !! image_path = Some image ->
  read_exif image = None ->
  snd (OsPath.split image_path) = stem ++ "." :: ext ++ tail ->
  "." ∉ stem ->
  "." ∉ ext ->
  tail = [] ∨ (∃ t, tail = "." :: t) ->
  image_target output_folder include_year w bound image_path
    = Return (OsPath.join output_folder (py "No_exif_data"), stem, ext, true).
Proof.
  intros Hopen Hread Hname Hstem Hext Htail. unfold image_target.
  rewrite Hopen. simpl. rewrite Hread, orb_true_r. simpl. rewrite Hname.
  destruct (split_dot_two stem ext tail Hstem Hext Htail) as [rest Hsplit].
  change (py ".") with ["."] in Hsplit. by rewrite Hsplit.
Qed.

Lemma no_exif_destination_witness :
  image_target (py "out") true
    (set_pictures OrganizerTheorems.source_world
       {[py "src/my.photo.jpg" := {| exif := None; format := py "JPEG" |}]})
    false (py "src/my.photo.jpg")
    = Return (OsPath.join (py "out") (py "No_exif_data"), py "my", py "photo", true).
Proof.
  apply (no_exif_destination (py "out") true _ false (py "src/my.photo.jpg")
           {| exif := None; format := py "JPEG" |} (py "my") (py "photo") (py ".jpg")).
  - reflexivity.
  - reflexivity.
  - reflexivity.
  - apply (bool_decide_unpack _). vm_compute. reflexivity.
  - apply (bool_decide_unpack _). vm_compute. reflexivity.
  - right. by exists (py "jpg").
Defined.

(** X9: with [include_year] off, an image whose capture date is read is
    sent to [destination/{year_month}], again named
    [IMG_YYYYMMDD_HHMMSS] with the lower-cased detected format as
    extension. *)
Theorem exif_month_folder (output_folder : str) (w : World) (bound : bool)
    (image_path : str) (image : Picture) (t : Datetime.datetime) :
  pictures w !! image_path = Some image ->
  OrganizerTheorems.capture_time image t ->
  image_target output_folder false w bound image_path
    = Return (OsPath.join output_folder (Datetime.strftime_Y_m t),
              py "IMG_" ++ Datetime.strftime_Ymd t ++ py "_" ++ Datetime.strftime_HMS t,
              PyStr.lower (format image), true).
Proof.
  intros Hopen (exifdata & exif_dict & text & Hexif & Hdict & Htag & Htime).
  unfold image_target. rewrite Hopen. simpl.
  unfold read_exif. rewrite Hexif. simpl. rewrite Hdict. simpl.
  rewrite Htag. simpl. rewrite Htime. simpl. by rewrite orb_true_r.
Qed.

Lemma exif_month_folder_witness :
  image_target (py "out") false OrganizerTheorems.source_world false (py "src/photo.jpg")
    = Return (OsPath.join (py "out") (Datetime.strftime_Y_m OrganizerTheorems.photo_time),
              py "IMG_" ++ Datetime.strftime_Ymd OrganizerTheorems.photo_time ++ py "_"
                ++ Datetime.strftime_HMS OrganizerTheorems.photo_time,
              PyStr.lower (format OrganizerTheorems.photo), true).
Proof.
  apply (exif_month_folder (py "out") OrganizerTheorems.source_world false
           (py "src/photo.jpg") OrganizerTheorems.photo OrganizerTheorems.photo_time).
  - reflexivity.
  - exists [(271%N, ExifStr (py "Canon")); (306%N, ExifStr (py "2021:05:03 10:15:00"))].
    eexists. exists (py "2021:05:03 10:15:00").
    split; [reflexivity|]. split; [reflexivity|]. split; vm_compute; reflexivity.
Defined.

Lemma for_each_stops {S A} (body : S -> A -> Result S) (l : list A) (x : A) :
  x ∈ l ->
  (∀ st r, body st x ≠ Return r) ->
  ∀ st r, for_each body st l ≠ Return r.
Proof.
  intros Hin Hbody. induction l as [|y l IH]; intros st r; [by apply elem_of_nil in Hin|].
  simpl. apply elem_of_cons in Hin as [<- | Hin].
  - destruct (body st x) as [st1| |] eqn:E; simpl; [|done|done]. by apply Hbody in E.
  - destruct (body st y) as [st1| |]; simpl; [|done|done]. by apply IH.
Qed.

(** X10: a file whose name has no dot (README, Makefile) is classified as
    "other", and [move_other_files] never completes on a list that contains
    such a file: the extension lookup raises outside any [try]. *)
Theorem dotless_file_stops_others (fuel : nat) (w : World) (config : Config)
    (files_list imgs others : list str) (f : str) :
  Classifier.filter_files_with_regex files_list = Return (imgs, others) ->
  f ∈ files_list ->
  "." ∉ snd (OsPath.split f) ->
  f ∈ others ∧ ∀ r, move_other_files fuel w others config ≠ Return r.
Proof.
  rewrite ClassifierFacts.filter_files_with_regex_returns. intros [= <- <-] Hin Hdot.
  assert (f ∈ List.filter (fun f => negb (Classifier.is_image f)) files_list) as Hother.
  { apply ClassifierFacts.classifier_partition_aux. split; [done|].
    intros (K & [Hocc%ClassifierFacts.occ_lookup _] & _). apply Hdot.
    by eapply list_elem_of_lookup_2. }
  split; [done|]. intros r. unfold move_other_files.
  destruct (for_each _ _ _) as [st'| |] eqn:Hrun; simpl; [|done|done].
  exfalso. revert Hrun. apply (for_each_stops _ _ f Hother).
  intros st r'. unfold other_step, other_target.
  change (py ".") with ["."]. rewrite split_char_notin by done. done.
Qed.

Lemma dotless_file_stops_others_witness :
  py "src/README" ∈ [py "src/README"; py "src/archive.tar.gz"] ∧
  ∀ r, move_other_files 1 OrganizerTheorems.source_world
         [py "src/README"; py "src/archive.tar.gz"] OrganizerTheorems.sample_config
       ≠ Return r.
Proof.
  apply (dotless_file_stops_others 1 OrganizerTheorems.source_world
           OrganizerTheorems.sample_config
           [py "src/photo.jpg"; py "src/README"; py "src/archive.tar.gz"]
           [py "src/photo.jpg"] [py "src/README"; py "src/archive.tar.gz"] (py "src/README")).
  - reflexivity.
  - right. left.
  - apply (bool_decide_unpack _). vm_compute. reflexivity.
Defined.

End OrganizerExtras.

Module DatetimeExtras.
Import Datetime.

(** A timestamp as EXIF writes it: [YYYY:MM:DD HH:MM:SS], zero-padded. *)
Definition exif_text (t : datetime) : str :=
  padded 4 (year t) ++ ":" :: padded 2 (month t) ++ ":" :: padded 2 (day t)
  ++ " " :: padded 2 (hour t) ++ ":" :: padded 2 (minute t) ++ ":" :: padded 2 (second t).

(** A date and time that exists. *)
Definition valid (t : datetime) : Prop :=
  1 <= year t < 100 * 100 ∧ 1 <= month t <= 12 ∧
  1 <= day t <= days_in_month (year t) (month t) ∧
  hour t < 24 ∧ minute t < 60 ∧ second t < 60.

Lemma literal_cons (c : ascii) (r : str) : literal c (c :: r) = Some r.
Proof. unfold literal. by rewrite decide_True. Qed.

(** The character of a decimal digit. *)
Definition digit (d : nat) : ascii := pretty_N_char (N.of_nat d).

Lemma go_digit (x d : N) (s : string) :
  (d < 10)%N -> (0 < 10 * x + d)%N ->
  pretty_N_go (10 * x + d) s = pretty_N_go x (String (pretty_N_char d) s).
Proof.
  intros Hd Hpos. rewrite pretty_N_go_step by done.
  assert (((10 * x + d) `div` 10 = x)%N) as ->.
  { symmetry. apply (N.div_unique _ 10 x d); [done|lia]. }
  assert (((10 * x + d) `mod` 10 = d)%N) as ->.
  { symmetry. apply (N.mod_unique _ 10 x d); [done|lia]. }
  done.
Qed.

(** [str] writes a number below 10000 with its digits from the first that
    is not zero. *)
Lemma of_nat_digits (a b c d : nat) :
  a < 10 -> b < 10 -> c < 10 -> d < 10 ->
  PyStr.of_nat (1000 * a + 100 * b + 10 * c + d) =
    if decide (a = 0) then
      if decide (b = 0) then
        if decide (c = 0) then [digit d] else [digit c; digit d]
      else [digit b; digit c; digit d]
    else [digit a; digit b; digit c; digit d].
Proof.
  intros Ha Hb Hc Hd. unfold PyStr.of_nat, pretty, pretty_nat, pretty, pretty_N, digit.
  assert (N.of_nat (1000 * a + 100 * b + 10 * c + d) =
          (10 * (10 * (10 * N.of_nat a + N.of_nat b) + N.of_nat c) + N.of_nat d)%N)
    as -> by lia.
  set (A := N.of_nat a). set (B := N.of_nat b). set (C := N.of_nat c). set (D := N.of_nat d).
  assert ((A < 10)%N ∧ (B < 10)%N ∧ (C < 10)%N ∧ (D < 10)%N) as (HA & HB & HC & HD)
    by (unfold A, B, C, D; lia).
  assert (a = 0 <-> A = 0%N) as HA0 by (unfold A; lia).
  assert (b = 0 <-> B = 0%N) as HB0 by (unfold B; lia).
  assert (c = 0 <-> C = 0%N) as HC0 by (unfold C; lia).
  clearbody A B C D.
  destruct (decide (a = 0)) as [Ha0 | Ha0].
  - apply HA0 in Ha0 as ->. destruct (decide (b = 0)) as [Hb0 | Hb0].
    + apply HB0 in Hb0 as ->. destruct (decide (c = 0)) as [Hc0 | Hc0].
      * apply HC0 in Hc0 as ->.
        replace (10 * (10 * (10 * 0 + 0) + 0) + D)%N with (10 * 0 + D)%N by lia.
        case_decide as HD0.
        -- assert (D = 0%N) as -> by lia. reflexivity.
        -- rewrite go_digit by lia. by rewrite pretty_N_go_0.
      * assert (C ≠ 0%N) by (by rewrite <-HC0).
        replace (10 * (10 * (10 * 0 + 0) + C) + D)%N with (10 * (10 * 0 + C) + D)%N by lia.
        rewrite decide_False by lia. rewrite !go_digit by lia.
        by rewrite pretty_N_go_0.
    + assert (B ≠ 0%N) by (by rewrite <-HB0).
      rewrite decide_False by lia. rewrite !go_digit by lia.
      by rewrite pretty_N_go_0.
  - assert (A ≠ 0%N) by (by rewrite <-HA0).
    replace (10 * (10 * (10 * A + B) + C) + D)%N
      with (10 * (10 * (10 * (10 * 0 + A) + B) + C) + D)%N by lia.
    rewrite decide_False by lia. rewrite !go_digit by lia.
    by rewrite pretty_N_go_0.
Qed.

Lemma padded_four (a b c d : nat) :
  a < 10 -> b < 10 -> c < 10 -> d < 10 ->
  padded 4 (1000 * a + 100 * b + 10 * c + d) = [digit a; digit b; digit c; digit d].
Proof.
  intros Ha Hb Hc Hd. unfold padded. rewrite of_nat_digits by done.
  repeat case_decide; subst; reflexivity.
Qed.

Lemma four_digits (Y : nat) :
  Y < 100 * 100 ->
  ∃ a b c d, a < 10 ∧ b < 10 ∧ c < 10 ∧ d < 10 ∧ Y = 1000 * a + 100 * b + 10 * c + d ∧
             (1000 <= Y -> a ≠ 0).
Proof.
  intros HY. exists (Y / 1000), (Y / 100 mod 10), (Y / 10 mod 10), (Y mod 10).
  pose proof (Nat.div_mod_eq Y 10). pose proof (Nat.div_mod_eq (Y / 10) 10).
  pose proof (Nat.div_mod_eq (Y / 10 / 10) 10).
  pose proof (Nat.mod_upper_bound Y 10 ltac:(done)).
  pose proof (Nat.mod_upper_bound (Y / 10) 10 ltac:(done)).
  pose proof (Nat.mod_upper_bound (Y / 100) 10 ltac:(done)).
  assert (Y / 100 = Y / 10 / 10) as E1 by (by rewrite Nat.Div0.div_div).
  assert (Y / 1000 = Y / 10 / 10 / 10) as E2 by (by rewrite !Nat.Div0.div_div).
  assert (Y / 1000 < 10) by (apply Nat.Div0.div_lt_upper_bound; lia).
  rewrite E1, E2 in *.
  assert (Y / 10 / 10 / 10 < 10 ->
          Y / 10 / 10 mod 10 = Y / 10 / 10 - 10 * (Y / 10 / 10 / 10)) by lia.
  split_and!; try lia.
Qed.

Lemma is_nat_digit (d : nat) : d < 10 -> Ascii.is_nat (digit d) = Some d.
Proof. intros Hd. do 10 (destruct d as [|d]; [reflexivity|]). lia. Qed.

Lemma digit_in_digit (d : nat) (rest : str) :
  d < 10 -> digit_in 0 9 (digit d :: rest) = Some (d, rest).
Proof.
  intros Hd. unfold digit_in. rewrite is_nat_digit by done.
  by rewrite bool_decide_eq_true_2 by lia.
Qed.

Lemma re_Y_padded (Y : nat) (rest : str) :
  Y < 100 * 100 -> re_Y (padded 4 Y ++ rest) = Some (Y, rest).
Proof.
  intros (a & b & c & d & Ha & Hb & Hc & Hd & -> & _)%four_digits.
  rewrite padded_four by done. unfold re_Y. cbn [app].
  rewrite digit_in_digit by done. cbn [mbind option_bind].
  rewrite digit_in_digit by done. cbn [mbind option_bind].
  rewrite digit_in_digit by done. cbn [mbind option_bind].
  rewrite digit_in_digit by done. reflexivity.
Qed.

(** From the year 1000 on the year has its four digits without padding. *)
Lemma four_digit_year (Y : nat) :
  1000 <= Y < 100 * 100 -> PyStr.of_nat Y = padded 4 Y.
Proof.
  intros [Hlow (a & b & c & d & Ha & Hb & Hc & Hd & -> & Hne)%four_digits].
  rewrite padded_four, of_nat_digits by done. by rewrite decide_False by auto.
Qed.

Lemma re_m_padded (m : nat) (rest : str) :
  1 <= m <= 12 -> re_m (padded 2 m ++ ":" :: rest) = Some (m, ":" :: rest).
Proof.
  intros Hm. do 13 (destruct m as [|m]; [first [lia | vm_compute; reflexivity]|]). lia.
Qed.

Lemma re_d_padded (d : nat) (rest : str) :
  1 <= d <= 31 -> re_d (padded 2 d ++ " " :: rest) = Some (d, " " :: rest).
Proof.
  intros Hd. do 32 (destruct d as [|d]; [first [lia | vm_compute; reflexivity]|]). lia.
Qed.

Lemma re_H_padded (H : nat) (rest : str) :
  H < 24 ->
  skip_spaces (padded 2 H ++ ":" :: rest) = padded 2 H ++ ":" :: rest ∧
  re_H (padded 2 H ++ ":" :: rest) = Some (H, ":" :: rest).
Proof.
  intros HH. do 24 (destruct H as [|H]; [split; vm_compute; reflexivity|]). lia.
Qed.

Lemma re_M_padded (M : nat) (rest : str) :
  M < 60 -> re_M (padded 2 M ++ ":" :: rest) = Some (M, ":" :: rest).
Proof.
  intros HM. do 60 (destruct M as [|M]; [vm_compute; reflexivity|]). lia.
Qed.

Lemma re_S_padded (S : nat) :
  S < 60 -> re_S (padded 2 S) = Some (S, []).
Proof.
  intros HS. do 60 (destruct S as [|S]; [vm_compute; reflexivity|]). lia.
Qed.

Lemma days_in_month_le (y m : nat) : days_in_month y m <= 31.
Proof.
  unfold days_in_month. do 12 (destruct m as [|m]; [try destruct (is_leap y); lia|]). lia.
Qed.

(** [strptime] reads back what the canonical form of a valid date says. *)
Lemma strptime_exif_text (t : datetime) : valid t -> strptime (exif_text t) = Some t.
Proof.
  destruct t as [Y m d H M S]. unfold valid, exif_text. simpl.
  intros (HY & Hm & Hd & HH & HM & HS).
  pose proof (days_in_month_le Y m) as Hdim.
  unfold strptime.
  rewrite re_Y_padded by lia. cbn [mbind option_bind]. rewrite literal_cons.
  cbn [mbind option_bind]. rewrite re_m_padded by lia.
  cbn [mbind option_bind]. rewrite literal_cons.
  cbn [mbind option_bind]. rewrite re_d_padded by lia.
  cbn [mbind option_bind]. unfold spaces at 1. cbn [is_space].
  destruct (re_H_padded H (padded 2 M ++ ":" :: padded 2 S) HH) as [Hskip HreH].
  change (is_space " ") with true. cbn iota. rewrite Hskip.
  cbn [mbind option_bind]. rewrite HreH.
  cbn [mbind option_bind]. rewrite literal_cons.
  cbn [mbind option_bind]. rewrite re_M_padded by lia.
  cbn [mbind option_bind]. rewrite literal_cons.
  cbn [mbind option_bind]. rewrite re_S_padded by lia.
  cbn [mbind option_bind].
  rewrite !bool_decide_eq_true_2 by (done || lia). done.
Qed.

(** X11: for an image whose DateTime tag is a valid date and time of the
    years 1000 to 9999 in the canonical zero-padded form
    [YYYY:MM:DD HH:MM:SS], the names the loop derives repeat the digits of
    the tag: the year folder is [YYYY], the month folder [YYYY_MM] and the
    stem [IMG_YYYYMMDD_HHMMSS]. *)
Theorem canonical_timestamp_names (image : Picture) (t : datetime)
    (exifdata : list (N * ExifValue)) (exif_dict : gmap N (option str)) :
  valid t ->
  1000 <= year t ->
  exif image = Some exifdata ->
  Organizer.fill_exif_dict exifdata ∅ = Some exif_dict ->
  exif_dict !! Organizer.DateTime_tag = Some (Some (exif_text t)) ->
  strptime (exif_text t) = Some t ∧
  Organizer.read_exif image =
    Some {| Organizer.year_str := padded 4 (year t);
            Organizer.year_month_str := padded 4 (year t) ++ py "_" ++ padded 2 (month t);
            Organizer.exif_filename :=
              py "IMG_" ++ (padded 4 (year t) ++ padded 2 (month t) ++ padded 2 (day t))
              ++ py "_" ++ (padded 2 (hour t) ++ padded 2 (minute t) ++ padded 2 (second t));
            Organizer.exif_extension := PyStr.lower (format image) |}.
Proof.
  intros Hvalid Hyear Hexif Hdict Htag.
  pose proof (strptime_exif_text t Hvalid) as Htime. split; [done|].
  unfold Organizer.read_exif. rewrite Hexif. simpl. rewrite Hdict. simpl.
  rewrite Htag. simpl. rewrite Htime.
  rewrite <-(four_digit_year (year t)) by (destruct Hvalid as [? _]; lia). done.
Qed.

Lemma canonical_timestamp_names_witness :
  let t := OrganizerTheorems.photo_time in
  strptime (exif_text t) = Some t ∧
  Organizer.read_exif OrganizerTheorems.photo =
    Some {| Organizer.year_str := padded 4 (year t);
            Organizer.year_month_str := padded 4 (year t) ++ py "_" ++ padded 2 (month t);
            Organizer.exif_filename :=
              py "IMG_" ++ (padded 4 (year t) ++ padded 2 (month t) ++ padded 2 (day t))
              ++ py "_" ++ (padded 2 (hour t) ++ padded 2 (minute t) ++ padded 2 (second t));
            Organizer.exif_extension := PyStr.lower (format OrganizerTheorems.photo) |}.
Proof.
  apply (canonical_timestamp_names OrganizerTheorems.photo OrganizerTheorems.photo_time
           [(271%N, ExifStr (py "Canon")); (306%N, ExifStr (py "2021:05:03 10:15:00"))]
           (<[306%N := Some (py "2021:05:03 10:15:00")]> (<[271%N := Some (py "Canon")]> ∅))).
  - unfold valid. simpl. lia.
  - simpl. lia.
  - reflexivity.
  - reflexivity.
  - vm_compute. reflexivity.
Defined.

(** Before the year 1000 the names lose the leading zeros of the tag. *)
Example early_year_names :
  Organizer.read_exif
    {| exif := Some [(306%N, ExifStr (py "0999:01:02 03:04:05"))]; format := py "JPEG" |}
  = Some {| Organizer.year_str := py "999";
            Organizer.year_month_str := py "999_01";
            Organizer.exif_filename := py "IMG_9990102_030405";
            Organizer.exif_extension := py "jpeg" |}.
Proof. vm_compute. reflexivity. Qed.

End DatetimeExtras.

Module PrunerExtras.
Import Pruner PrunerFacts.

(** Every file of a tree, with the names of the directories that lead to
    it from the root. *)
Fixpoint all_files (d : Dir) : list (list str * str) :=
  match d with
  | MkDir filenames subdirs =>
      map (fun f => ([], f)) filenames ++
      (fix below (l : list (str * Dir)) : list (list str * str) :=
         match l with
         | [] => []
         | (name, sub) :: rest =>
             map (fun pf => (name :: fst pf, snd pf)) (all_files sub) ++ below rest
         end) subdirs
  end.

Fixpoint files_below (l : list (str * Dir)) : list (list str * str) :=
  match l with
  | [] => []
  | (name, sub) :: rest =>
      map (fun pf => (name :: fst pf, snd pf)) (all_files sub) ++ files_below rest
  end.

Lemma all_files_unfold (filenames : list str) (subdirs : list (str * Dir)) :
  all_files (MkDir filenames subdirs)
  = map (fun f => ([], f)) filenames ++ files_below subdirs.
Proof. reflexivity. Qed.

Lemma hollow_no_files (d : Dir) : hollow d = true -> all_files d = [].
Proof.
  induction d as [filenames subdirs IH] using Dir_tree_ind.
  rewrite hollow_unfold, all_files_unfold. intros [Hf Hsubs]%andb_prop.
  destruct filenames; [|done]. simpl.
  induction IH as [|[name sub] rest Hsub _ IHrest]; simpl; [done|].
  simpl in Hsub, Hsubs. apply andb_prop in Hsubs as [Hh Hrest].
  by rewrite Hsub, IHrest.
Qed.

Lemma purge_keeps_files (n : nat) (d : Dir) : all_files (purge n d) = all_files d.
Proof.
  induction d as [filenames subdirs IH] using Dir_tree_ind.
  rewrite purge_unfold, !all_files_unfold. f_equal.
  induction IH as [|[name sub] rest Hsub _ IHrest]; simpl; [done|].
  simpl in Hsub. unfold removed_within.
  destruct (hollow sub) eqn:Hh; simpl.
  - destruct (height sub <? n)%nat; simpl.
    + by rewrite IHrest, (hollow_no_files sub Hh).
    + by rewrite Hsub, IHrest.
  - by rewrite Hsub, IHrest.
Qed.

(** X12: the pruner never removes a file, nor a directory on the way to a
    file: after any number of passes the tree holds the same files under the
    same directory names. *)
Theorem pruner_keeps_files (directory : str) (levels : nat) (t : Dir) :
  well_named t ->
  ∃ t', delete_empty_folders directory levels (Some t) = Return (Some t') ∧
        all_files t' = all_files t.
Proof.
  intros Hwf. eexists. split; [by apply delete_empty_folders_prune|].
  by rewrite iter_prune_purge, purge_keeps_files.
Qed.

Lemma pruner_keeps_files_witness :
  ∃ t', delete_empty_folders (py "src") 10 (Some PrunerTheorems.nested_tree)
          = Return (Some t') ∧
        all_files t' = all_files PrunerTheorems.nested_tree.
Proof.
  apply (pruner_keeps_files (py "src") 10 PrunerTheorems.nested_tree).
  simpl. unfold name_ok. repeat split; done.
Defined.

(** No directory below the root is free of files. *)
Fixpoint hollow_free (d : Dir) : Prop :=
  match d with
  | MkDir _ subdirs =>
      (fix all_kept (l : list (str * Dir)) : Prop :=
         match l with
         | [] => True
         | (_, sub) :: rest => hollow sub = false ∧ hollow_free sub ∧ all_kept rest
         end) subdirs
  end.

Lemma hollow_free_unfold (filenames : list str) (subdirs : list (str * Dir)) :
  hollow_free (MkDir filenames subdirs) <->
  Forall (fun p => hollow (snd p) = false ∧ hollow_free (snd p)) subdirs.
Proof.
  simpl. induction subdirs as [|[name sub] rest IH]; simpl.
  - split; [constructor | done].
  - rewrite Forall_cons, <-IH. simpl. tauto.
Qed.

Lemma max_height_bound (subdirs : list (str * Dir)) (n : nat) :
  max_height subdirs <= n <-> Forall (fun p => height (snd p) < n) subdirs.
Proof.
  induction subdirs as [|[name sub] rest IH]; simpl.
  - split; [constructor | lia].
  - rewrite Forall_cons, <-IH. simpl. lia.
Qed.

(** With as many passes as the tree is deep, nothing file-free is left. *)
Lemma purge_hollow_free (n : nat) (d : Dir) : height d <= n -> hollow_free (purge n d).
Proof.
  induction d as [filenames subdirs IH] using Dir_tree_ind.
  rewrite purge_unfold, height_unfold, hollow_free_unfold, max_height_bound.
  intros Hheight.
  induction IH as [|[name sub] rest Hsub _ IHrest]; simpl; [constructor|].
  apply Forall_cons in Hheight as [Hh Hrest]. simpl in Hsub, Hh.
  unfold removed_within. rewrite (proj2 (Nat.ltb_lt _ _) Hh), andb_true_r.
  destruct (hollow sub) eqn:Hhollow; [by apply IHrest|].
  constructor; [|by apply IHrest]. simpl.
  split; [by apply purge_not_hollow | apply Hsub; lia].
Qed.

(** Further passes change nothing then. *)
Lemma purge_stable (n m : nat) (d : Dir) :
  height d <= n -> n <= m -> purge m d = purge n d.
Proof.
  induction d as [filenames subdirs IH] using Dir_tree_ind.
  rewrite !purge_unfold, height_unfold, max_height_bound.
  intros Hheight Hnm. f_equal.
  induction IH as [|[name sub] rest Hsub _ IHrest]; simpl; [done|].
  apply Forall_cons in Hheight as [Hh Hrest]. simpl in Hsub, Hh.
  unfold removed_within.
  rewrite (proj2 (Nat.ltb_lt _ _) Hh), (proj2 (Nat.ltb_lt (height sub) m)) by lia.
  rewrite IHrest by done. destruct (hollow sub); simpl; [done|].
  by rewrite Hsub by lia.
Qed.

(** X13: when [levels] is at least the nesting depth of the tree, the run
    removes every directory that has no file below it, so that each
    directory left below the root leads to a file; running the pruner again,
    with any number of passes, then changes nothing. *)
Theorem pruner_reaches_fixpoint (directory : str) (levels more : nat) (t : Dir) :
  well_named t ->
  height t <= levels ->
  ∃ t', delete_empty_folders directory levels (Some t) = Return (Some t') ∧
        hollow_free t' ∧
        delete_empty_folders directory more (Some t') = Return (Some t').
Proof.
  intros Hwf Hheight. exists (purge levels t).
  assert (Hrun : ∀ n, delete_empty_folders directory n (Some t) = Return (Some (purge n t))).
  { intros n. rewrite delete_empty_folders_prune by done. by rewrite iter_prune_purge. }
  split; [apply Hrun|]. split; [by apply purge_hollow_free|].
  assert (well_named (purge levels t)) as Hwf'.
  { rewrite <-iter_prune_purge. clear Hheight Hrun.
    induction levels as [|n IH]; simpl; [done|]. by apply prune_well_named. }
  rewrite delete_empty_folders_prune by done. do 2 f_equal.
  assert (prune (purge levels t) = purge levels t) as Hfix.
  { rewrite prune_purge. apply purge_stable; [done | lia]. }
  clear Hrun Hwf'. induction more as [|m IH]; simpl; [done|]. by rewrite IH.
Qed.

Lemma pruner_reaches_fixpoint_witness :
  ∃ t', delete_empty_folders (py "src") 10 (Some PrunerTheorems.nested_tree)
          = Return (Some t') ∧
        hollow_free t' ∧
        delete_empty_folders (py "src") 10 (Some t') = Return (Some t').
Proof.
  apply (pruner_reaches_fixpoint (py "src") 10 10 PrunerTheorems.nested_tree).
  - simpl. unfold name_ok. repeat split; done.
  - simpl. lia.
Defined.

(** X14: a directory directly below the root that has no file below it but
    at least [levels] levels of directories is still there after the run:
    the number of passes, 10 by default, limits how deep an empty chain is
    cleared. *)
Theorem deep_empty_chain_survives (directory : str) (levels : nat)
    (filenames : list str) (subdirs : list (str * Dir)) (name : str) (sub : Dir) :
  well_named (MkDir filenames subdirs) ->
  (name, sub) ∈ subdirs ->
  hollow sub = true ->
  levels <= height sub ->
  ∃ subdirs',
    delete_empty_folders directory levels (Some (MkDir filenames subdirs))
      = Return (Some (MkDir filenames subdirs')) ∧
    (name, purge levels sub) ∈ subdirs' ∧
    height (purge levels sub) = height sub - levels.
Proof.
  intros Hwf Hin Hhollow Hheight.
  exists (purge_subdirs levels subdirs).
  rewrite delete_empty_folders_prune by done.
  rewrite iter_prune_purge, purge_unfold. split; [done|].
  split; [|by apply purge_hollow].
  clear Hwf. induction subdirs as [|[name' sub'] rest IH]; [by apply elem_of_nil in Hin|].
  simpl. apply elem_of_cons in Hin as [[= <- <-] | Hin].
  - unfold removed_within. rewrite (proj2 (Nat.ltb_ge _ _) Hheight), andb_false_r. left.
  - destruct (removed_within levels sub'); [by apply IH|]. right. by apply IH.
Qed.

Lemma deep_empty_chain_survives_witness :
  ∃ subdirs',
    delete_empty_folders (py "src") 2 (Some PrunerTheorems.nested_tree)
      = Return (Some (MkDir [py "notes.txt"] subdirs')) ∧
    (py "a", purge 2 (MkDir [] [(py "b", MkDir [] [(py "c", MkDir [] [])])])) ∈ subdirs' ∧
    height (purge 2 (MkDir [] [(py "b", MkDir [] [(py "c", MkDir [] [])])]))
    = height (MkDir [] [(py "b", MkDir [] [(py "c", MkDir [] [])])]) - 2.
Proof.
  apply (deep_empty_chain_survives (py "src") 2 [py "notes.txt"]
           [(py "a", MkDir [] [(py "b", MkDir [] [(py "c", MkDir [] [])])]);
            (py "keep", MkDir [py "x.jpg"] [])]
           (py "a") (MkDir [] [(py "b", MkDir [] [(py "c", MkDir [] [])])])).
  - simpl. unfold name_ok. repeat split; done.
  - left.
  - reflexivity.
  - simpl. lia.
Defined.

End PrunerExtras.

Module ReconcilerExtras.
Import Reconciler ReconcilerFacts.

Lemma split_go_nonempty_head (sep s : str) :
  ∃ a rest, PyStr.split_go sep 0 s = a :: rest.
Proof.
  pose proof (OrganizerFacts.split_go_nonempty sep 0 s) as Hne.
  destruct (PyStr.split_go sep 0 s) as [|a rest]; [done|]. eauto.
Qed.

(** The copy and its presumed original have the same size. *)
Definition same_size (w : World) (file : str) : Prop :=
  ∃ org size, org_file file = Return org ∧
              Os.path_getsize w org = Return size ∧ Os.path_getsize w file = Return size.

(** The copy and its presumed original differ in size. *)
Definition other_size (w : World) (file : str) : Prop :=
  ∃ org size_org size, org_file file = Return org ∧
                       Os.path_getsize w org = Return size_org ∧
                       Os.path_getsize w file = Return size ∧ size ≠ size_org.

Lemma compare_loop_sound (w : World) (quene : list str)
    (deleted deleted' : list str) (problems problems' : list (str * str)) :
  for_each (compare_step w) (deleted, problems) quene = Return (deleted', problems') ->
  (∀ f, f ∈ deleted' -> f ∈ deleted ∨ f ∈ quene ∧ same_size w f) ∧
  (∀ f reason, (f, reason) ∈ problems' ->
     (f, reason) ∈ problems ∨
     f ∈ quene ∧ (reason = py "Size does not match" ∧ other_size w f
                  ∨ reason = py "No file" ∧ Os.path_isfile w f = false)).
Proof.
  revert deleted problems. induction quene as [|file quene IH]; intros deleted problems.
  - simpl. intros [= <- <-]. split; intros; by left.
  - simpl. unfold compare_step at 1.
    destruct (Os.path_isfile w file) eqn:Hfile.
    + destruct (org_file file) as [org| |] eqn:Horg; simpl; [|done|done].
      destruct (Os.path_getsize w org) as [size_org| |] eqn:Hso; simpl; [|done|done].
      destruct (Os.path_getsize w file) as [size_file| |] eqn:Hsf; simpl; [|done|done].
      case_decide as Hsize; simpl; intros [Hd Hp]%IH.
      * split.
        -- intros f [Hin | [Hin Hs]]%Hd.
           ++ apply elem_of_app in Hin as [Hin | ->%list_elem_of_singleton]; [by left|].
              right. split; [left|]. exists org, size_org. by rewrite Hsf, Hsize.
           ++ right. split; [by right | done].
        -- intros f reason [Hin | [Hin Hr]]%Hp; [by left|]. right. split; [by right | done].
      * split.
        -- intros f [Hin | [Hin Hs]]%Hd; [by left|]. right. split; [by right | done].
        -- intros f reason [Hin | [Hin Hr]]%Hp.
           ++ apply elem_of_app in Hin as [Hin | [= -> ->]%list_elem_of_singleton];
                [by left|].
              right. split; [left|]. left. split; [done|].
              by exists org, size_org, size_file.
           ++ right. split; [by right | done].
    + simpl. intros [Hd Hp]%IH. split.
      * intros f [Hin | [Hin Hs]]%Hd; [by left|]. right. split; [by right | done].
      * intros f reason [Hin | [Hin Hr]]%Hp.
        -- apply elem_of_app in Hin as [Hin | [= -> ->]%list_elem_of_singleton];
             [by left|].
           right. split; [left|]. by right.
        -- right. split; [by right | done].
Qed.

(** X15: when the reconciler returns, a file is in the deleted list only if
    it is a candidate whose size equals that of its presumed original, and
    every entry of the problem list is a candidate whose size differs, with
    the reason "Size does not match": on return the reasons "No file" and
    "Could not be deleted" never occur. *)
Theorem reconciler_outcomes (fuel : nat) (w w' : World) (config : Config)
    (deleted : list str) (problems : list (str * str)) :
  delete_copy_pictures_from_destination fuel w config = Return (w', deleted, problems) ->
  let quene := candidates w (get_all_files_from_source w (destination_path config)) in
  (∀ f, f ∈ deleted -> f ∈ quene ∧ same_size w f) ∧
  (∀ f reason, (f, reason) ∈ problems ->
     f ∈ quene ∧ reason = py "Size does not match" ∧ other_size w f).
Proof.
  intros Hrun. cbv zeta. unfold delete_copy_pictures_from_destination in Hrun.
  cbv zeta in Hrun.
  set (quene := candidates w (get_all_files_from_source w (destination_path config))) in *.
  destruct (for_each (compare_step w) ([], []) quene) as [[deleted0 problems0]| |] eqn:Hcmp;
    simpl in Hrun; [|done|done].
  destruct (delete_loop fuel w deleted0 0) as [[[w1 del_files] counter]| |] eqn:Hdel;
    simpl in Hrun; [|done|done].
  apply delete_loop_exit in Hdel as [-> _]. simpl in Hrun.
  case_decide; [|done]. injection Hrun as <- <- <-.
  apply compare_loop_sound in Hcmp as [Hd Hp]. split.
  - intros f [Hin | Hin]%Hd; [by apply elem_of_nil in Hin | done].
  - intros f reason [Hin | [Hin [Hr | [_ Hnofile]]]]%Hp.
    + by apply elem_of_nil in Hin.
    + by destruct Hr.
    + apply candidates_spec in Hin as (_ & Hfile & _). congruence.
Qed.

Lemma reconciler_outcomes_witness :
  let w := ReconcilerTheorems.copies_world in
  let quene := candidates w (get_all_files_from_source w (py "out")) in
  (∀ f, f ∈ [py "out/2021/a_Kopie(1).jpg"; py "out/MeineKopie.jpg"] ->
        f ∈ quene ∧ same_size w f) ∧
  (∀ f reason, (f, reason) ∈ [(py "out/Kopien/x.png", py "Size does not match");
                              (py "out/2021/a_Kopie(2).jpg", py "Size does not match")] ->
     f ∈ quene ∧ reason = py "Size does not match" ∧ other_size w f).
Proof.
  destruct (returns_checked3
              (delete_copy_pictures_from_destination 11 ReconcilerTheorems.copies_world
                 ReconcilerTheorems.sample_config)
              [py "out/2021/a_Kopie(1).jpg"; py "out/MeineKopie.jpg"]
              [(py "out/Kopien/x.png", py "Size does not match");
               (py "out/2021/a_Kopie(2).jpg", py "Size does not match")]
              (fun _ => True)) as (w' & Hrun & _); [vm_compute; reflexivity|].
  exact (reconciler_outcomes 11 ReconcilerTheorems.copies_world w'
           ReconcilerTheorems.sample_config _ _ Hrun).
Defined.

(** *** What the deletion pass does to the filesystem *)

(** The state of the pass, [w] and [l], against the state it started from:
    files only disappear, only listed ones, and a listed file that has left
    the list is gone. *)
Record pass_inv (w0 : World) (l0 : list str) (w : World) (l : list str) : Prop := {
  inv_sub : ∀ p z, files w !! p = Some z -> files w0 !! p = Some z;
  inv_other : ∀ p, p ∉ l0 -> files w !! p = files w0 !! p;
  inv_list : ∀ f, f ∈ l -> f ∈ l0;
  inv_gone : ∀ f, f ∈ l0 -> f ∈ l ∨ Os.path_exists w f = false;
  inv_dirs : dirs w = dirs w0;
}.

Lemma pass_inv_refl (w : World) (l : list str) : pass_inv w l w l.
Proof. split; auto. Qed.

Lemma remove_first_sub (x f : str) (l : list str) :
  x ∈ list_remove_first f l -> x ∈ l.
Proof.
  induction l as [|y l IH]; simpl; [done|].
  case_decide; [by right|].
  intros [-> | Hin]%elem_of_cons; [left | right; by apply IH].
Qed.

Lemma remove_first_other (x f : str) (l : list str) :
  x ∈ l -> x ≠ f -> x ∈ list_remove_first f l.
Proof.
  induction l as [|y l IH]; simpl; [done|].
  intros [-> | Hin]%elem_of_cons Hne.
  - rewrite decide_False by done. left.
  - case_decide; [done|]. right. by apply IH.
Qed.

Lemma remove_effect (w w1 : World) (f : str) :
  Os.remove w f = Return w1 ->
  w1 = w ∨ w1 = set_files w (delete f (files w)).
Proof.
  unfold Os.remove. repeat case_match; try done; intros [= <-]; auto.
Qed.

Lemma for_del_inv (w0 : World) (l0 : list str) (steps : nat) (w w' : World)
    (l l' : list str) (i : nat) :
  pass_inv w0 l0 w l ->
  for_del steps w l i = Return (w', l') ->
  pass_inv w0 l0 w' l'.
Proof.
  revert w l i. induction steps as [|steps IH]; intros w l i Hinv; simpl.
  - destruct (l !! i); [done|]. by intros [= <- <-].
  - destruct (l !! i) as [file|] eqn:Hfile; [|by intros [= <- <-]].
    apply list_elem_of_lookup_2 in Hfile.
    destruct (Os.path_exists w file) eqn:Hex.
    + destruct (Os.remove w file) as [w1| |] eqn:Hrm; simpl; [|done|done].
      apply IH. apply remove_effect in Hrm as [-> | ->]; [done|].
      destruct Hinv as [Hsub Hother Hlist Hgone Hdirs]. split; simpl.
      * intros p z Hp. apply Hsub. apply lookup_delete_Some in Hp. tauto.
      * intros p Hp. rewrite lookup_delete_ne; [by apply Hother|].
        intros ->. apply Hp. by apply Hlist.
      * done.
      * intros f [Hin | Hno]%Hgone; [by left|]. right.
        revert Hno. unfold Os.path_exists, Os.path_isfile, Os.path_isdir. simpl.
        rewrite !orb_false_iff, !bool_decide_eq_false. intros [Hnf Hnd]. split; [|done].
        intros [z Hz]. apply Hnf. apply lookup_delete_Some in Hz as [_ Hz]. by eexists.
      * done.
    + apply IH. destruct Hinv as [Hsub Hother Hlist Hgone Hdirs]. split; try done.
      * intros f Hin%remove_first_sub. by apply Hlist.
      * intros f [Hin | Hno]%Hgone; [|by right].
        destruct (decide (f = file)) as [-> | Hne]; [by right|].
        left. by apply remove_first_other.
Qed.

Lemma delete_loop_inv (w0 : World) (l0 : list str) (fuel : nat) (w w' : World)
    (l l' : list str) (counter counter' : nat) :
  pass_inv w0 l0 w l ->
  delete_loop fuel w l counter = Return (w', l', counter') ->
  pass_inv w0 l0 w' l'.
Proof.
  revert w l counter. induction fuel as [|fuel IH]; intros w l counter Hinv; simpl.
  - destruct (_ || _); [done|]. by intros [= <- <- <-].
  - destruct (_ || _); [|by intros [= <- <- <-]].
    destruct (for_del _ w l 0) as [[w1 l1]| |] eqn:Hfor; simpl; [|done|done].
    apply IH. by eapply for_del_inv.
Qed.

(** X16: when the reconciler returns, the files of its deleted list are gone
    and nothing else has changed: every other file, the mismatching copies
    and the presumed originals among them, is still there with its size, and
    no directory is touched. *)
Theorem reconciler_effect (fuel : nat) (w w' : World) (config : Config)
    (deleted : list str) (problems : list (str * str)) :
  delete_copy_pictures_from_destination fuel w config = Return (w', deleted, problems) ->
  (∀ p, p ∈ deleted -> files w' !! p = None) ∧
  (∀ p, p ∉ deleted -> files w' !! p = files w !! p) ∧
  dirs w' = dirs w.
Proof.
  unfold delete_copy_pictures_from_destination. cbv zeta.
  destruct (for_each _ _ _) as [[deleted0 problems0]| |]; simpl; [|done|done].
  destruct (delete_loop fuel w deleted0 0) as [[[w1 del_files] counter]| |] eqn:Hdel;
    simpl; [|done|done].
  pose proof (delete_loop_exit _ _ _ _ _ _ _ Hdel) as [-> _].
  apply (delete_loop_inv w deleted0) in Hdel; [|apply pass_inv_refl].
  simpl. case_decide; [|done]. intros [= <- <- <-].
  destruct Hdel as [Hsub Hother Hlist Hgone Hdirs]. split_and!; [|done|done].
  intros p [Hin | Hno]%Hgone; [by apply elem_of_nil in Hin|].
  revert Hno. unfold Os.path_exists, Os.path_isfile.
  rewrite orb_false_iff, bool_decide_eq_false. intros [Hnf _].
  destruct (files w1 !! p) eqn:E; [|done]. exfalso. apply Hnf. by eexists.
Qed.

Lemma reconciler_effect_witness :
  ∃ w',
    (∀ p, p ∈ [py "out/2021/a_Kopie(1).jpg"; py "out/MeineKopie.jpg"] ->
          files w' !! p = None) ∧
    (∀ p, p ∉ [py "out/2021/a_Kopie(1).jpg"; py "out/MeineKopie.jpg"] ->
          files w' !! p = files ReconcilerTheorems.copies_world !! p) ∧
    dirs w' = dirs ReconcilerTheorems.copies_world.
Proof.
  destruct (returns_checked3
              (delete_copy_pictures_from_destination 11 ReconcilerTheorems.copies_world
                 ReconcilerTheorems.sample_config)
              [py "out/2021/a_Kopie(1).jpg"; py "out/MeineKopie.jpg"]
              [(py "out/Kopien/x.png", py "Size does not match");
               (py "out/2021/a_Kopie(2).jpg", py "Size does not match")]
              (fun _ => True)) as (w' & Hrun & _); [vm_compute; reflexivity|].
  exists w'.
  exact (reconciler_effect 11 ReconcilerTheorems.copies_world w'
           ReconcilerTheorems.sample_config _ _ Hrun).
Defined.

(** *** A copy without its original *)

Lemma org_file_returns (file : str) : ∃ org, org_file file = Return org.
Proof.
  unfold org_file, PyStr.index, PyStr.index_last, PyStr.split.
  pose proof (split_go_nonempty_head (py "Kopie") file) as [a [rest ->]].
  pose proof (split_go_nonempty_head ["."] file) as [b [rest' Hb]].
  simpl. destruct (last (PyStr.split_go ["."] 0 file)) as [e|] eqn:E; simpl.
  - by eexists.
  - apply last_None in E. congruence.
Qed.


Lemma getsize_outcome (w : World) (p : str) :
  (∃ size, Os.path_getsize w p = Return size) ∨
  Os.path_getsize w p = Raise FileNotFoundError ∧ Os.path_exists w p = false.
Proof.
  unfold Os.path_getsize, Os.path_exists, Os.path_isfile.
  destruct (files w !! p) eqn:E; [left; by eexists|].
  destruct (Os.path_isdir w p); [left; by eexists|].
  right. split; [done|]. rewrite orb_false_r. apply bool_decide_eq_false. by intros [? ?].
Qed.




(** *** Termination on a filesystem where removals take effect *)

(** The listed files can be removed, and a removal shows at once. *)
Definition removable (w : World) (l : list str) : Prop :=
  ∀ f, f ∈ l -> f ∉ locked w ∧ f ∉ sticky w ∧ f ∉ dirs w.

(** The work left: the entries of the list plus those still present. *)
Definition work_left (w : World) (l : list str) : nat :=
  length l + length (List.filter (Os.path_exists w) l).

Lemma filter_length_le {A} (p q : A -> bool) (l : list A) :
  (∀ y, q y = true -> p y = true) ->
  length (List.filter q l) <= length (List.filter p l).
Proof.
  intros Hqp. induction l as [|y l IH]; simpl; [done|].
  destruct (q y) eqn:Hq; [rewrite (Hqp y Hq); simpl; lia|].
  destruct (p y); simpl; lia.
Qed.

Lemma filter_length_lt {A} (p q : A -> bool) (l : list A) (x : A) :
  (∀ y, q y = true -> p y = true) ->
  x ∈ l -> p x = true -> q x = false ->
  length (List.filter q l) < length (List.filter p l).
Proof.
  intros Hqp Hin Hp Hq. induction l as [|y l IH]; [by apply elem_of_nil in Hin|].
  simpl. apply elem_of_cons in Hin as [<- | Hin].
  - rewrite Hp, Hq. simpl. pose proof (filter_length_le p q l Hqp). lia.
  - specialize (IH Hin). destruct (q y) eqn:Hqy; [rewrite (Hqp y Hqy); simpl; lia|].
    destruct (p y); simpl; lia.
Qed.

Lemma remove_first_length (f : str) (l : list str) :
  f ∈ l -> S (length (list_remove_first f l)) = length l.
Proof.
  induction l as [|y l IH]; [by intros ?%elem_of_nil|]. simpl.
  case_decide as Hfy; [done|].
  intros [-> | Hin]%elem_of_cons; [done|]. simpl. by rewrite IH.
Qed.

Lemma remove_first_filter (p : str -> bool) (f : str) (l : list str) :
  p f = false -> List.filter p (list_remove_first f l) = List.filter p l.
Proof.
  intros Hp. induction l as [|y l IH]; simpl; [done|].
  case_decide as Hfy; [subst y; by rewrite Hp|].
  simpl. by rewrite IH.
Qed.

Lemma for_del_progress (steps : nat) (w : World) (l : list str) (i : nat) :
  removable w l ->
  length l <= steps + i ->
  ∃ w' l',
    for_del steps w l i = Return (w', l') ∧
    removable w' l' ∧
    work_left w' l' + (if decide (i < length l) then 1 else 0) <= work_left w l.
Proof.
  revert w l i. induction steps as [|steps IH]; intros w l i Hrem Hlen.
  - assert (l !! i = None) as Hnone by (apply lookup_ge_None; lia).
    simpl. rewrite Hnone. exists w, l. rewrite decide_False by lia.
    split_and!; [done|done|lia].
  - simpl. destruct (l !! i) as [file|] eqn:Hfile.
    2: { apply lookup_ge_None in Hfile. exists w, l. rewrite decide_False by lia.
         split_and!; [done|done|lia]. }
    pose proof (lookup_lt_Some _ _ _ Hfile) as Hi.
    apply list_elem_of_lookup_2 in Hfile.
    destruct (Hrem file Hfile) as (Hlocked & Hsticky & Hdir).
    rewrite decide_True by done.
    destruct (Os.path_exists w file) eqn:Hex.
    + assert (Os.path_isfile w file = true) as Hisfile.
      { revert Hex. unfold Os.path_exists, Os.path_isdir.
        rewrite (bool_decide_eq_false_2 (file ∈ dirs w)) by done.
        by rewrite orb_false_r. }
      unfold Os.remove. rewrite Hisfile.
      rewrite !bool_decide_eq_false_2 by done. simpl.
      set (w1 := set_files w (delete file (files w))).
      assert (Hmono : ∀ y, Os.path_exists w1 y = true -> Os.path_exists w y = true).
      { intros y. unfold Os.path_exists, Os.path_isfile, Os.path_isdir. simpl.
        rewrite !orb_true_iff, !bool_decide_eq_true.
        intros [[z Hz] | Hd]; [left | by right].
        apply lookup_delete_Some in Hz as [_ Hz]. by eexists. }
      assert (Os.path_exists w1 file = false) as Hgone.
      { unfold Os.path_exists, Os.path_isfile, Os.path_isdir. simpl.
        rewrite lookup_delete_eq, (bool_decide_eq_false_2 (file ∈ dirs w)) by done.
        rewrite orb_false_r. apply bool_decide_eq_false. by intros [? ?]. }
      destruct (IH w1 l (S i)) as (w' & l' & Hrun & Hrem' & Hwork); [done|lia|].
      exists w', l'. split_and!; [done|done|].
      pose proof (filter_length_lt (Os.path_exists w) (Os.path_exists w1) l file
                    Hmono Hfile Hex Hgone).
      unfold work_left in *. destruct (decide (S i < length l)); lia.
    + destruct (IH w (list_remove_first file l) (S i)) as (w' & l' & Hrun & Hrem' & Hwork).
      * intros f Hf%remove_first_sub. by apply Hrem.
      * pose proof (remove_first_length file l Hfile). lia.
      * exists w', l'. split_and!; [done|done|].
        pose proof (remove_first_length file l Hfile).
        unfold work_left in *. rewrite (remove_first_filter _ _ _ Hex) in Hwork.
        destruct (decide (S i < length (list_remove_first file l))); lia.
Qed.

Lemma delete_loop_terminates (fuel : nat) (w : World) (l : list str) (counter : nat) :
  removable w l ->
  work_left w l + (10 - counter) <= fuel ->
  ∃ w' counter', delete_loop fuel w l counter = Return (w', [], counter').
Proof.
  revert w l counter. induction fuel as [|fuel IH]; intros w l counter Hrem Hfuel.
  - simpl. unfold work_left in Hfuel.
    destruct l as [|f l]; [|simpl in Hfuel; lia].
    rewrite (proj2 (Nat.ltb_ge counter 10)) by lia. simpl. eauto.
  - simpl. destruct (_ || _) eqn:Hcond.
    + destruct (for_del_progress (length l) w l 0 Hrem) as (w1 & l1 & -> & Hrem1 & Hwork);
        [lia|]. simpl.
      apply IH; [done|].
      apply orb_prop in Hcond as [Hl%Nat.ltb_lt | Hc%Nat.ltb_lt].
      * rewrite decide_True in Hwork by done. lia.
      * destruct (decide (0 < length l)); lia.
    + apply orb_false_elim in Hcond as [Hl%Nat.ltb_ge _].
      destruct l; [eauto | simpl in Hl; lia].
Qed.

(** X18: when no candidate is locked, lagging or a directory and the
    presumed original of every candidate exists, the reconciler returns;
    twice the number of candidates plus ten passes of the deletion loop are
    enough in every case. *)
Theorem reconciler_terminates (fuel : nat) (w : World) (config : Config) :
  let quene := candidates w (get_all_files_from_source w (destination_path config)) in
  removable w quene ->
  (∀ f org, f ∈ quene -> org_file f = Return org -> Os.path_exists w org = true) ->
  2 * length quene + 10 <= fuel ->
  ∃ w' deleted problems,
    delete_copy_pictures_from_destination fuel w config = Return (w', deleted, problems).
Proof.
  intros quene Hrem Horg Hfuel. unfold delete_copy_pictures_from_destination. cbv zeta.
  fold quene.
  assert (Hcmp : ∀ l st, (∀ f, f ∈ l -> f ∈ quene) ->
            ∃ st', for_each (compare_step w) st l = Return st').
  { induction l as [|f l IH]; intros [deleted problems] Hl; simpl; [by eexists|].
    assert (f ∈ quene) as Hf by (apply Hl; left).
    unfold compare_step at 1.
    pose proof (proj1 (candidates_spec _ _ _) Hf) as (_ & Hfile & _). rewrite Hfile.
    destruct (org_file_returns f) as [org Horgf]. rewrite Horgf. simpl.
    specialize (Horg f org Hf Horgf).
    destruct (getsize_outcome w org) as [[size_org ->] | [_ Hno]]; [|congruence]. simpl.
    destruct (getsize_outcome w f) as [[size_file ->] | [_ Hno]]; simpl.
    2: { revert Hno. unfold Os.path_exists. by rewrite Hfile. }
    case_decide; simpl; apply IH; intros y Hy; apply Hl; by right. }
  destruct (Hcmp quene ([], [])) as [[deleted problems] Hrun]; [done|].
  rewrite Hrun. simpl.
  pose proof (compare_loop_lengths _ _ _ _ _ _ Hrun) as Hlen. simpl in Hlen.
  apply compare_loop_sound in Hrun as [Hd _].
  assert (removable w deleted) as Hremd.
  { intros f [Hin | [Hin _]]%Hd; [by apply elem_of_nil in Hin | by apply Hrem]. }
  destruct (delete_loop_terminates fuel w deleted 0 Hremd) as (w' & counter' & ->).
  { unfold work_left.
    pose proof (List.filter_length_le (Os.path_exists w) deleted) as Hle. lia. }
  simpl. rewrite decide_True by lia. eauto.
Qed.

Lemma reconciler_terminates_witness :
  ∃ w' deleted problems,
    delete_copy_pictures_from_destination 18 ReconcilerTheorems.copies_world
      ReconcilerTheorems.sample_config = Return (w', deleted, problems).
Proof.
  apply (reconciler_terminates 18 ReconcilerTheorems.copies_world
           ReconcilerTheorems.sample_config).
  - intros f Hf%list_elem_of_In.
    assert (forallb (fun f =>
              bool_decide (f ∉ locked ReconcilerTheorems.copies_world ∧
                           f ∉ sticky ReconcilerTheorems.copies_world ∧
                           f ∉ dirs ReconcilerTheorems.copies_world))
              (candidates ReconcilerTheorems.copies_world
                 (get_all_files_from_source ReconcilerTheorems.copies_world
                    (destination_path ReconcilerTheorems.sample_config))) = true) as Hall
      by (vm_compute; reflexivity).
    rewrite forallb_forall in Hall. exact (bool_decide_eq_true_1 _ (Hall f Hf)).
  - intros f org Hf%list_elem_of_In Horg.
    assert (forallb (fun f =>
              match org_file f with
              | Return org => Os.path_exists ReconcilerTheorems.copies_world org
              | _ => true
              end)
              (candidates ReconcilerTheorems.copies_world
                 (get_all_files_from_source ReconcilerTheorems.copies_world
                    (destination_path ReconcilerTheorems.sample_config))) = true) as Hall
      by (vm_compute; reflexivity).
    rewrite forallb_forall in Hall. specialize (Hall f Hf). by rewrite Horg in Hall.
  - vm_compute. lia.
Defined.

End ReconcilerExtras.

(** ** [get_size_of_directory] *)

Module DirectorySize.
Import Reconciler.

(** [os.walk(top)], top-down, on a filesystem that does not change during
    the walk. *)
Fixpoint walk_topdown (depth : nat) (w : World) (top : str)
    : list (str * list str * list str) :=
  match depth with
  | O => []
  | S depth' =>
      if Os.path_isdir w top then
        let '(dirnames, filenames) := scandir w top in
        (top, dirnames, filenames)
        :: flat_map (fun name => walk_topdown depth' w (OsPath.join top name)) dirnames
      else []
  end.

Definition os_walk_topdown (w : World) (top : str) : list (str * list str * list str) :=
  walk_topdown (S (size (dirs w))) w top.

(** [fp = os.path.join(path, f); total_size += os.path.getsize(fp)] *)
Definition add_size (w : World) (path : str) (total_size : Z) (f : str) : Result Z :=
  size ← Os.path_getsize w (OsPath.join path f);
  Return (total_size + size)%Z.

(** The result is [None] for a path that does not exist. *)
Definition get_size_of_directory (w : World) (start_path : str) : Result (option Z) :=
  if negb (Os.path_exists w start_path) then Return None
  else
    total_size ← for_each (fun total_size '(path, _, filenames) =>
                             for_each (add_size w path) total_size filenames)
                          0%Z (os_walk_topdown w start_path);
    Return (Some total_size).

End DirectorySize.

Module DirectorySizeExtras.
Import Reconciler DirectorySize.

#[local] Arguments scandir : simpl never.

(** The size of a regular file. *)
Definition size_of (w : World) (p : str) : Z := default 0%Z (files w !! p).

Definition sum_sizes (w : World) (l : list str) : Z :=
  foldr Z.add 0%Z (map (size_of w) l).

(** The paths of the regular entries that a walk reports. *)
Definition reported (triples : list (str * list str * list str)) : list str :=
  flat_map (fun '(root, _, filenames) => map (OsPath.join root) filenames) triples.

(** A triple as [os.walk] produces it for the directory [root]. *)
Definition scanned (w : World) (triple : str * list str * list str) : Prop :=
  ∃ root, triple = (root, (scandir w root).1, (scandir w root).2).

Lemma entry_join (top p name : str) :
  entry_name top p = Some name -> OsPath.join top name = p.
Proof.
  unfold entry_name. destruct (PyStr.startswith _ p) eqn:Hstart; [|done].
  apply startswith_prefix in Hstart as [r ->]. rewrite drop_app_length.
  destruct (bool_decide (r ≠ [])) eqn:Hr; [|done].
  destruct (bool_decide (OsPath.sep ∉ r)) eqn:Hsep; [|done]. simpl.
  intros [= <-]. apply bool_decide_eq_true in Hr, Hsep.
  destruct r as [|c r]; [done|].
  unfold OsPath.join, child_prefix. simpl.
  destruct (decide (OsPath.sep = c)) as [<- | _]; [exfalso; apply Hsep; left|].
  destruct (bool_decide (top = []) || PyStr.endswith [OsPath.sep] top); [done|].
  by rewrite <-app_assoc.
Qed.

Lemma scanned_file (w : World) (root name : str) :
  name ∈ (scandir w root).2 -> is_Some (files w !! OsPath.join root name).
Proof.
  unfold scandir. simpl. intros (p & Hp & Hname)%list_elem_of_omap.
  apply entry_join in Hname as ->. by apply elem_of_elements, elem_of_dom in Hp.
Qed.

Lemma scanned_dir (w : World) (root name : str) :
  name ∈ (scandir w root).1 -> OsPath.join root name ∈ dirs w.
Proof.
  unfold scandir. simpl. intros (p & Hp & Hname)%list_elem_of_omap.
  apply entry_join in Hname as ->. by apply elem_of_elements in Hp.
Qed.

Lemma walk_S (depth : nat) (w : World) (top : str) :
  walk (S depth) w top =
  if Os.path_isdir w top then
    flat_map (fun name => walk depth w (OsPath.join top name)) (scandir w top).1
    ++ [(top, (scandir w top).1, (scandir w top).2)]
  else [].
Proof. reflexivity. Qed.

Lemma walk_topdown_S (depth : nat) (w : World) (top : str) :
  walk_topdown (S depth) w top =
  if Os.path_isdir w top then
    (top, (scandir w top).1, (scandir w top).2)
    :: flat_map (fun name => walk_topdown depth w (OsPath.join top name)) (scandir w top).1
  else [].
Proof. reflexivity. Qed.

Lemma walk_scanned (depth : nat) (w : World) (top : str) :
  Forall (scanned w) (walk depth w top).
Proof.
  revert top. induction depth as [|depth IH]; intros top; [done|].
  rewrite walk_S. destruct (Os.path_isdir w top); [|done].
  apply Forall_app. split.
  - apply Forall_flat_map. apply Forall_forall. intros name Hname. apply IH.
  - apply Forall_singleton. by exists top.
Qed.

Lemma walk_topdown_scanned (depth : nat) (w : World) (top : str) :
  Forall (scanned w) (walk_topdown depth w top).
Proof.
  revert top. induction depth as [|depth IH]; intros top; [done|].
  rewrite walk_topdown_S. destruct (Os.path_isdir w top); [|done].
  apply Forall_cons. split.
  - by exists top.
  - apply Forall_flat_map. apply Forall_forall. intros name Hname. apply IH.
Qed.

Lemma sum_sizes_app (w : World) (l1 l2 : list str) :
  sum_sizes w (l1 ++ l2) = (sum_sizes w l1 + sum_sizes w l2)%Z.
Proof.
  unfold sum_sizes. induction l1 as [|f l1 IH]; simpl; [done|]. rewrite IH. lia.
Qed.

Lemma reported_app (t1 t2 : list (str * list str * list str)) :
  reported (t1 ++ t2) = reported t1 ++ reported t2.
Proof. unfold reported. by rewrite flat_map_app. Qed.

Lemma reported_cons (root : str) (dirnames filenames : list str)
    (t : list (str * list str * list str)) :
  reported ((root, dirnames, filenames) :: t) =
  map (OsPath.join root) filenames ++ reported t.
Proof. reflexivity. Qed.

(** The two directions of the walk report the same files, up to order. *)
Lemma walk_same_total (depth : nat) (w : World) (top : str) :
  sum_sizes w (reported (walk_topdown depth w top)) =
  sum_sizes w (reported (walk depth w top)).
Proof.
  revert top. induction depth as [|depth IH]; intros top; [done|].
  rewrite walk_S, walk_topdown_S. destruct (Os.path_isdir w top); [|done].
  rewrite reported_app, !reported_cons, !sum_sizes_app.
  assert (sum_sizes w (reported (flat_map
            (fun name => walk_topdown depth w (OsPath.join top name)) (scandir w top).1)) =
          sum_sizes w (reported (flat_map
            (fun name => walk depth w (OsPath.join top name)) (scandir w top).1))) as ->.
  { induction (scandir w top).1 as [|name dirnames IHd]; simpl; [done|].
    by rewrite !reported_app, !sum_sizes_app, IH, IHd. }
  change (reported []) with (@nil str). unfold sum_sizes at 5. simpl. lia.
Qed.

Lemma add_size_file (w : World) (root name : str) (total size : Z) :
  files w !! OsPath.join root name = Some size ->
  add_size w root total name = Return (total + size)%Z.
Proof. intros Hsize. unfold add_size, Os.path_getsize. by rewrite Hsize. Qed.

(** The inner loop adds the sizes of the regular entries of one directory. *)
Lemma add_sizes (w : World) (root : str) (filenames : list str) (total : Z) :
  (∀ name, name ∈ filenames -> is_Some (files w !! OsPath.join root name)) ->
  for_each (add_size w root) total filenames =
  Return (total + sum_sizes w (map (OsPath.join root) filenames))%Z.
Proof.
  revert total. induction filenames as [|name filenames IH]; intros total Hfiles.
  - simpl. f_equal. unfold sum_sizes. simpl. lia.
  - destruct (Hfiles name) as [size Hsize]; [left|].
    cbn [for_each]. rewrite (add_size_file w root name total size Hsize).
    change (Return (total + size)%Z ≫= ?k) with (k (total + size)%Z). cbv beta.
    rewrite IH by (intros ? ?; apply Hfiles; by right).
    f_equal. unfold sum_sizes, size_of. cbn [map foldr]. rewrite Hsize.
    change (default 0%Z (Some size)) with size. lia.
Qed.

Lemma add_all_sizes (w : World) (triples : list (str * list str * list str)) (total : Z) :
  Forall (scanned w) triples ->
  for_each (fun total_size '(path, _, filenames) =>
              for_each (add_size w path) total_size filenames) total triples =
  Return (total + sum_sizes w (reported triples))%Z.
Proof.
  revert total. induction triples as [|triple triples IH]; intros total Hall.
  - simpl. f_equal. unfold sum_sizes. simpl. lia.
  - apply Forall_cons in Hall as [[root ->] Hall]. simpl.
    rewrite add_sizes by apply scanned_file. simpl.
    rewrite IH by done. f_equal. rewrite sum_sizes_app. lia.
Qed.

(** Of what a walk reports, the listing keeps the regular entries. *)
Lemma listing_is_reported (w : World) (triples : list (str * list str * list str)) :
  dom (files w) ## dirs w ->
  Forall (scanned w) triples ->
  List.filter (Os.path_isfile w)
    (flat_map (fun '(root, dirnames, filenames) =>
                 map (OsPath.join root) filenames ++ map (OsPath.join root) dirnames)
              triples) = reported triples.
Proof.
  intros Hdisj. induction 1 as [|triple triples [root ->] _ IH]; [done|].
  rewrite reported_cons, <-IH. cbn [flat_map]. rewrite !List.filter_app. f_equal.
  assert (List.filter (Os.path_isfile w) (map (OsPath.join root) (scandir w root).2)
          = map (OsPath.join root) (scandir w root).2) as ->.
  { apply List.forallb_filter_id, forallb_forall.
    intros p (name & <- & Hname%list_elem_of_In%scanned_file)%in_map_iff.
    by apply bool_decide_eq_true. }
  assert (List.filter (Os.path_isfile w) (map (OsPath.join root) (scandir w root).1)
          = []) as ->; [|by rewrite app_nil_r].
  assert (∀ name, name ∈ (scandir w root).1 ->
            Os.path_isfile w (OsPath.join root name) = false) as Hdirs.
  { intros name Hname%scanned_dir. apply bool_decide_eq_false.
    intros Hfile%elem_of_dom. by apply (Hdisj (OsPath.join root name)). }
  induction (scandir w root).1 as [|name names IHn]; [done|]. simpl.
  rewrite Hdirs by left. apply IHn. intros ? ?. apply Hdirs. by right.
Qed.

(** X19: on a filesystem where no path is both a regular file and a
    directory, the size reported for an existing path is the total of the
    sizes of the files that [get_all_files_from_source] lists for it. *)
Theorem size_is_total_of_listed_files (w : World) (start_path : str) :
  dom (files w) ## dirs w ->
  Os.path_exists w start_path = true ->
  get_size_of_directory w start_path =
  Return (Some (sum_sizes w (get_all_files_from_source w start_path))) ∧
  Forall (fun file => is_Some (files w !! file)) (get_all_files_from_source w start_path).
Proof.
  intros Hdisj Hexists. split.
  - unfold get_size_of_directory, get_all_files_from_source. rewrite Hexists. simpl.
    rewrite add_all_sizes by apply walk_topdown_scanned. simpl.
    rewrite listing_is_reported by (done || apply walk_scanned).
    unfold os_walk_topdown, os_walk. by rewrite walk_same_total.
  - apply Forall_forall. intros file Hfile%ReconcilerFacts.all_files_are_files.
    by apply bool_decide_eq_true in Hfile.
Qed.

Lemma size_is_total_of_listed_files_witness :
  get_size_of_directory ReconcilerTheorems.copies_world (py "out") =
  Return (Some (sum_sizes ReconcilerTheorems.copies_world
                  (get_all_files_from_source ReconcilerTheorems.copies_world (py "out")))) ∧
  Forall (fun file => is_Some (files ReconcilerTheorems.copies_world !! file))
    (get_all_files_from_source ReconcilerTheorems.copies_world (py "out")).
Proof.
  apply (size_is_total_of_listed_files ReconcilerTheorems.copies_world (py "out")).
  - apply (bool_decide_unpack _). vm_compute. reflexivity.
  - vm_compute. reflexivity.
Defined.

(** The sample tree holds 45 bytes in six files. *)
Example size_of_sample_tree :
  get_size_of_directory ReconcilerTheorems.copies_world (py "out") = Return (Some 45%Z) ∧
  get_size_of_directory ReconcilerTheorems.copies_world (py "elsewhere") = Return None.
Proof. split; vm_compute; reflexivity. Qed.

End DirectorySizeExtras.

(** ** The prompts: [await_user_input], [await_user_input_from_list_decision] *)

Module Prompt.

(** How a prompt can fail: [input] at the end of standard input, [int] on
    text that is no number, a list index out of range. *)
Inductive failure := EOFError | ValueError | IndexOutOfRange.

(** The outcome of a prompt: the answer and the lines that are still
    unread, or a failure. *)
Inductive Asked (A : Type) :=
  | Answered (a : A) (rest : list str)
  | Failed (e : failure).
Arguments Answered {A} a rest.
Arguments Failed {A} e.

(** The elements of [allowed_answers] are numbers or strings; [str(element)]
    renders them. *)
Inductive Answer := AInt (n : nat) | AStr (s : str).

Definition str_of (element : Answer) : str :=
  match element with
  | AInt n => PyStr.of_nat n
  | AStr s => s
  end.

(** The loop [while good_to_go != True] reads one line per round; [typed]
    holds the lines on standard input. *)
Fixpoint await_user_input (typed : list str) (allowed_answers : option (list Answer))
    : Asked str :=
  match typed with
  | [] => Failed EOFError
  | inp :: rest =>
      match allowed_answers with
      | Some allowed =>
          let allowed_answers_str_list := map str_of allowed in
          if bool_decide (inp ∈ allowed_answers_str_list) then Answered inp rest
          else await_user_input rest allowed_answers
      | None => Answered inp rest
      end
  end.

(** Comparison of two strings, code point by code point. *)
Fixpoint str_leb (a b : str) : bool :=
  match a, b with
  | [], _ => true
  | _ :: _, [] => false
  | x :: a', y :: b' =>
      if (N_of_ascii x <? N_of_ascii y)%N then true
      else if (N_of_ascii y <? N_of_ascii x)%N then false
      else str_leb a' b'
  end.

Definition str_le (a b : str) : Prop := str_leb a b = true.

#[global] Instance str_le_dec (a b : str) : Decision (str_le a b).
Proof. unfold str_le. apply _. Defined.

(** [sorted(l)] for a list of strings. *)
Definition sorted (l : list str) : list str := merge_sort str_le l.

Definition digit_value (c : ascii) : option N :=
  let n := N_of_ascii c in
  if (48 <=? n)%N && (n <=? 57)%N then Some (n - 48)%N else None.

Fixpoint int_go (acc : N) (s : str) : option N :=
  match s with
  | [] => Some acc
  | c :: s' => d ← digit_value c; int_go (acc * 10 + d) s'
  end.

(** [int(s)] for a run of decimal digits, the only form that reaches the
    call in the program: the text has just been found among the renderings
    of the indexes.  What else [int] accepts, a sign, blanks around the
    number, underscores between digits, counts as no number here. *)
Definition int (s : str) : option nat :=
  match s with
  | [] => None
  | _ => N.to_nat <$> int_go 0 s
  end.

Definition await_user_input_from_list_decision (typed : list str)
    (list_to_decide : list str) : Asked (option str) :=
  match list_to_decide with
  | [] => Answered None typed
  | [only] => Answered (Some only) typed
  | _ =>
      let indexes := seq 0 (length list_to_decide) in
      let sorted_list := sorted list_to_decide in
      match await_user_input typed (Some (map AInt indexes)) with
      | Answered user_input rest =>
          match int user_input with
          | None => Failed ValueError
          | Some idx =>
              match sorted_list !! idx with
              | Some user_decision => Answered (Some user_decision) rest
              | None => Failed IndexOutOfRange
              end
          end
      | Failed e => Failed e
      end
  end.

End Prompt.

Module PromptExtras.
Import Prompt.

(** X20: with allowed answers, the prompt returns the first typed line that
    is the rendering of an allowed answer, and leaves what follows it
    unread; it fails only at the end of the input, when no line was one. *)
Theorem first_allowed_line_wins (typed : list str) (allowed : list Answer) :
  match await_user_input typed (Some allowed) with
  | Answered inp rest =>
      ∃ rejected, typed = rejected ++ inp :: rest ∧
        inp ∈ map str_of allowed ∧
        Forall (fun line => line ∉ map str_of allowed) rejected
  | Failed e =>
      e = EOFError ∧ Forall (fun line => line ∉ map str_of allowed) typed
  end.
Proof.
  induction typed as [|inp typed IH]; simpl; [done|].
  case_bool_decide as Hinp.
  - exists []. done.
  - destruct (await_user_input typed (Some allowed)) as [answer rest|e].
    + destruct IH as (rejected & -> & Hanswer & Hrejected).
      exists (inp :: rejected). split_and!; [done|done|by constructor].
    + destruct IH as [-> Hall]. split; [done|by constructor].
Qed.

(** The approval prompt of [initialize] takes [y] and [n] as they are
    spelled, and nothing else. *)
Example approval_is_case_sensitive :
  await_user_input [py "Y"; py "yes"; py " y"; py "n"; py "y"]
    (Some [AStr (py "y"); AStr (py "n")]) = Answered (py "n") [py "y"].
Proof. vm_compute. reflexivity. Qed.

(** *** [int] reads back what [str] writes *)

Lemma digit_value_char (d : N) :
  (d < 10)%N -> digit_value (pretty_N_char d) = Some d.
Proof.
  intros Hd. do 10 (destruct d as [|d] using N.peano_ind; [done|]). lia.
Qed.

Lemma int_go_pretty (x : N) (s : string) :
  int_go 0 (py (pretty_N_go x s)) = int_go x (py s).
Proof.
  revert s. induction (N.lt_wf_0 x) as [x _ IH]. intros s.
  destruct (decide (x = 0%N)) as [-> | Hx]; [by rewrite pretty_N_go_0|].
  rewrite pretty_N_go_step by lia.
  rewrite IH by (apply N.div_lt; lia).
  unfold py. simpl. rewrite digit_value_char by (apply N.mod_lt; lia). simpl.
  f_equal. rewrite N.mul_comm. symmetry. apply N.div_mod. lia.
Qed.

Lemma pretty_N_go_nonempty (x : N) (s : string) :
  s ≠ EmptyString -> pretty_N_go x s ≠ EmptyString.
Proof.
  revert s. induction (N.lt_wf_0 x) as [x _ IH]. intros s Hs.
  destruct (decide (x = 0%N)) as [-> | Hx]; [by rewrite pretty_N_go_0|].
  rewrite pretty_N_go_step by lia. apply IH; [apply N.div_lt; lia | done].
Qed.

Lemma int_of_nat (n : nat) : int (PyStr.of_nat n) = Some n.
Proof.
  unfold PyStr.of_nat, pretty, pretty_nat, pretty, pretty_N.
  case_decide as Hn.
  - assert (n = 0) as -> by lia. reflexivity.
  - rewrite pretty_N_go_step by lia.
    pose proof (pretty_N_go_nonempty (N.of_nat n `div` 10)
                  (String (pretty_N_char (N.of_nat n `mod` 10)) EmptyString)
                  ltac:(discriminate)) as Hne.
    unfold int.
    destruct (py (pretty_N_go _ _)) as [|c s] eqn:Hs.
    { destruct (pretty_N_go _ _); [done | discriminate]. }
    rewrite <-Hs, int_go_pretty. unfold py. simpl.
    rewrite digit_value_char by (apply N.mod_lt; lia). simpl. f_equal.
    rewrite N.mul_comm, <-N.div_mod by lia. lia.
Qed.

(** *** The order of [sorted] *)

Lemma str_leb_total (a b : str) : str_leb a b = true ∨ str_leb b a = true.
Proof.
  revert b. induction a as [|x a IH]; intros [|y b]; simpl; auto.
  destruct (N.ltb_spec (N_of_ascii x) (N_of_ascii y)); [auto|].
  destruct (N.ltb_spec (N_of_ascii y) (N_of_ascii x)); [auto|].
  apply IH.
Qed.

#[local] Instance str_le_total : Total str_le.
Proof. intros a b. apply str_leb_total. Qed.

(** The renderings of the indexes are exactly the numbers below the length
    of the list. *)
Lemma index_renderings (n : nat) (line : str) :
  line ∈ map str_of (map AInt (seq 0 n)) <-> ∃ i, i < n ∧ line = PyStr.of_nat i.
Proof.
  rewrite list_elem_of_fmap. setoid_rewrite list_elem_of_fmap. split.
  - intros (a & -> & i & -> & Hi). apply elem_of_seq in Hi. exists i. split; [lia|done].
  - intros (i & Hi & ->). exists (AInt i). split; [done|]. exists i. split; [done|].
    apply elem_of_seq. lia.
Qed.

(** X21: the choice is always an entry of the list.  An empty list gives
    [None] and a list of one entry gives that entry, both without reading
    input; with more entries the prompt can fail only at the end of the
    input, never on the number it has accepted. *)
Theorem decision_is_listed (typed : list str) (list_to_decide : list str) :
  match await_user_input_from_list_decision typed list_to_decide with
  | Answered (Some user_decision) rest =>
      user_decision ∈ list_to_decide ∧ (length list_to_decide = 1 -> rest = typed)
  | Answered None rest => list_to_decide = [] ∧ rest = typed
  | Failed e => e = EOFError ∧ 2 <= length list_to_decide
  end.
Proof.
  destruct list_to_decide as [|a [|b l]]; [done | by split; [left|] |].
  unfold await_user_input_from_list_decision.
  set (choices := a :: b :: l).
  pose proof (first_allowed_line_wins typed (map AInt (seq 0 (length choices)))) as Hfirst.
  destruct (await_user_input typed _) as [user_input rest|e].
  - destruct Hfirst as (rejected & -> & (i & Hi & ->)%index_renderings & _).
    rewrite int_of_nat.
    destruct (sorted choices !! i) as [user_decision|] eqn:Hlookup.
    + split; [|simpl; lia].
      apply list_elem_of_lookup_2 in Hlookup. unfold sorted in Hlookup.
      by rewrite merge_sort_Permutation in Hlookup.
    + apply lookup_ge_None in Hlookup. unfold sorted in Hlookup.
      rewrite merge_sort_Permutation in Hlookup. lia.
  - destruct Hfirst as [-> _]. split; [done | simpl; lia].
Qed.

Lemma first_allowed_line (rejected : list str) (inp : str) (rest : list str)
    (allowed : list Answer) :
  Forall (fun line => line ∉ map str_of allowed) rejected ->
  inp ∈ map str_of allowed ->
  await_user_input (rejected ++ inp :: rest) (Some allowed) = Answered inp rest.
Proof.
  intros Hrejected Hinp. induction Hrejected as [|line rejected Hline _ IH]; simpl.
  - by rewrite bool_decide_eq_true_2.
  - by rewrite bool_decide_eq_false_2.
Qed.

(** X22: with two entries or more, the first typed line that is a number
    below the length of the list, written without sign, blanks or leading
    zeros, selects the entry at that position of the list in ascending
    order. *)
Theorem decision_picks_by_rank (typed rejected rest : list str)
    (list_to_decide : list str) (k : nat) :
  2 <= length list_to_decide ->
  k < length list_to_decide ->
  typed = rejected ++ PyStr.of_nat k :: rest ->
  Forall (fun line => ∀ i, i < length list_to_decide -> line ≠ PyStr.of_nat i) rejected ->
  ∃ ascending user_decision,
    ascending ≡ₚ list_to_decide ∧ Sorted str_le ascending ∧
    ascending !! k = Some user_decision ∧
    await_user_input_from_list_decision typed list_to_decide =
    Answered (Some user_decision) rest.
Proof.
  intros Hlen Hk -> Hrejected.
  destruct (lookup_lt_is_Some_2 (sorted list_to_decide) k) as [user_decision Hlookup].
  { unfold sorted. by rewrite merge_sort_Permutation. }
  exists (sorted list_to_decide), user_decision. split_and!; [| |done|].
  - apply merge_sort_Permutation.
  - apply Sorted_merge_sort, _.
  - destruct list_to_decide as [|a [|b l]]; [simpl in Hlen; lia | simpl in Hlen; lia |].
    unfold await_user_input_from_list_decision.
    set (choices := a :: b :: l) in *.
    assert (await_user_input (rejected ++ PyStr.of_nat k :: rest)
              (Some (map AInt (seq 0 (length choices)))) =
            Answered (PyStr.of_nat k) rest) as ->.
    { apply first_allowed_line; [|apply index_renderings; eauto].
      eapply Forall_impl; [exact Hrejected|]. cbv beta.
      intros line Hline (i & Hi & ->)%index_renderings. by apply (Hline i). }
    by rewrite int_of_nat, Hlookup.
Qed.

Lemma decision_picks_by_rank_witness :
  ∃ ascending user_decision,
    ascending ≡ₚ [py "trip.json"; py "home.json"; py "archive.json"] ∧
    Sorted str_le ascending ∧
    ascending !! 1 = Some user_decision ∧
    await_user_input_from_list_decision [py "01"; py " 1"; py "3"; py "1"; py "0"]
      [py "trip.json"; py "home.json"; py "archive.json"] =
    Answered (Some user_decision) [py "0"].
Proof.
  apply (decision_picks_by_rank _ [py "01"; py " 1"; py "3"] [py "0"]
           [py "trip.json"; py "home.json"; py "archive.json"] 1).
  - simpl. lia.
  - simpl. lia.
  - reflexivity.
  - repeat constructor; intros i Hi; simpl in Hi;
      (destruct i as [|[|[|i]]]; [done|done|done|lia]).
Defined.

(** The second file name in ascending order is chosen. *)
Example decision_of_three :
  await_user_input_from_list_decision [py "01"; py " 1"; py "3"; py "1"; py "0"]
    [py "trip.json"; py "home.json"; py "archive.json"] =
  Answered (Some (py "home.json")) [py "0"].
Proof. vm_compute. reflexivity. Qed.

End PromptExtras.

(** ** Which files the reconciler takes for copies (C9) *)

Module ReconcilerSelection.
Import Reconciler ReconcilerFacts ReconcilerExtras DirectorySizeExtras.

(** [in_tree w top p]: [p] is a regular entry of the directory [top] or of
    a directory at any depth below it. *)
Inductive in_tree (w : World) : str -> str -> Prop :=
  | in_tree_entry (top name : str) :
      name ∈ (scandir w top).2 -> in_tree w top (OsPath.join top name)
  | in_tree_below (top name p : str) :
      name ∈ (scandir w top).1 -> in_tree w (OsPath.join top name) p -> in_tree w top p.










(** The file in [Kopien/] is compared with [out.png]; a file two levels
    down with a true copy name is deleted. *)
Example copies_in_sample_tree :
  in_tree ReconcilerTheorems.copies_world (py "out") (py "out/2021/a_Kopie(1).jpg") ∧
  ∃ w', delete_copy_pictures_from_destination 11 ReconcilerTheorems.copies_world
          ReconcilerTheorems.sample_config
          = Return (w', [py "out/2021/a_Kopie(1).jpg"; py "out/MeineKopie.jpg"],
                    [(py "out/Kopien/x.png", py "Size does not match");
                     (py "out/2021/a_Kopie(2).jpg", py "Size does not match")]) ∧
        files w' !! py "out/2021/a_Kopie(1).jpg" = None ∧
        files w' !! py "out/Kopien/x.png" = Some 6%Z.
Proof.
  split.
  - apply (in_tree_below _ (py "out") (py "2021")).
    + apply (bool_decide_unpack _). vm_compute. exact I.
    + apply (in_tree_entry _ (py "out/2021") (py "a_Kopie(1).jpg")).
      apply (bool_decide_unpack _). vm_compute. exact I.
  - apply (returns_checked3 _ _ _
             (fun w' => files w' !! py "out/2021/a_Kopie(1).jpg" = None ∧
                        files w' !! py "out/Kopien/x.png" = Some 6%Z)).
    vm_compute. reflexivity.
Qed.

End ReconcilerSelection.
